(** * WebShot: the capture orchestration of [web_screenshot.py]

    A shallow embedding of [ScreenShotConfig] and [WebScreenShot]
    (src/web_screenshot.py) and the properties of its URL validator,
    configuration resolver, page stabiliser and capture orchestrator.

    Conventions of the embedding.
    - Python [str] is [string] (the UTF-8 bytes of the text); Python [int] is
      [Z]; a [float] duration is a rational [Q]; a [dict] is a [gmap].
    - Everything outside the repository (the browser driver, the clock, the
      Unicode and IP-literal checks of [urllib]) is an oracle: a record of
      functions indexed by the position of the call in the run.
    - Effects are explicit: a computation maps a [World] (the calls made so
      far, the files on disk, the [_is_open] flag) to an outcome and a new
      world.  An outcome is a value, a raised exception, or [Diverge] when a
      [while] loop was cut off by its fuel. *)

From Stdlib Require Import ZArith QArith Lia Ascii String.
From stdpp Require Import base option list gmap strings pretty.

Set Warnings "-register-all".

Open Scope Z_scope.
Open Scope string_scope.
Open Scope list_scope.

(** ** Strings as Python uses them *)

Module PyStr.

Definition code (c : ascii) : nat := nat_of_ascii c.

Definition isascii (c : ascii) : bool := (code c <? 128)%nat.
Definition isupper (c : ascii) : bool := ((65 <=? code c) && (code c <=? 90))%nat.
Definition islower (c : ascii) : bool := ((97 <=? code c) && (code c <=? 122))%nat.
Definition isalpha (c : ascii) : bool := isupper c || islower c.
Definition isdigit (c : ascii) : bool := ((48 <=? code c) && (code c <=? 57))%nat.

Definition lower_char (c : ascii) : ascii :=
  if isupper c then ascii_of_nat (code c + 32) else c.

(** [s.lower()], on the ASCII letters. *)
Fixpoint lower (s : string) : string :=
  match s with
  | EmptyString => EmptyString
  | String c s' => String (lower_char c) (lower s')
  end.

(** [c in s] for a one-character [c]. *)
Fixpoint contains (c : ascii) (s : string) : bool :=
  match s with
  | EmptyString => false
  | String a s' => Ascii.eqb a c || contains c s'
  end.

Fixpoint forallb (p : ascii -> bool) (s : string) : bool :=
  match s with
  | EmptyString => true
  | String a s' => p a && forallb p s'
  end.

Fixpoint filter (p : ascii -> bool) (s : string) : string :=
  match s with
  | EmptyString => EmptyString
  | String a s' => if p a then String a (filter p s') else filter p s'
  end.

(** [s.lstrip(chars)] with the set of characters given as a predicate. *)
Fixpoint lstrip (p : ascii -> bool) (s : string) : string :=
  match s with
  | EmptyString => EmptyString
  | String a s' => if p a then lstrip p s' else s
  end.

(** [s.partition(c)]: the text before the first [c], whether [c] occurs,
    and the text after it. *)
Fixpoint partition (c : ascii) (s : string) : string * bool * string :=
  match s with
  | EmptyString => (EmptyString, false, EmptyString)
  | String a s' =>
      if Ascii.eqb a c then (EmptyString, true, s')
      else let '(before, found, after) := partition c s' in
           (String a before, found, after)
  end.

(** The third component of [s.rpartition(c)]: the text after the last [c],
    or all of [s] when [c] does not occur. *)
Fixpoint after_last (c : ascii) (s : string) : string :=
  match s with
  | EmptyString => EmptyString
  | String a s' =>
      if contains c s' then after_last c s'
      else if Ascii.eqb a c then s' else s
  end.

(** The text up to the first character satisfying [p] and the rest. *)
Fixpoint break (p : ascii -> bool) (s : string) : string * string :=
  match s with
  | EmptyString => (EmptyString, EmptyString)
  | String a s' =>
      if p a then (EmptyString, s)
      else let '(before, rest) := break p s' in (String a before, rest)
  end.

(** Truthiness of a string: [bool(s)]. *)
Definition truthy (s : string) : bool :=
  match s with EmptyString => false | _ => true end.

End PyStr.

(** ** [urllib.parse.urlparse], as far as [_is_valid_url] reads its result

  The standard library's [urlsplit] (CPython 3.12) computes the scheme and
  the network location as below.  Two of its checks depend on tables that
  are not text processing (the IPv6/IPvFuture syntax of a bracketed host
  and the NFKC normal form of a non-ASCII netloc); they are the fields of
  [UrlChecks], and answer [true] when the check passes. *)

Record UrlChecks := {
check_bracketed_netloc : string -> bool;
checknetloc_nfkc : string -> bool
}.

Record ParseResult := { scheme : string; netloc : string; rest : string }.

Module urllib.

Import PyStr.

(** [_WHATWG_C0_CONTROL_OR_SPACE]: the characters 0x00 to 0x20. *)
Definition c0_control_or_space (c : ascii) : bool := (code c <=? 32)%nat.

(** [_UNSAFE_URL_BYTES_TO_REMOVE = ['\t', '\r', '\n']]. *)
Definition unsafe_url_byte (c : ascii) : bool :=
  ((code c =? 9) || (code c =? 13) || (code c =? 10))%nat.

(** [scheme_chars]: letters, digits and [+-.]. *)
Definition scheme_char (c : ascii) : bool :=
  (isalpha c || isdigit c || contains c "+-.").

(** The [find(':')] test of [urlsplit]: the scheme and what follows it, when
    the text starts with an ASCII letter and everything before the first
    colon is a scheme character. *)
Definition split_scheme (url : string) : string * string :=
  match url with
  | EmptyString => (EmptyString, url)
  | String c0 _ =>
      let '(before, found, after) := partition ":" url in
      if found && truthy before && isascii c0 && isalpha c0
         && forallb scheme_char before
      then (lower before, after)
      else (EmptyString, url)
  end.

(** [_splitnetloc(url, 2)] after the test [url[:2] == '//']. *)
Definition split_netloc (url : string) : string * string :=
  match url with
  | String "/" (String "/" url') => break (fun c => contains c "/?#") url'
  | _ => (EmptyString, url)
  end.

(** The "Invalid IPv6 URL" tests of [urlsplit]. *)
Definition brackets_ok (lib : UrlChecks) (nl : string) : bool :=
  match contains "[" nl, contains "]" nl with
  | true, false | false, true => false
  | true, true => check_bracketed_netloc lib nl
  | false, false => true
  end.

(** [_checknetloc]: nothing to check for an empty or ASCII netloc. *)
Definition checknetloc (lib : UrlChecks) (nl : string) : bool :=
  if negb (truthy nl) || forallb isascii nl then true
  else checknetloc_nfkc lib nl.

(** [urlparse(url)]: [None] stands for the [ValueError] it raises. *)
Definition urlparse (lib : UrlChecks) (url : string) : option ParseResult :=
  let url := lstrip c0_control_or_space url in
  let url := filter (fun c => negb (unsafe_url_byte c)) url in
  let '(sch, url) := split_scheme url in
  let '(nl, url) := split_netloc url in
  if brackets_ok lib nl && checknetloc lib nl
  then Some {| scheme := sch; netloc := nl; rest := url |}
  else None.

(** The [hostname] property of a parse result ([_hostinfo]): the host
    inside the netloc, without user information and port. *)
Definition hostname (r : ParseResult) : option string :=
  let hostinfo := after_last "@" (netloc r) in
  let '(_, have_open_br, bracketed) := partition "[" hostinfo in
  let host :=
    if have_open_br then (partition "]" bracketed).1.1
    else (partition ":" hostinfo).1.1 in
  if truthy host then
    let '(h, percent, zone) := partition "%" host in
    Some (lower h +:+ (if percent then "%" else "") +:+ zone)
  else None.

End urllib.

(** ** The URL validator *)

Section Validator.

Variable lib : UrlChecks.

(** [WebScreenShot._is_valid_url]: the [try] around [urlparse] turns its
    [ValueError] into [False]. *)
Definition _is_valid_url (url : string) : bool :=
  match urllib.urlparse lib url with
  | Some result =>
      (PyStr.truthy (scheme result) && PyStr.truthy (netloc result))
      && (String.eqb (scheme result) "http" || String.eqb (scheme result) "https")
  | None => false
  end.

(** The validator as the specification words it: the text parses, the
    scheme is http or https, and the host component is not empty. *)
Definition is_valid_spec (url : string) : bool :=
  match urllib.urlparse lib url with
  | Some result =>
      (String.eqb (scheme result) "http" || String.eqb (scheme result) "https")
      && bool_decide (is_Some (urllib.hostname result))
  | None => false
  end.

End Validator.

(** ** Settings

    [ScreenShotConfig] with the types its fields are annotated with: the
    timeouts are milliseconds, the delays are seconds. *)

Record ScreenShotConfig := {
  navigation_timeout : Z;
  action_timeout : Z;
  final_wait : Z;
  scroll_delay : Q;
  page_delay : Q;
  request_delay : Q;
  enable_request_throttling : bool;
  viewport_width : option Z;
  viewport_height : option Z;
  viewport_auto_adjust : bool;
  max_viewport_width : Z;
  max_viewport_height : Z;
  headless : bool;
  verbose : bool
}.

(** [ScreenShotConfig()]: the declared default of every field. *)
Definition ScreenShotConfig_default : ScreenShotConfig := {|
  navigation_timeout := 60000;
  action_timeout := 60000;
  final_wait := 5000;
  scroll_delay := 1%Q;
  page_delay := 2%Q;
  request_delay := (1 # 2)%Q;
  enable_request_throttling := false;
  viewport_width := None;
  viewport_height := None;
  viewport_auto_adjust := false;
  max_viewport_width := 7680;
  max_viewport_height := 43200;
  headless := true;
  verbose := false
|}.

(** The instance with another [viewport_auto_adjust]. *)
Definition with_auto_adjust (b : bool) (c : ScreenShotConfig) : ScreenShotConfig := {|
  navigation_timeout := navigation_timeout c;
  action_timeout := action_timeout c;
  final_wait := final_wait c;
  scroll_delay := scroll_delay c;
  page_delay := page_delay c;
  request_delay := request_delay c;
  enable_request_throttling := enable_request_throttling c;
  viewport_width := viewport_width c;
  viewport_height := viewport_height c;
  viewport_auto_adjust := b;
  max_viewport_width := max_viewport_width c;
  max_viewport_height := max_viewport_height c;
  headless := headless c;
  verbose := verbose c
|}.

(** ** The configuration resolver

    A parsed YAML document is a dynamically typed value.  Python does not
    check a dataclass field against its annotation, so the instance that
    [from_yaml] builds is modelled by its field dictionary (what [to_dict]
    returns), whose values are dynamic as well. *)

Inductive pyval :=
| PyNone
| PyBool (b : bool)
| PyInt (n : Z)
| PyFloat (q : Q)
| PyStr (s : string)
| PyList (l : list pyval)
| PyDict (d : gmap string pyval).

Definition py_optional_int (o : option Z) : pyval :=
  match o with Some n => PyInt n | None => PyNone end.

(** [ScreenShotConfig.to_dict], that is [asdict(self)]. *)
Definition to_dict (c : ScreenShotConfig) : gmap string pyval :=
  list_to_map [
    ("navigation_timeout", PyInt (navigation_timeout c));
    ("action_timeout", PyInt (action_timeout c));
    ("final_wait", PyInt (final_wait c));
    ("scroll_delay", PyFloat (scroll_delay c));
    ("page_delay", PyFloat (page_delay c));
    ("request_delay", PyFloat (request_delay c));
    ("enable_request_throttling", PyBool (enable_request_throttling c));
    ("viewport_width", py_optional_int (viewport_width c));
    ("viewport_height", py_optional_int (viewport_height c));
    ("viewport_auto_adjust", PyBool (viewport_auto_adjust c));
    ("max_viewport_width", PyInt (max_viewport_width c));
    ("max_viewport_height", PyInt (max_viewport_height c));
    ("headless", PyBool (headless c));
    ("verbose", PyBool (verbose c))
  ].

(** [cls.__dataclass_fields__] and the declared defaults. *)
Definition declared_defaults : gmap string pyval := to_dict ScreenShotConfig_default.
Definition dataclass_fields : gset string := dom declared_defaults.

(** The dataclass constructor called with keyword arguments: a field takes
    its keyword argument when there is one,
    and its declared default otherwise. *)
Definition dataclass_init (kwargs : gmap string pyval) : gmap string pyval :=
  kwargs ∪ declared_defaults.

Module Py.

(** [bool(v)]. *)
Definition truthy (v : pyval) : bool :=
  match v with
  | PyNone => false
  | PyBool b => b
  | PyInt n => negb (Z.eqb n 0)
  | PyFloat q => negb (Qeq_bool q 0)
  | PyStr s => PyStr.truthy s
  | PyList l => match l with [] => false | _ => true end
  | PyDict d => negb (bool_decide (dom d = ∅))
  end.

Definition is_str (key : string) (v : pyval) : bool :=
  match v with PyStr s => String.eqb s key | _ => false end.

(** [key in v] for a string [key]; [None] is the [TypeError] of a value that
    is not a container. *)
Definition contains (key : string) (v : pyval) : option bool :=
  match v with
  | PyDict d => Some (bool_decide (is_Some (d !! key)))
  | PyStr s => Some (match String.index 0 key s with Some _ => true | None => false end)
  | PyList l => Some (existsb (is_str key) l)
  | _ => None
  end.

(** [v[key]] for a string [key]: a [KeyError] or [TypeError] is [None]. *)
Definition getitem (key : string) (v : pyval) : option pyval :=
  match v with
  | PyDict d => d !! key
  | _ => None
  end.

(** [v.get(key, fallback)]: only a dictionary has the method. *)
Definition get (v : pyval) (key : string) (fallback : pyval) : option pyval :=
  match v with
  | PyDict d => Some (default fallback (d !! key))
  | _ => None
  end.

End Py.

(** One [if 'name' in config:] block of [_flatten_config]; [fill] is its
    body, applied to [config['name']]. *)
Definition flatten_section (config : pyval) (name : string)
    (fill : pyval -> gmap string pyval -> option (gmap string pyval))
    (flattened : gmap string pyval) : option (gmap string pyval) :=
  present ← Py.contains name config;
  if (present : bool) then sec ← Py.getitem name config; fill sec flattened
  else Some flattened.

(** [flattened[field] = section.get(key, fallback)]. *)
Definition flatten_key (sec : pyval) (field key : string) (fallback : pyval)
    (flattened : gmap string pyval) : option (gmap string pyval) :=
  v ← Py.get sec key fallback; Some (<[field := v]> flattened).

(** [ScreenShotConfig._flatten_config]; [None] is the exception raised for
    a document that is not a dictionary of dictionaries. *)
Definition _flatten_config (config : pyval) : option (gmap string pyval) :=
  flattened ← Some ∅;
  flattened ← flatten_section config "browser" (fun sec flattened =>
    flatten_key sec "headless" "headless" (PyInt 60000) flattened) flattened;
  flattened ← flatten_section config "timeouts" (fun sec flattened =>
    flattened ← flatten_key sec "navigation_timeout" "navigation_timeout" (PyInt 60000) flattened;
    flattened ← flatten_key sec "action_timeout" "action_timeout" (PyInt 60000) flattened;
    flatten_key sec "final_wait" "final_wait" (PyInt 5000) flattened) flattened;
  flattened ← flatten_section config "scroll" (fun sec flattened =>
    flatten_key sec "scroll_delay" "delay" (PyFloat 1) flattened) flattened;
  flattened ← flatten_section config "throttling" (fun sec flattened =>
    flattened ← flatten_key sec "page_delay" "page_delay" (PyFloat 2) flattened;
    flattened ← flatten_key sec "request_delay" "request_delay" (PyFloat (1 # 2)) flattened;
    flatten_key sec "enable_request_throttling" "enable_request_throttling" (PyBool true) flattened) flattened;
  flattened ← flatten_section config "viewport" (fun sec flattened =>
    flattened ← flatten_key sec "viewport_width" "width" PyNone flattened;
    flattened ← flatten_key sec "viewport_height" "height" PyNone flattened;
    flattened ← flatten_key sec "viewport_auto_adjust" "auto_adjust" (PyBool false) flattened;
    flattened ← flatten_key sec "max_viewport_width" "max_width" (PyInt 7680) flattened;
    flatten_key sec "max_viewport_height" "max_height" (PyInt 43200) flattened) flattened;
  flatten_section config "logging" (fun sec flattened =>
    flatten_key sec "verbose" "verbose" (PyBool false) flattened) flattened.

(** [ScreenShotConfig.from_yaml] applied to the document that
    [yaml.safe_load] returned; [None] is the [ValueError] it raises. *)
Definition from_yaml (loaded : pyval) : option (gmap string pyval) :=
  let config_dict := if Py.truthy loaded then loaded else PyDict ∅ in
  flattened_config ← _flatten_config config_dict;
  let valid_params :=
    filter (fun kv => kv.1 ∈ dataclass_fields) flattened_config in
  Some (dataclass_init valid_params).

(** The document's key for every field: its section and its name there. *)
Definition document_key (field : string) : option (string * string) :=
  if String.eqb field "headless" then Some ("browser", "headless")
  else if String.eqb field "navigation_timeout" then Some ("timeouts", "navigation_timeout")
  else if String.eqb field "action_timeout" then Some ("timeouts", "action_timeout")
  else if String.eqb field "final_wait" then Some ("timeouts", "final_wait")
  else if String.eqb field "scroll_delay" then Some ("scroll", "delay")
  else if String.eqb field "page_delay" then Some ("throttling", "page_delay")
  else if String.eqb field "request_delay" then Some ("throttling", "request_delay")
  else if String.eqb field "enable_request_throttling" then Some ("throttling", "enable_request_throttling")
  else if String.eqb field "viewport_width" then Some ("viewport", "width")
  else if String.eqb field "viewport_height" then Some ("viewport", "height")
  else if String.eqb field "viewport_auto_adjust" then Some ("viewport", "auto_adjust")
  else if String.eqb field "max_viewport_width" then Some ("viewport", "max_width")
  else if String.eqb field "max_viewport_height" then Some ("viewport", "max_height")
  else if String.eqb field "verbose" then Some ("logging", "verbose")
  else None.

(** ** The world of a capture

    The calls that leave the program, in the order they are made.  The three
    [time.sleep] call sites are told apart by a [SleepSite]. *)

Inductive SleepSite := ScrollDelay | PageDelay | PopupPause.

Inductive Event :=
| PlaywrightStart
| ChromiumLaunch (headless : bool)
| NewPage (viewport : option (option Z * option Z))
| SetDefaultNavigationTimeout (ms : Z)
| SetDefaultTimeout (ms : Z)
| Route
| Goto (url : string)
| WaitForLoadState
| WaitForTimeout (ms : Z)
| EvalEagerImages
| EvalInnerHeight
| EvalBodyScrollHeight
| EvalDocScrollWidth
| EvalDocScrollHeight
| EvalScrollTo (y : Z)
| SetViewportSize (width height : Z)
| Reload
| Screenshot (path : string) (full_page : bool)
| OnDialog
| QuerySelectorAll (selector : string)
| IsVisible (selector : string) (element : nat)
| Click (selector : string) (element : nat)
| Sleep (site : SleepSite) (seconds : Q)
| Mkdir (path : string)
| PageClose
| BlankImage (path : string) (width height : Z).

(** What a file holds: the solid image of [_create_blank_image], or the
    capture taken by the call at position [shot] of the run. *)
Inductive Image :=
| SolidImage (width height : Z) (color : string)
| PagePNG (shot : nat) (full_page : bool).

(** The answers of the collaborators.  Every field is indexed by the position
    of the call in the run: does the call raise, and what does it return. *)
Record Env := {
  raises : nat -> bool;
  inner_height : nat -> Z;
  body_scroll_height : nat -> Z;
  doc_scroll_width : nat -> Z;
  doc_scroll_height : nat -> Z;
  query_count : nat -> nat;
  visible : nat -> bool;
  now : string
}.

Record World := {
  trace : list Event;
  files : gmap string Image;
  is_open : bool
}.

Definition log (ev : Event) (w : World) : World :=
  {| trace := trace w ++ [ev]; files := files w; is_open := is_open w |}.

Definition write_file (path : string) (img : Image) (w : World) : World :=
  {| trace := trace w; files := <[path := img]> (files w); is_open := is_open w |}.

Definition set_is_open (b : bool) (w : World) : World :=
  {| trace := trace w; files := files w; is_open := b |}.

(** ** Computations *)

Inductive outcome (A : Type) :=
| Ret (a : A)
| Raise
| Diverge.

Arguments Ret {A} a.
Arguments Raise {A}.
Arguments Diverge {A}.

(** The outcome is an exception. *)
Definition raised {A} (r : outcome A) : bool :=
  match r with Raise => true | _ => false end.

Definition M (A : Type) : Type := World -> outcome A * World.

Definition ret {A} (a : A) : M A := fun w => (Ret a, w).

Definition bind {A B} (m : M A) (f : A -> M B) : M B :=
  fun w =>
    match m w with
    | (Ret a, w') => f a w'
    | (Raise, w') => (Raise, w')
    | (Diverge, w') => (Diverge, w')
    end.

Definition raise {A} : M A := fun w => (Raise, w).
Definition diverge {A} : M A := fun w => (Diverge, w).

Declare Scope comp_scope.
Delimit Scope comp_scope with comp.
Notation "x <- m ;; k" := (bind m (fun x => k))
  (at level 20, m at level 99, k at level 200, only parsing) : comp_scope.
Notation "m ;; k" := (bind m (fun _ => k))
  (at level 100, k at level 200, right associativity, only parsing) : comp_scope.
Open Scope comp_scope.

(** [try: m except Exception: handler]. *)
Definition try_except {A} (m : M A) (handler : M A) : M A :=
  fun w =>
    match m w with
    | (Raise, w') => handler w'
    | other => other
    end.

(** The [try] of a block whose handler needs to know only that it raised. *)
Definition attempt {A} (m : M A) : M (option A) :=
  try_except (a <- m ;; ret (Some a)) (ret None).

(** [if c: m]. *)
Definition when (c : bool) (m : M unit) : M unit :=
  if c then m else ret tt.

(** [for x in l: body]. *)
Fixpoint for_ {A} (l : list A) (body : A -> M unit) : M unit :=
  match l with
  | [] => ret tt
  | x :: l' => body x ;; for_ l' body
  end.

(** [while cond: body] over the loop's variables [s], cut off after [fuel]
    rounds. *)
Fixpoint while_ {S} (fuel : nat) (cond : S -> bool) (body : S -> M S) (s : S) : M S :=
  if cond s then
    match fuel with
    | O => diverge
    | Datatypes.S fuel' => s' <- body s ;; while_ fuel' cond body s'
    end
  else ret s.

(** [range(n)]. *)
Definition range (n : Z) : list nat := seq 0 (Z.to_nat n).

(** [a // b]. *)
Definition floordiv (a b : Z) : M Z :=
  if Z.eqb b 0 then raise else ret (a / b).

(** ** Paths as [pathlib] writes them

    [PurePosixPath]: a path is parsed into its root and its components, and
    written back from them. *)

Module pathlib.

(** [s.split(sep)] for a one-character [sep]. *)
Fixpoint split (sep : ascii) (s : string) : list string :=
  match s with
  | EmptyString => [EmptyString]
  | String a s' =>
      if Ascii.eqb a sep then EmptyString :: split sep s'
      else match split sep s' with
           | [] => [String a EmptyString]
           | part :: parts => String a part :: parts
           end
  end.

(** [sep.join(parts)]. *)
Fixpoint join (sep : string) (parts : list string) : string :=
  match parts with
  | [] => EmptyString
  | part :: parts' =>
      match parts' with
      | [] => part
      | _ => part +:+ sep +:+ join sep parts'
      end
  end.

(** The root that [posixpath.splitroot] finds: exactly two leading slashes
    are kept, any other number of them is one. *)
Definition root (path : string) : string :=
  match path with
  | String "/" (String "/" (String "/" _)) => "/"
  | String "/" (String "/" _) => "//"
  | String "/" _ => "/"
  | _ => ""
  end.

(** [x and x != '.'], the components that the parser keeps. *)
Definition kept (part : string) : bool :=
  negb (String.eqb part "") && negb (String.eqb part ".").

(** The components of a path: empty ones and [.] are dropped. *)
Definition tail (path : string) : list string :=
  List.filter kept (split "/" path).

(** [str] of the path with this root and these components. *)
Definition format (root : string) (tail : list string) : string :=
  match root +:+ join "/" tail with
  | EmptyString => "."
  | text => text
  end.

End pathlib.

(** [str(Path(directory) / name)] for a [name] of one component. *)
Definition path_join (directory name : string) : string :=
  pathlib.format (pathlib.root directory) (pathlib.tail directory ++ [name]).

(** A path in the form in which [pathlib] writes it, other than [.] and the
    roots: components separated by single slashes, none of them empty or
    [.], after at most one leading slash. *)
Definition normal_path (path : string) : bool :=
  match path with
  | String "/" rest => forallb pathlib.kept (pathlib.split "/" rest)
  | _ => forallb pathlib.kept (pathlib.split "/" path)
  end.

(** The selectors of [_dismiss_popups], in its order. *)
Definition popup_selectors : list string := [
  "button[aria-label='Close']";
  "button.close";
  "button[type='button'][aria-label*='close' i]";
  "[role='button'][aria-label*='close' i]";
  ".modal-close";
  ".popup-close";
  "[class*='close-btn']";
  "[class*='dismiss']";
  ".cookie-notice button[type='button']";
  "[data-testid='cookie-accept']";
  "[role='alertdialog'] button";
  "[role='dialog'] button:first-of-type"
].

(** ** [WebScreenShot] *)

Section WebScreenShot.

Variable lib : UrlChecks.
Variable env : Env.

(** A call of a collaborator: it is logged, and it raises or returns as the
    oracle says.  The value is the position of the call. *)
Definition call (ev : Event) : M nat :=
  fun w =>
    let k := length (trace w) in
    if raises env k then (Raise, log ev w) else (Ret k, log ev w).

(** A call that is taken to return: [page.close()] in the [finally] blocks.
    An exception of it would leave the public operations. *)
Definition perform (ev : Event) : M unit :=
  fun w => (Ret tt, log ev w).

Definition get_is_open : M bool := fun w => (Ret (is_open w), w).

Definition put_is_open (b : bool) : M unit := fun w => (Ret tt, set_is_open b w).

Definition save (path : string) (img : Image) : M unit :=
  fun w => (Ret tt, write_file path img w).

(** [page.screenshot(path=..., full_page=...)]. *)
Definition page_screenshot (path : string) (full_page : bool) : M unit :=
  k <- call (Screenshot path full_page) ;;
  save path (PagePNG k full_page).

(** [open]. *)
Definition open (cfg : ScreenShotConfig) : M unit :=
  opened <- get_is_open ;;
  when (negb opened) (
    call PlaywrightStart ;;
    call (ChromiumLaunch (headless cfg)) ;;
    put_is_open true).

(** [_create_blank_image]: the image is on the disk when [Image.save]
    returns; when it raises (a path without a known extension, a directory
    that does not exist) nothing is written. *)
Definition _create_blank_image (output_path : string) (width height : Z) : M unit :=
  call (BlankImage output_path width height) ;;
  save output_path (SolidImage width height "white").

(** [_setup_page]. *)
Definition _setup_page (cfg : ScreenShotConfig) (auto_adjust : bool) : M unit :=
  opened <- get_is_open ;;
  when (negb opened) (open cfg) ;;
  let viewport_config :=
    if negb auto_adjust then (viewport_width cfg, viewport_height cfg)
    else (None, None) in
  call (NewPage (match viewport_config with
                 | (None, None) => None
                 | _ => Some viewport_config
                 end)) ;;
  call (SetDefaultNavigationTimeout (navigation_timeout cfg)) ;;
  call (SetDefaultTimeout (action_timeout cfg)) ;;
  when (enable_request_throttling cfg) (call Route ;; ret tt).

(** The body of the inner [for element in elements] of [_dismiss_popups]. *)
Definition click_if_visible (selector : string) (element : nat) : M unit :=
  k <- call (IsVisible selector element) ;;
  when (visible env k) (
    call (Click selector element) ;;
    call (Sleep PopupPause (3 # 10)) ;;
    ret tt).

(** The inner [try] block of [_dismiss_popups] for one selector. *)
Definition close_matches (selector : string) : M unit :=
  k <- call (QuerySelectorAll selector) ;;
  for_ (seq 0 (query_count env k)) (click_if_visible selector).

(** [_dismiss_popups]. *)
Definition _dismiss_popups : M unit :=
  try_except
    (call OnDialog ;;
     for_ popup_selectors (fun selector =>
       try_except (close_matches selector) (ret tt)))
    (ret tt).

(** [_adjust_viewport_to_page]. *)
Definition _adjust_viewport_to_page (cfg : ScreenShotConfig) : M unit :=
  k <- call EvalDocScrollWidth ;;
  let page_width := doc_scroll_width env k in
  k <- call EvalDocScrollHeight ;;
  let page_height := doc_scroll_height env k in
  let adjusted_width := Z.min page_width (max_viewport_width cfg) in
  let adjusted_height := Z.min page_height (max_viewport_height cfg) in
  call (SetViewportSize adjusted_width adjusted_height) ;;
  call Reload ;;
  call WaitForLoadState ;;
  ret tt.

(** One round of the [while] of [_scroll_and_load]; the loop's variables are
    [(scroll_position, total_height)]. *)
Definition scroll_step (cfg : ScreenShotConfig) (viewport_height : Z)
    (s : Z * Z) : M (Z * Z) :=
  let scroll_position := s.1 + viewport_height in
  call (EvalScrollTo scroll_position) ;;
  call (Sleep ScrollDelay (scroll_delay cfg)) ;;
  k <- call EvalBodyScrollHeight ;;
  ret (scroll_position, body_scroll_height env k).

(** [while scroll_position < total_height: ...]. *)
Definition scroll_loop (cfg : ScreenShotConfig) (fuel : nat) (viewport_height : Z)
    (s : Z * Z) : M (Z * Z) :=
  while_ fuel (fun s => s.1 <? s.2)%Z (scroll_step cfg viewport_height) s.

(** [_scroll_and_load]. *)
Definition _scroll_and_load (cfg : ScreenShotConfig) (fuel : nat) : M unit :=
  call EvalEagerImages ;;
  k <- call EvalInnerHeight ;;
  let viewport_height := inner_height env k in
  k <- call EvalBodyScrollHeight ;;
  let total_height := body_scroll_height env k in
  let scroll_position := 0 in
  scroll_loop cfg fuel viewport_height (scroll_position, total_height) ;;
  ret tt.

(** The name of the file of a page, [f"page_{page_num + 1}.png"] in the
    output directory. *)
Definition page_path (output_dir : string) (page_num : nat) : string :=
  path_join output_dir ("page_" +:+ pretty (page_num + 1)%nat +:+ ".png").

(** The body of [for page_num in range(num_pages)]. *)
Definition capture_page (cfg : ScreenShotConfig) (output_dir : string)
    (viewport_height : Z) (page_num : nat) : M unit :=
  when (0 <? page_num)%nat (call (Sleep PageDelay (page_delay cfg)) ;; ret tt) ;;
  let scroll_position := Z.of_nat page_num * viewport_height in
  call (EvalScrollTo scroll_position) ;;
  call WaitForLoadState ;;
  _dismiss_popups ;;
  call (WaitForTimeout (final_wait cfg)) ;;
  let output_path := page_path output_dir page_num in
  page_screenshot output_path false.

(** Lines 330 to 361 of [capture_multiple_pages]: measure, count the pages,
    capture each of them. *)
Definition capture_pages (cfg : ScreenShotConfig) (output_dir : string) : M bool :=
  k <- call EvalBodyScrollHeight ;;
  let total_height := body_scroll_height env k in
  k <- call EvalInnerHeight ;;
  let viewport_height := inner_height env k in
  num_pages <- floordiv (total_height + viewport_height - 1) viewport_height ;;
  for_ (range num_pages) (capture_page cfg output_dir viewport_height) ;;
  ret true.

(** Lines 319 to 327 of [capture_multiple_pages], after the page is set up:
    navigate, wait, scroll through the page. *)
Definition stabilize (cfg : ScreenShotConfig) (fuel : nat) (url : string) : M unit :=
  call (Goto url) ;;
  call WaitForLoadState ;;
  _scroll_and_load cfg fuel.

(** [capture_multiple_pages].  The [page] of the source is assigned when
    [_setup_page] returns, so the [finally] closes it only from then on. *)
Definition capture_multiple_pages (cfg : ScreenShotConfig) (fuel : nat)
    (url : string) (output_dir : option string) : M bool :=
  let output_dir := default ("screenshots_" +:+ now env) output_dir in
  made <- attempt (call (Mkdir output_dir)) ;;
  match made with
  | None => ret false
  | Some _ =>
      if negb (_is_valid_url lib url) then
        _create_blank_image (path_join output_dir "page_1.png") 800 600 ;;
        ret false
      else
        page <- attempt (_setup_page cfg false) ;;
        match page with
        | None => ret false
        | Some _ =>
            done <- attempt (stabilize cfg fuel url ;; capture_pages cfg output_dir) ;;
            perform PageClose ;;
            ret (default false done)
        end
  end.

(** The statements of [capture] between navigation and [return True]. *)
Definition capture_steps (cfg : ScreenShotConfig) (fuel : nat) (url : string)
    (output_path : string) (use_auto_adjust : bool) : M bool :=
  call (Goto url) ;;
  call WaitForLoadState ;;
  (if use_auto_adjust then _adjust_viewport_to_page cfg
   else _scroll_and_load cfg fuel) ;;
  call WaitForLoadState ;;
  call (WaitForTimeout (final_wait cfg)) ;;
  (if use_auto_adjust then page_screenshot output_path false
   else page_screenshot output_path true) ;;
  ret true.

(** [capture].  The blank image of an invalid URL is saved outside the
    [try]; the one of the handler is saved inside it, so the [finally] closes
    the page also when that save raises, and the exception goes on. *)
Definition capture (cfg : ScreenShotConfig) (fuel : nat) (url : string)
    (output_path : option string) (auto_adjust : option bool) : M bool :=
  let output_path := default ("screenshot_" +:+ now env +:+ ".png") output_path in
  if negb (_is_valid_url lib url) then
    _create_blank_image output_path 800 600 ;;
    ret false
  else
    let use_auto_adjust := default (viewport_auto_adjust cfg) auto_adjust in
    page <- attempt (_setup_page cfg use_auto_adjust) ;;
    match page with
    | None =>
        _create_blank_image output_path 800 600 ;;
        ret false
    | Some _ =>
        done <- attempt (capture_steps cfg fuel url output_path use_auto_adjust) ;;
        match done with
        | Some _ =>
            perform PageClose ;;
            ret true
        | None =>
            saved <- attempt (_create_blank_image output_path 800 600) ;;
            perform PageClose ;;
            match saved with
            | Some _ => ret false
            | None => raise
            end
        end
    end.

End WebScreenShot.

(** ** Concrete collaborators, for running the definitions *)

(** URL checks that accept every bracketed host and every non-ASCII netloc. *)
Definition lenient_checks : UrlChecks :=
  {| check_bracketed_netloc := fun _ => true; checknetloc_nfkc := fun _ => true |}.

(** A page that always measures the same: [width] by [height], in a window
    [window] high, with [popups] elements under every popup selector, all of
    them visible.  The calls whose position satisfies [fails] raise. *)
Definition steady_page (width height window : Z) (popups : nat)
    (fails : nat -> bool) : Env := {|
  raises := fails;
  inner_height := fun _ => window;
  body_scroll_height := fun _ => height;
  doc_scroll_width := fun _ => width;
  doc_scroll_height := fun _ => height;
  query_count := fun _ => popups;
  visible := fun _ => true;
  now := "2024-01-01_00-00-00"
|}.

Definition never : nat -> bool := fun _ => false.
Definition only (k : nat) : nat -> bool := fun i => Nat.eqb i k.

(** A new instance: nothing called, an empty disk, the browser not open. *)
Definition new_instance : World := {| trace := []; files := ∅; is_open := false |}.

(** ** Reading a run *)

(** The calls of popup dismissal; an exception in one of them is swallowed
    inside [_dismiss_popups]. *)
Definition popup_event (e : Event) : bool :=
  match e with
  | OnDialog | QuerySelectorAll _ | IsVisible _ _ | Click _ _
  | Sleep PopupPause _ => true
  | _ => false
  end.

(** The calls that write a file. *)
Definition writes (e : Event) : bool :=
  match e with
  | Screenshot _ _ | BlankImage _ _ _ => true
  | _ => false
  end.

(** The calls of the stages of a capture: an exception in one of them reaches
    the [try] of [capture] or [capture_multiple_pages]. *)
Definition stage_call (e : Event) : bool :=
  match e with
  | PageClose | BlankImage _ _ _ => false
  | _ => negb (popup_event e)
  end.

Definition is_pacing (e : Event) : bool :=
  match e with Sleep PageDelay _ => true | _ => false end.


Definition screenshot_of (e : Event) : option (string * bool) :=
  match e with Screenshot path full_page => Some (path, full_page) | _ => None end.

(** The events of a run from [w] to [w']. *)
Definition new_events (w w' : World) : list Event :=
  drop (length (trace w)) (trace w').

(** A stage call of the run from [w] to [w'] raised. *)
Definition faulted (env : Env) (w w' : World) : Prop :=
  exists k e, trace w' !! k = Some e /\ (length (trace w) <= k)%nat /\
              stage_call e = true /\ raises env k = true.

(** The effect on the disk of the call [e] made at position [k]. *)
Definition replay1 (env : Env) (k : nat) (e : Event)
    (fs : gmap string Image) : gmap string Image :=
  match e with
  | Screenshot path full_page =>
      if raises env k then fs else <[path := PagePNG k full_page]> fs
  | BlankImage path width height =>
      if raises env k then fs else <[path := SolidImage width height "white"]> fs
  | _ => fs
  end.

Fixpoint replay (env : Env) (k : nat) (evs : list Event)
    (fs : gmap string Image) : gmap string Image :=
  match evs with
  | [] => fs
  | e :: evs' => replay env (S k) evs' (replay1 env k e fs)
  end.

(** [w'] continues [w]: its trace extends that of [w] by events that satisfy
    [Q] at their positions, and its disk is that of [w] after the writes
    among them. *)
Definition ext (env : Env) (Q : nat -> Event -> Prop) (w w' : World) : Prop :=
  exists new,
    trace w' = trace w ++ new /\
    files w' = replay env (length (trace w)) new (files w) /\
    forall i e, new !! i = Some e -> Q (length (trace w) + i)%nat e.

(** Every run of [m] continues its world with events in [Qa], which are also
    in [Qn] unless the run ends in an exception. *)
Definition run_ok {A} (env : Env) (Qa Qn : nat -> Event -> Prop) (m : M A) : Prop :=
  forall w, ext env Qa w (m w).2 /\ (raised (m w).1 = false -> ext env Qn w (m w).2).

(** No stage call at this position raised. *)
Definition clean (env : Env) (k : nat) (e : Event) : Prop :=
  stage_call e = true -> raises env k = false.

(** The events of one page of a multi-page capture, around those of its
    popup dismissal. *)
Definition page_events (cfg : ScreenShotConfig) (output_dir : string)
    (viewport_height : Z) (page_num : nat) (popups : list Event) : list Event :=
  (if (0 <? page_num)%nat then [Sleep PageDelay (page_delay cfg)] else []) ++
  [EvalScrollTo (Z.of_nat page_num * viewport_height); WaitForLoadState] ++
  popups ++
  [WaitForTimeout (final_wait cfg); Screenshot (page_path output_dir page_num) false].

(** The events of the pages from [first] on, given the popup events of each. *)
Fixpoint pages_events (cfg : ScreenShotConfig) (output_dir : string)
    (viewport_height : Z) (first : nat) (popups : list (list Event)) : list Event :=
  match popups with
  | [] => []
  | p :: popups' =>
      page_events cfg output_dir viewport_height first p ++
      pages_events cfg output_dir viewport_height (S first) popups'
  end.

(** The offset of the scroll loop after [n] rounds from [start]. *)
Definition offset_after (start viewport_height : Z) (n : nat) : Z :=
  start + Z.of_nat n * viewport_height.

(** A run of [m] ends, and its trace continues that of its world. *)
Definition settles {A} (m : M A) : Prop :=
  forall w, (m w).1 <> Diverge /\ (length (trace w) <= length (trace (m w).2))%nat.

(** A run of [m] ends, and it ends in an exception only when one of its
    stage calls raised. *)
Definition lands {A} (env : Env) (m : M A) : Prop :=
  forall w, (m w).1 <> Diverge /\
            (length (trace w) <= length (trace (m w).2))%nat /\
            (raised (m w).1 = true -> faulted env w (m w).2).

(** [m] goes no further than a stage call that raises: the call is the
    last of the run, and the run ends in its exception. *)
Definition stops {A} (env : Env) (m : M A) : Prop :=
  forall w,
    (exists new, trace (m w).2 = trace w ++ new) /\
    forall k e,
      trace (m w).2 !! k = Some e -> (length (trace w) <= k)%nat ->
      stage_call e = true -> raises env k = true ->
      (m w).1 = Raise /\ length (trace (m w).2) = S k.

(** The calls of [n] rounds of the scroll loop that starts at the offset
    [position]. *)
Fixpoint scroll_rounds (cfg : ScreenShotConfig) (position viewport_height : Z)
    (n : nat) : list Event :=
  match n with
  | O => []
  | S n' =>
      [EvalScrollTo (position + viewport_height);
       Sleep ScrollDelay (scroll_delay cfg);
       EvalBodyScrollHeight] ++
      scroll_rounds cfg (position + viewport_height) viewport_height n'
  end.

(** The total height that the scroll loop compares after [i] rounds, when it
    starts at position [k] of the run with the height [total_height]: the
    measurement of round [i], the last call of that round. *)
Definition height_after (env : Env) (k : nat) (total_height : Z) (i : nat) : Z :=
  match i with
  | O => total_height
  | S j => body_scroll_height env (k + 3 * j + 2)
  end.

(** The calls of [_setup_page], on an instance whose browser is open or
    not. *)
Definition setup_events (cfg : ScreenShotConfig) (opened auto_adjust : bool) : list Event :=
  (if opened then [] else [PlaywrightStart; ChromiumLaunch (headless cfg)]) ++
  [NewPage (if auto_adjust then None
            else match viewport_width cfg, viewport_height cfg with
                 | None, None => None
                 | width, height => Some (width, height)
                 end);
   SetDefaultNavigationTimeout (navigation_timeout cfg);
   SetDefaultTimeout (action_timeout cfg)] ++
  (if enable_request_throttling cfg then [Route] else []).

(** The calls of a capture in auto-adjust mode from the measurement of the
    page on, the first of them at position [k] of the run. *)
Definition adjusted_capture_events (env : Env) (cfg : ScreenShotConfig)
    (output_path : string) (k : nat) : list Event :=
  [EvalDocScrollWidth;
   EvalDocScrollHeight;
   SetViewportSize (Z.min (doc_scroll_width env k) (max_viewport_width cfg))
                   (Z.min (doc_scroll_height env (S k)) (max_viewport_height cfg));
   Reload;
   WaitForLoadState;
   WaitForLoadState;
   WaitForTimeout (final_wait cfg);
   Screenshot output_path false].

(** The calls of [stabilize] when it returns after [rounds] rounds of the
    scroll loop, for a window that measured [viewport_height]. *)
Definition stabilize_events (cfg : ScreenShotConfig) (url : string)
    (viewport_height : Z) (rounds : nat) : list Event :=
  [Goto url; WaitForLoadState; EvalEagerImages; EvalInnerHeight; EvalBodyScrollHeight] ++
  scroll_rounds cfg 0 viewport_height rounds.

(** The captures among the events, and the number of pacing delays. *)
Definition screenshots (evs : list Event) : list (string * bool) :=
  omap screenshot_of evs.

Definition pacing_delays (evs : list Event) : nat :=
  length (List.filter is_pacing evs).

(** The selectors that the events query, in order. *)
Definition queried (evs : list Event) : list string :=
  omap (fun e => match e with QuerySelectorAll selector => Some selector | _ => None end) evs.

(** The calls of the scroll path of the stabiliser, and those of the viewport
    adjuster. *)
Definition scroll_call (e : Event) : bool :=
  match e with
  | EvalEagerImages | EvalInnerHeight | EvalBodyScrollHeight | EvalScrollTo _
  | Sleep ScrollDelay _ => true
  | _ => false
  end.

Definition adjust_call (e : Event) : bool :=
  match e with
  | EvalDocScrollWidth | EvalDocScrollHeight | SetViewportSize _ _ | Reload => true
  | _ => false
  end.

(** The calls that start the browser. *)
Definition launch_call (e : Event) : bool :=
  match e with
  | PlaywrightStart | ChromiumLaunch _ => true
  | _ => false
  end.

(** Every call of every run of [m] satisfies [Q]. *)
Definition emits {A} (env : Env) (Q : Event -> Prop) (m : M A) : Prop :=
  run_ok env (fun _ e => Q e) (fun _ _ => True) m.

(** On an instance whose browser is open, [m] leaves it open and makes no
    call that starts it. *)
Definition reuses {A} (m : M A) : Prop :=
  forall w, is_open w = true ->
    is_open (m w).2 = true /\
    exists evs, trace (m w).2 = trace w ++ evs /\
                Forall (fun e => launch_call e = false) evs.

(** The sections that [_flatten_config] looks for, in its order. *)
Definition config_sections : list string :=
  ["browser"; "timeouts"; "scroll"; "throttling"; "viewport"; "logging"].

(** The fallback that [_flatten_config] passes to [.get] for every field. *)
Definition get_fallbacks : gmap string pyval :=
  list_to_map [
    ("headless", PyInt 60000);
    ("navigation_timeout", PyInt 60000);
    ("action_timeout", PyInt 60000);
    ("final_wait", PyInt 5000);
    ("scroll_delay", PyFloat 1);
    ("page_delay", PyFloat 2);
    ("request_delay", PyFloat (1 # 2));
    ("enable_request_throttling", PyBool true);
    ("viewport_width", PyNone);
    ("viewport_height", PyNone);
    ("viewport_auto_adjust", PyBool false);
    ("max_viewport_width", PyInt 7680);
    ("max_viewport_height", PyInt 43200);
    ("verbose", PyBool false)
  ].

Definition is_dict (v : pyval) : bool :=
  match v with PyDict _ => true | _ => false end.

(** ** The command line

    The block under [if __name__ == "__main__"], from the parsed arguments
    on.  What it prints is the list of its lines; the line of the handler
    [except Exception as e: print(f"Error: {e}")] is [ErrorLine], whatever the
    text of [e]. *)

Record Args := {
  args_url : string;
  args_output : option string;
  args_full_page : bool;
  args_multi_page : bool
}.

Inductive Line :=
| Printed (text : string)
| ErrorLine.

(** [args.output if args.output else fallback]. *)
Definition output_or (args : Args) (fallback : string) : string :=
  match args_output args with
  | Some path => if PyStr.truthy path then path else fallback
  | None => fallback
  end.

(** The [try] block of the command line.  In the branch of [--full-page],
    [final_path] is assigned only after a successful capture: formatting the
    message of the other branch raises [NameError]. *)
Definition main_try (lib : UrlChecks) (env : Env) (fuel : nat) (args : Args)
    : M (list Line) :=
  put_is_open false ;;
  if args_multi_page args then
    success <- capture_multiple_pages lib env ScreenShotConfig_default fuel
                 (args_url args) (args_output args) ;;
    if (success : bool) then
      let final_path := output_or args "screenshots_<timestamp>" in
      ret [Printed ("Screenshots saved to " +:+ final_path)]
    else
      ret [Printed "Failed to capture multiple pages"]
  else if args_full_page args then
    let config := with_auto_adjust true ScreenShotConfig_default in
    success <- capture lib env config fuel (args_url args) (args_output args) None ;;
    if (success : bool) then
      let final_path := output_or args "screenshot_<timestamp>.png" in
      ret [Printed ("Screenshot saved to " +:+ final_path)]
    else
      raise
  else
    success <- capture lib env ScreenShotConfig_default fuel
                 (args_url args) (args_output args) None ;;
    if (success : bool) then
      let final_path := output_or args "screenshot_<timestamp>.png" in
      ret [Printed ("Screenshot saved to " +:+ final_path)]
    else
      let final_path := output_or args "screenshot_<timestamp>.png" in
      ret [Printed ("Invalid URL. Blank image saved to " +:+ final_path)].

(** The command line: the lines it prints and its exit status. *)
Definition main (lib : UrlChecks) (env : Env) (fuel : nat) (args : Args)
    : M (list Line * Z) :=
  if args_full_page args && args_multi_page args then
    ret ([Printed "Error: Cannot use --full-page and --multi-page together"], 1)
  else
    try_except
      (lines <- main_try lib env fuel args ;; ret (lines, 0))
      (ret ([ErrorLine], 1)).

(** * Properties *)

(** ** Computations, step by step *)

Lemma bind_ret_inv {A B} (m : M A) (f : A -> M B) w b w' :
  bind m f w = (Ret b, w') ->
  exists a w1, m w = (Ret a, w1) /\ f a w1 = (Ret b, w').
Proof. unfold bind. destruct (m w) as [[a| |] w1]; [eauto|done..]. Qed.

Lemma call_ret_inv env ev w k w' :
  call env ev w = (Ret k, w') ->
  k = length (trace w) /\ w' = log ev w /\ raises env k = false.
Proof.
  unfold call. destruct (raises env (length (trace w))) eqn:Hr; [done|].
  by intros [= <- <-].
Qed.

Lemma bind_call {B} env ev (f : nat -> M B) w :
  bind (call env ev) f w =
  if raises env (length (trace w)) then (Raise, log ev w)
  else f (length (trace w)) (log ev w).
Proof. unfold bind, call. by destruct (raises env (length (trace w))). Qed.

Lemma bind_assoc {A B C} (m : M A) (f : A -> M B) (g : B -> M C) w :
  bind (bind m f) g w = bind m (fun a => bind (f a) g) w.
Proof. unfold bind. by destruct (m w) as [[a| |] w1]. Qed.

Lemma bind_ret {A B} (a : A) (f : A -> M B) w : bind (ret a) f w = f a w.
Proof. reflexivity. Qed.

(** ** The URL validator *)

Lemma truthy_nonempty s : PyStr.truthy s = true <-> s <> "".
Proof. destruct s; simpl; split; intros; congruence. Qed.

Lemma hostname_needs_netloc r : is_Some (urllib.hostname r) -> netloc r <> "".
Proof.
  intros [h Hh] Hempty. unfold urllib.hostname in Hh.
  rewrite Hempty in Hh. simpl in Hh. discriminate.
Qed.

(** Whatever the specification's validator accepts, the code accepts. *)
Lemma is_valid_spec_accepted lib url :
  is_valid_spec lib url = true -> _is_valid_url lib url = true.
Proof.
  unfold is_valid_spec, _is_valid_url.
  destruct (urllib.urlparse lib url) as [r|]; [|done].
  rewrite andb_true_iff, bool_decide_eq_true. intros [Hs Hh].
  apply hostname_needs_netloc, truthy_nonempty in Hh. rewrite Hh, Hs.
  apply orb_true_iff in Hs as [Hs|Hs]; apply String.eqb_eq in Hs; rewrite Hs; reflexivity.
Qed.

(** C6 (as the code has it): the validator accepts a text exactly when
    [urlparse] returns, without raising, a result whose scheme is http or
    https and whose network location (user information, host and port
    together) is not empty.  It is a total function of the text alone. *)
Theorem is_valid_url_iff lib url :
  _is_valid_url lib url = true <->
  exists r, urllib.urlparse lib url = Some r /\
            (scheme r = "http" \/ scheme r = "https") /\ netloc r <> "".
Proof.
  unfold _is_valid_url. destruct (urllib.urlparse lib url) as [r|].
  - rewrite !andb_true_iff, orb_true_iff, !truthy_nonempty, !String.eqb_eq. split.
    + intros [[_ Hn] Hs]. exists r. auto.
    + intros (r' & [= <-] & Hs & Hn). repeat split; [|done..].
      destruct Hs as [-> | ->]; discriminate.
  - split; [done|]. intros (r & [=] & _).
Qed.

(** C6, the counterexample: a URL with a port and no host is accepted,
    although its host component is empty. *)
Lemma is_valid_url_empty_host :
  _is_valid_url lenient_checks "http://:80/" = true /\
  (urllib.urlparse lenient_checks "http://:80/" ≫= urllib.hostname) = None /\
  is_valid_spec lenient_checks "http://:80/" = false.
Proof. repeat split. Qed.

(** ** The configuration resolver *)

(** C8, at a document that has the sections [browser] and [throttling]
    without the keys [headless] and [enable_request_throttling]: the record
    gets 60000 and true, where the declared defaults are true and false. *)
Theorem from_yaml_absent_key_fallbacks :
  let document :=
    PyDict {[ "browser" := PyDict ∅; "throttling" := PyDict ∅ ]} in
  (from_yaml document ≫= (.!! "headless")) = Some (PyInt 60000) /\
  declared_defaults !! "headless" = Some (PyBool true) /\
  (from_yaml document ≫= (.!! "enable_request_throttling")) = Some (PyBool true) /\
  declared_defaults !! "enable_request_throttling" = Some (PyBool false).
Proof. repeat split; vm_compute; reflexivity. Qed.

(** ** Paths *)

Lemma split_not_nil sep s : pathlib.split sep s <> [].
Proof.
  destruct s as [|a s]; simpl; [done|].
  destruct (Ascii.eqb a sep); [done|]. by destruct (pathlib.split sep s).
Qed.

Lemma join_split sep s :
  pathlib.join (String sep EmptyString) (pathlib.split sep s) = s.
Proof.
  induction s as [|a s IH]; simpl; [done|].
  pose proof (split_not_nil sep s) as Hne.
  destruct (Ascii.eqb_spec a sep) as [->|Ha].
  - destruct (pathlib.split sep s) as [|part parts]; [done|].
    simpl in *. by rewrite IH.
  - destruct (pathlib.split sep s) as [|part parts]; [done|].
    simpl in *. destruct parts; simpl in *; by rewrite <- IH.
Qed.

Lemma append_assoc (s t u : string) : (s +:+ t) +:+ u = s +:+ t +:+ u.
Proof.
  induction s as [|a s IH]; [done|].
  change (String a ((s +:+ t) +:+ u) = String a (s +:+ t +:+ u)). by rewrite IH.
Qed.

Lemma join_snoc sep parts name :
  parts <> [] ->
  pathlib.join sep (parts ++ [name]) = pathlib.join sep parts +:+ sep +:+ name.
Proof.
  induction parts as [|part parts IH]; [done|]. intros _.
  destruct parts as [|part' parts]; [done|].
  change (pathlib.join sep ((part :: part' :: parts) ++ [name]))
    with (part +:+ sep +:+ pathlib.join sep ((part' :: parts) ++ [name])).
  rewrite IH by done.
  change (pathlib.join sep (part :: part' :: parts))
    with (part +:+ sep +:+ pathlib.join sep (part' :: parts)).
  by rewrite <- !append_assoc.
Qed.

Lemma format_text root tail text :
  root +:+ pathlib.join "/" tail = text -> text <> "" -> pathlib.format root tail = text.
Proof. unfold pathlib.format. intros -> Htext. by destruct text. Qed.

(** In a directory written in normal form, the file is the directory, a
    slash, and the name. *)
Lemma path_join_normal directory name :
  normal_path directory = true ->
  path_join directory name = directory +:+ "/" +:+ name.
Proof.
  unfold normal_path, path_join. intros Hnormal.
  assert (forall s, forallb pathlib.kept (pathlib.split "/" s) = true ->
            pathlib.tail s = pathlib.split "/" s /\ s <> "" /\
            (forall s', s <> String "/" s')) as Hrelative.
  { intros s Hs. split; [by apply forallb_filter_id|].
    destruct s as [|a s]; [done|]. split; [done|]. intros s' [= -> ->]. done. }
  assert (forall s, s <> "" -> s +:+ "/" +:+ name <> "") as Hfull
    by (by intros [|a s]).
  destruct directory as [|a rest]; [done|].
  destruct (Ascii.eqb_spec a "/") as [->|Ha].
  - destruct (Hrelative rest Hnormal) as (Htail & Hne & Hslash).
    assert (pathlib.root (String "/" rest) = "/") as ->.
    { destruct rest as [|b rest]; [done|].
      destruct (Ascii.eqb_spec b "/") as [->|Hb]; [by destruct (Hslash rest)|].
      simpl. destruct b as [[] [] [] [] [] [] [] []]; try done. }
    assert (pathlib.tail (String "/" rest) = pathlib.split "/" rest) as ->.
    { unfold pathlib.tail in *. simpl. exact Htail. }
    apply format_text; [|done].
    rewrite join_snoc by apply split_not_nil. by rewrite join_split.
  - assert (forallb pathlib.kept (pathlib.split "/" (String a rest)) = true) as Hn.
    { destruct a as [[] [] [] [] [] [] [] []]; try done. }
    destruct (Hrelative _ Hn) as (Htail & Hne & Hslash).
    assert (pathlib.root (String a rest) = "") as ->.
    { destruct a as [[] [] [] [] [] [] [] []]; try done. }
    rewrite Htail. apply format_text; [|done].
    rewrite join_snoc by apply split_not_nil. by rewrite join_split.
Qed.

Lemma contains_app_r c pre s :
  PyStr.contains c (pre +:+ String c s) = true.
Proof.
  induction pre as [|a pre IH]; simpl.
  - by rewrite Ascii.eqb_refl.
  - by rewrite IH, orb_true_r.
Qed.

Lemma after_last_app c pre name :
  PyStr.contains c name = false ->
  PyStr.after_last c (pre +:+ String c name) = name.
Proof.
  intros Hname. induction pre as [|a pre IH]; simpl.
  - by rewrite Hname, Ascii.eqb_refl.
  - by rewrite contains_app_r.
Qed.

Lemma after_last_none c name :
  PyStr.contains c name = false -> PyStr.after_last c name = name.
Proof.
  destruct name as [|a name]; simpl; [done|].
  intros [Ha Hname]%orb_false_iff. by rewrite Hname, Ha.
Qed.

(** Whatever the directory, the last component of the path of a file is the
    name of the file. *)
Lemma path_join_name directory name :
  name <> "" -> PyStr.contains "/" name = false ->
  PyStr.after_last "/" (path_join directory name) = name.
Proof.
  intros Hne Hname. unfold path_join.
  assert (forall s, s +:+ name <> "") as Hfull by (intros [|a s]; by destruct name).
  destruct (pathlib.tail directory) as [|part parts] eqn:Htail.
  - rewrite (format_text _ _ (pathlib.root directory +:+ name)); [|done|done].
    unfold pathlib.root.
    repeat case_match; simplify_eq.
    all: try exact (after_last_none "/" name Hname).
    all: try exact (after_last_app "/" "" name Hname).
    all: exact (after_last_app "/" "/" name Hname).
  - rewrite (format_text _ _
               ((pathlib.root directory +:+ pathlib.join "/" (part :: parts))
                  +:+ String "/" name)).
    + by apply after_last_app.
    + rewrite join_snoc by done. by rewrite !append_assoc.
    + by destruct (pathlib.root directory +:+ pathlib.join "/" (part :: parts)).
Qed.

Lemma pretty_go_digits x s :
  PyStr.contains "/" s = false -> PyStr.contains "/" (pretty_N_go x s) = false.
Proof.
  revert s. induction (N.lt_wf_0 x) as [x _ IH]; intros s Hs.
  assert (x = 0 \/ 0 < x)%N as [->|Hx] by lia.
  - by rewrite pretty_N_go_0.
  - rewrite pretty_N_go_step by done. apply IH.
    { by apply N.div_lt. }
    simpl. rewrite Hs. unfold pretty_N_char. by repeat case_match.
Qed.

Lemma page_name_plain (n : nat) :
  let name := "page_" +:+ pretty n +:+ ".png" in
  name <> "" /\ PyStr.contains "/" name = false.
Proof.
  split; [done|].
  assert (forall s t, PyStr.contains "/" s = false -> PyStr.contains "/" t = false ->
            PyStr.contains "/" (s +:+ t) = false) as Happ.
  { intros s t Hs Ht. induction s as [|a s IH]; simpl in *; [done|].
    apply orb_false_iff in Hs as [-> Hs]. by rewrite IH. }
  apply (Happ "page_"); [done|]. apply Happ; [|done].
  unfold pretty, pretty_nat, pretty, pretty_N.
  destruct (decide _); [done|]. by apply pretty_go_digits.
Qed.

(** The file of a page: its name is [page_] and the number of the page,
    counted from one; it lies in the output directory. *)
Lemma page_path_name output_dir i :
  let name := "page_" +:+ pretty (i + 1)%nat +:+ ".png" in
  PyStr.after_last "/" (page_path output_dir i) = name /\
  (normal_path output_dir = true -> page_path output_dir i = output_dir +:+ "/" +:+ name).
Proof.
  intros name. destruct (page_name_plain (i + 1)) as [Hne Hplain]. split.
  - by apply path_join_name.
  - apply path_join_normal.
Qed.

(** ** Invalid URLs and the per-call mode *)

Lemma create_blank_image_run env path width height w :
  _create_blank_image env path width height w =
  if raises env (length (trace w)) then (Raise, log (BlankImage path width height) w)
  else (Ret tt, write_file path (SolidImage width height "white")
                  (log (BlankImage path width height) w)).
Proof.
  unfold _create_blank_image, bind, call, save.
  by destruct (raises env (length (trace w))).
Qed.

(** C4 (as the code has it): for a text the validator rejects, [capture]
    makes one call, the saving of a solid white 800 by 600 image at the
    requested path, and does not touch the browser.  When the save returns,
    the file holds the image and the result is false; when the save raises,
    the exception leaves [capture] and the disk is as it was. *)
Theorem capture_invalid_url lib env cfg fuel url output_path auto_adjust w :
  _is_valid_url lib url = false ->
  let path := default ("screenshot_" +:+ now env +:+ ".png") output_path in
  let run := capture lib env cfg fuel url output_path auto_adjust w in
  trace run.2 = trace w ++ [BlankImage path 800 600] /\
  is_open run.2 = is_open w /\
  if raises env (length (trace w))
  then run.1 = Raise /\ files run.2 = files w
  else run.1 = Ret false /\
       files run.2 = <[path := SolidImage 800 600 "white"]> (files w).
Proof.
  intros Hinvalid path run. subst run. unfold capture. rewrite Hinvalid. cbn [negb].
  fold path. unfold bind. rewrite create_blank_image_run.
  by destruct (raises env (length (trace w))).
Qed.

Lemma capture_invalid_url_witness :
  let env := steady_page 1280 2500 1000 0 never in
  let run := capture lenient_checks env ScreenShotConfig_default 0 "example.com"
               (Some "shot.png") None new_instance in
  _is_valid_url lenient_checks "example.com" = false /\
  trace run.2 = [BlankImage "shot.png" 800 600] /\
  run.1 = Ret false /\
  files run.2 = {[ "shot.png" := SolidImage 800 600 "white" ]}.
Proof.
  intros env run.
  assert (_is_valid_url lenient_checks "example.com" = false) as Hinvalid
    by reflexivity.
  destruct (capture_invalid_url lenient_checks env ScreenShotConfig_default 0
              "example.com" (Some "shot.png") None new_instance Hinvalid)
    as (Htrace & _ & Hret & Hfiles).
  split; [exact Hinvalid|]. split; [exact Htrace|]. split; [exact Hret|exact Hfiles].
Defined.

(** C4, the counterexample: when the image cannot be saved, as at a path
    whose extension names no image format, the exception of the save reaches
    the caller of [capture]: nothing is returned and there is no file. *)
Lemma capture_invalid_url_save_raises :
  let env := steady_page 1280 2500 1000 0 (only 0) in
  let run := capture lenient_checks env ScreenShotConfig_default 0 "example.com"
               (Some "shot") None new_instance in
  _is_valid_url lenient_checks "example.com" = false /\
  run.1 = Raise /\
  files run.2 !! "shot" = None.
Proof. repeat split. Qed.

(** C7: the mode of a call is its [auto_adjust] argument when there is one,
    whatever the instance is configured with; a call with the argument
    behaves as a call without it on an instance configured with that mode. *)
Theorem capture_mode_per_call lib env cfg fuel url output_path configured b w :
  capture lib env (with_auto_adjust configured cfg) fuel url output_path (Some b) w =
  capture lib env (with_auto_adjust b cfg) fuel url output_path None w.
Proof. reflexivity. Qed.

(** ** Runs continue their world *)

Lemma replay_app env k evs1 evs2 fs :
  replay env k (evs1 ++ evs2) fs =
  replay env (k + length evs1) evs2 (replay env k evs1 fs).
Proof.
  revert k fs. induction evs1 as [|e evs1 IH]; intros k fs; simpl.
  - by rewrite Nat.add_0_r.
  - rewrite IH. f_equal. lia.
Qed.

Lemma replay_plain env k evs fs :
  Forall (fun e => writes e = false) evs -> replay env k evs fs = fs.
Proof.
  intros H. revert k. induction H as [|e evs He _ IH]; intros k; simpl; [done|].
  replace (replay1 env k e fs) with fs by (by destruct e). apply IH.
Qed.

Section Continuation.

Variable env : Env.

Lemma ext_refl Q w : ext env Q w w.
Proof.
  exists []. rewrite app_nil_r. repeat split. intros i e Hi. by rewrite lookup_nil in Hi.
Qed.

Lemma ext_trans Q w1 w2 w3 : ext env Q w1 w2 -> ext env Q w2 w3 -> ext env Q w1 w3.
Proof.
  intros (n1 & Ht1 & Hf1 & HQ1) (n2 & Ht2 & Hf2 & HQ2). exists (n1 ++ n2).
  rewrite Ht2, Ht1, Hf2, Hf1, Ht1, replay_app, length_app, app_assoc.
  repeat split. intros i e Hi. apply lookup_app_Some in Hi as [Hi | [Hge Hi]].
  - by apply HQ1.
  - apply HQ2 in Hi. rewrite Ht1, length_app in Hi.
    replace (length (trace w1) + i)%nat
      with (length (trace w1) + length n1 + (i - length n1))%nat by lia. done.
Qed.

Lemma ext_weaken (Q Q' : nat -> Event -> Prop) w w' :
  (forall k e, Q k e -> Q' k e) -> ext env Q w w' -> ext env Q' w w'.
Proof. intros HQ (n & Ht & Hf & Hn). exists n. eauto. Qed.

Lemma ext_log Q ev w :
  writes ev = false -> Q (length (trace w)) ev -> ext env Q w (log ev w).
Proof.
  intros Hw HQ. exists [ev]. simpl. repeat split.
  - by destruct ev.
  - intros [|i] e [=]; subst. by rewrite Nat.add_0_r.
Qed.

Lemma ext_set_is_open Q b w : ext env Q w (set_is_open b w).
Proof.
  exists []. simpl. rewrite app_nil_r. repeat split. intros i e Hi. by rewrite lookup_nil in Hi.
Qed.

Lemma ext_length Q w w' : ext env Q w w' -> (length (trace w) <= length (trace w'))%nat.
Proof. intros (n & -> & _). rewrite length_app. lia. Qed.

Lemma ext_new_events Q w w' :
  ext env Q w w' -> trace w' = trace w ++ new_events w w'.
Proof.
  intros (n & Ht & _). unfold new_events. by rewrite Ht, drop_app_length.
Qed.



Section Rules.

Variables Qa Qn : nat -> Event -> Prop.

Lemma run_ok_ret {A} (a : A) : run_ok env Qa Qn (ret a).
Proof. intros w. simpl. split; [|intros _]; apply ext_refl. Qed.

Lemma run_ok_raise {A} : run_ok env Qa Qn (@raise A).
Proof. intros w. simpl. split; [|intros _]; apply ext_refl. Qed.

Lemma run_ok_bind {A B} (m : M A) (f : A -> M B) :
  run_ok env Qa Qn m -> (forall a, run_ok env Qa Qn (f a)) ->
  run_ok env Qa Qn (bind m f).
Proof.
  intros Hm Hf w. unfold bind. specialize (Hm w).
  destruct (m w) as [[a| |] w1]; simpl in *; [|exact Hm|exact Hm].
  specialize (Hf a w1). destruct Hm as [Ha Hn], Hf as [Ha' Hn']. split.
  - by eapply ext_trans.
  - intros Hr. eapply ext_trans; [by apply Hn | by apply Hn'].
Qed.

Lemma run_ok_call ev :
  writes ev = false ->
  (forall k, Qa k ev) -> (forall k, raises env k = false -> Qn k ev) ->
  run_ok env Qa Qn (call env ev).
Proof.
  intros Hw Ha Hn w. unfold call.
  destruct (raises env (length (trace w))) eqn:Hr; simpl; split; try done.
  - by apply ext_log.
  - by apply ext_log.
  - intros _. apply ext_log; auto.
Qed.

Lemma run_ok_perform ev :
  writes ev = false -> (forall k, Qa k ev) -> (forall k, Qn k ev) ->
  run_ok env Qa Qn (perform ev).
Proof. intros Hw Ha Hn w. simpl. split; [|intros _]; by apply ext_log. Qed.

Lemma run_ok_get_is_open : run_ok env Qa Qn get_is_open.
Proof. intros w. simpl. split; [|intros _]; apply ext_refl. Qed.

Lemma run_ok_put_is_open b : run_ok env Qa Qn (put_is_open b).
Proof. intros w. simpl. split; [|intros _]; apply ext_set_is_open. Qed.

Lemma run_ok_floordiv a b : run_ok env Qa Qn (floordiv a b).
Proof. unfold floordiv. destruct (Z.eqb b 0); [apply run_ok_raise | apply run_ok_ret]. Qed.

Lemma run_ok_when c m : run_ok env Qa Qn m -> run_ok env Qa Qn (when c m).
Proof. destruct c; simpl; [done|]. intros _. apply run_ok_ret. Qed.

Lemma run_ok_for {A} (l : list A) body :
  (forall x, run_ok env Qa Qn (body x)) -> run_ok env Qa Qn (for_ l body).
Proof.
  intros Hb. induction l as [|x l IH]; simpl; [apply run_ok_ret|].
  apply run_ok_bind; auto.
Qed.

Lemma run_ok_while {S} fuel cond body (s : S) :
  (forall s, run_ok env Qa Qn (body s)) -> run_ok env Qa Qn (while_ fuel cond body s).
Proof.
  intros Hb. revert s. induction fuel as [|fuel IH]; intros s; simpl;
    destruct (cond s); try apply run_ok_ret.
  - intros w. simpl. split; [|intros _]; apply ext_refl.
  - apply run_ok_bind; auto.
Qed.

(** The events of a block whose exception is caught are part of runs that
    return: they must be in [Qn] whatever the block does. *)
Lemma run_ok_try_except {A} (m handler : M A) :
  run_ok env (fun k e => Qa k e /\ Qn k e) Qn m ->
  run_ok env Qa Qn handler ->
  run_ok env Qa Qn (try_except m handler).
Proof.
  intros Hm Hh w. unfold try_except. specialize (Hm w).
  destruct (m w) as [[a| |] w1]; simpl in *; destruct Hm as [Ha Hn].
  - split; [|done]. eapply ext_weaken; [|done]. by intros k e [? ?].
  - specialize (Hh w1) as [Ha' Hn']. split.
    + eapply ext_trans; [|done]. eapply ext_weaken; [|done]. by intros k e [? ?].
    + intros Hr. eapply ext_trans; [|by apply Hn'].
      eapply ext_weaken; [|done]. by intros k e [? ?].
  - split; [|done]. eapply ext_weaken; [|done]. by intros k e [? ?].
Qed.

Lemma run_ok_page_screenshot path full_page :
  (forall k, Qa k (Screenshot path full_page)) ->
  (forall k, raises env k = false -> Qn k (Screenshot path full_page)) ->
  run_ok env Qa Qn (page_screenshot env path full_page).
Proof.
  intros Ha Hn w. unfold page_screenshot, bind, call, save.
  destruct (raises env (length (trace w))) eqn:Hr; simpl.
  - split; [|done]. exists [Screenshot path full_page]. simpl. rewrite Hr.
    repeat split. intros [|i] e [=]; subst. apply Ha.
  - assert (forall Q : nat -> Event -> Prop, Q (length (trace w)) (Screenshot path full_page) ->
      ext env Q w (write_file path (PagePNG (length (trace w)) full_page)
                     (log (Screenshot path full_page) w))) as Hext.
    { intros Q HQ. exists [Screenshot path full_page]. simpl. rewrite Hr.
      repeat split. intros [|i] e [=]; subst. by rewrite Nat.add_0_r. }
    split; [|intros _]; apply Hext; auto.
Qed.

Lemma run_ok_create_blank_image path width height :
  (forall k, Qa k (BlankImage path width height)) ->
  (forall k, raises env k = false -> Qn k (BlankImage path width height)) ->
  run_ok env Qa Qn (_create_blank_image env path width height).
Proof.
  intros Ha Hn w. rewrite create_blank_image_run.
  destruct (raises env (length (trace w))) eqn:Hr; simpl.
  - split; [|done]. exists [BlankImage path width height]. simpl. rewrite Hr.
    repeat split. intros [|i] e [=]; subst. apply Ha.
  - assert (forall Q : nat -> Event -> Prop,
              Q (length (trace w)) (BlankImage path width height) ->
              ext env Q w (write_file path (SolidImage width height "white")
                             (log (BlankImage path width height) w))) as Hext.
    { intros Q HQ. exists [BlankImage path width height]. simpl. rewrite Hr.
      repeat split. intros [|i] e [=]; subst. by rewrite Nat.add_0_r. }
    split; [|intros _]; apply Hext; auto.
Qed.

End Rules.

Lemma run_ok_attempt {A} Qa Qn (m : M A) :
  run_ok env (fun k e => Qa k e /\ Qn k e) Qn m ->
  run_ok env Qa Qn (attempt m).
Proof.
  intros Hm. unfold attempt. apply run_ok_try_except; [|apply run_ok_ret].
  apply run_ok_bind; [done|]. intros a. apply run_ok_ret.
Qed.

End Continuation.

(** ** What the stages of a capture call *)

Lemma popup_event_plain e : popup_event e = true -> writes e = false.
Proof. by destruct e. Qed.

Lemma popup_event_not_stage e : popup_event e = true -> stage_call e = false.
Proof. destruct e; try done. simpl. by intros ->. Qed.

Section Popups.

Variable env : Env.
Variables Qa Qn : nat -> Event -> Prop.
Hypothesis Qa_popup : forall k e, popup_event e = true -> Qa k e.
Hypothesis Qn_popup : forall k e, popup_event e = true -> Qn k e.

Lemma run_ok_popup_call ev :
  popup_event ev = true -> run_ok env Qa Qn (call env ev).
Proof. intros Hp. apply run_ok_call; auto using popup_event_plain. Qed.

Lemma run_ok_click_if_visible selector element :
  run_ok env Qa Qn (click_if_visible env selector element).
Proof.
  unfold click_if_visible. apply run_ok_bind; [by apply run_ok_popup_call|].
  intros k. apply run_ok_when.
  repeat (apply run_ok_bind; [by apply run_ok_popup_call | intros _]).
  apply run_ok_ret.
Qed.

Lemma run_ok_close_matches selector : run_ok env Qa Qn (close_matches env selector).
Proof.
  unfold close_matches. apply run_ok_bind; [by apply run_ok_popup_call|].
  intros k. apply run_ok_for. intros element. apply run_ok_click_if_visible.
Qed.

End Popups.

Lemma run_ok_dismiss_popups env (Qa Qn : nat -> Event -> Prop) :
  (forall k e, popup_event e = true -> Qa k e) ->
  (forall k e, popup_event e = true -> Qn k e) ->
  run_ok env Qa Qn (_dismiss_popups env).
Proof.
  intros Ha Hn. unfold _dismiss_popups.
  apply run_ok_try_except; [|apply run_ok_ret].
  apply run_ok_bind; [apply run_ok_popup_call; auto|]. intros _.
  apply run_ok_for. intros selector.
  apply run_ok_try_except; [|apply run_ok_ret].
  apply run_ok_close_matches; auto.
Qed.

Section Stages.

Variable env : Env.
Variables Qa Qn : nat -> Event -> Prop.
Hypothesis Qa_plain : forall k e, writes e = false -> Qa k e.
Hypothesis Qn_plain : forall k e, writes e = false -> raises env k = false -> Qn k e.
Hypothesis Qn_popup : forall k e, popup_event e = true -> Qn k e.

Local Set Default Proof Using "Qa_plain Qn_plain Qn_popup".

Lemma run_ok_stage_call ev : writes ev = false -> run_ok env Qa Qn (call env ev).
Proof. intros Hw. apply run_ok_call; auto. Qed.

Ltac stage :=
  repeat lazymatch goal with
    | |- run_ok _ _ _ (ret _) => apply run_ok_ret
    | |- run_ok _ _ _ get_is_open => apply run_ok_get_is_open
    | |- run_ok _ _ _ (put_is_open _) => apply run_ok_put_is_open
    | |- run_ok _ _ _ (floordiv _ _) => apply run_ok_floordiv
    | |- run_ok _ _ _ (call _ _) => apply run_ok_stage_call; reflexivity
    | |- run_ok _ _ _ (when _ _) => apply run_ok_when
    | |- run_ok _ _ _ (bind _ _) => apply run_ok_bind; [|intros ?]
    end.

Lemma run_ok_open cfg : run_ok env Qa Qn (open env cfg).
Proof. unfold open. stage. Qed.

Lemma run_ok_setup_page cfg auto_adjust :
  run_ok env Qa Qn (_setup_page env cfg auto_adjust).
Proof. unfold _setup_page. stage. apply run_ok_open. Qed.

Lemma run_ok_adjust_viewport_to_page cfg :
  run_ok env Qa Qn (_adjust_viewport_to_page env cfg).
Proof. unfold _adjust_viewport_to_page. stage. Qed.

Lemma run_ok_scroll_loop cfg fuel viewport_height s :
  run_ok env Qa Qn (scroll_loop env cfg fuel viewport_height s).
Proof. unfold scroll_loop. apply run_ok_while. intros s'. unfold scroll_step. stage. Qed.

Lemma run_ok_scroll_and_load cfg fuel : run_ok env Qa Qn (_scroll_and_load env cfg fuel).
Proof. unfold _scroll_and_load. stage. apply run_ok_scroll_loop. Qed.


Lemma run_ok_capture_steps cfg fuel url path use_auto_adjust :
  (forall k, Qa k (Screenshot path (negb use_auto_adjust))) ->
  (forall k, raises env k = false -> Qn k (Screenshot path (negb use_auto_adjust))) ->
  run_ok env Qa Qn (capture_steps env cfg fuel url path use_auto_adjust).
Proof.
  intros Ha Hn. unfold capture_steps. stage.
  - destruct use_auto_adjust;
      [apply run_ok_adjust_viewport_to_page | apply run_ok_scroll_and_load].
  - destruct use_auto_adjust; apply run_ok_page_screenshot; auto.
Qed.



End Stages.

(** ** The shape of a run of the public operations *)

Lemma attempt_run {A} (m : M A) w :
  attempt m w =
  match m w with
  | (Ret a, w1) => (Ret (Some a), w1)
  | (Raise, w1) => (Ret None, w1)
  | (Diverge, w1) => (Diverge, w1)
  end.
Proof. unfold attempt, try_except, bind. by destruct (m w) as [[a| |] w1]. Qed.

Lemma capture_valid_run lib env cfg fuel url output_path auto_adjust w :
  _is_valid_url lib url = true ->
  let path := default ("screenshot_" +:+ now env +:+ ".png") output_path in
  let use := default (viewport_auto_adjust cfg) auto_adjust in
  let blank w := write_file path (SolidImage 800 600 "white") (log (BlankImage path 800 600) w) in
  capture lib env cfg fuel url output_path auto_adjust w =
  match _setup_page env cfg use w with
  | (Ret _, w1) =>
      match capture_steps env cfg fuel url path use w1 with
      | (Ret _, w2) => (Ret true, log PageClose w2)
      | (Raise, w2) =>
          if raises env (length (trace w2))
          then (Raise, log PageClose (log (BlankImage path 800 600) w2))
          else (Ret false, log PageClose (blank w2))
      | (Diverge, w2) => (Diverge, w2)
      end
  | (Raise, w1) =>
      if raises env (length (trace w1)) then (Raise, log (BlankImage path 800 600) w1)
      else (Ret false, blank w1)
  | (Diverge, w1) => (Diverge, w1)
  end.
Proof.
  intros Hvalid path use blank. unfold capture. rewrite Hvalid. cbn [negb].
  fold path use. unfold bind at 1. rewrite attempt_run.
  destruct (_setup_page env cfg use w) as [[[]| |] w1]; [|..|reflexivity].
  - unfold bind at 1. rewrite attempt_run.
    destruct (capture_steps env cfg fuel url path use w1) as [[b| |] w2];
      [reflexivity| |reflexivity].
    unfold bind at 1. rewrite attempt_run, create_blank_image_run.
    by destruct (raises env (length (trace w2))).
  - unfold bind. rewrite create_blank_image_run.
    by destruct (raises env (length (trace w1))).
Qed.

Lemma capture_multiple_pages_run lib env cfg fuel url output_dir w :
  let dir := default ("screenshots_" +:+ now env) output_dir in
  let w0 := log (Mkdir dir) w in
  let page_1 := path_join dir "page_1.png" in
  capture_multiple_pages lib env cfg fuel url output_dir w =
  if raises env (length (trace w)) then (Ret false, w0)
  else if negb (_is_valid_url lib url) then
    if raises env (length (trace w0)) then (Raise, log (BlankImage page_1 800 600) w0)
    else (Ret false, write_file page_1 (SolidImage 800 600 "white")
                       (log (BlankImage page_1 800 600) w0))
  else
    match _setup_page env cfg false w0 with
    | (Ret _, w1) =>
        match (stabilize env cfg fuel url ;; capture_pages env cfg dir) w1 with
        | (Ret b, w2) => (Ret b, log PageClose w2)
        | (Raise, w2) => (Ret false, log PageClose w2)
        | (Diverge, w2) => (Diverge, w2)
        end
    | (Raise, w1) => (Ret false, w1)
    | (Diverge, w1) => (Diverge, w1)
    end.
Proof.
  intros dir w0 page_1. unfold capture_multiple_pages. fold dir.
  unfold bind at 1. rewrite attempt_run. unfold call at 1.
  destruct (raises env (length (trace w))); [reflexivity|]. fold w0. cbv iota beta.
  destruct (_is_valid_url lib url); cbn [negb].
  2:{ fold page_1. unfold bind. rewrite create_blank_image_run.
      by destruct (raises env (length (trace w0))). }
  unfold bind at 1. rewrite attempt_run.
  destruct (_setup_page env cfg false w0) as [[[]| |] w1]; try reflexivity.
  unfold bind at 1. rewrite attempt_run.
  by destruct ((stabilize env cfg fuel url ;; capture_pages env cfg dir) w1) as [[b| |] w2].
Qed.

Lemma clean_not_faulted env w w' : ext env (clean env) w w' -> ~ faulted env w w'.
Proof.
  intros (new & Ht & _ & Hnew) (k & e & Hk & Hge & Hstage & Hraise).
  rewrite Ht in Hk. apply lookup_app_Some in Hk as [Hk | [_ Hk]].
  - apply lookup_lt_Some in Hk. lia.
  - apply Hnew in Hk. replace (length (trace w) + (k - length (trace w)))%nat with k in Hk by lia.
    rewrite (Hk Hstage) in Hraise. discriminate.
Qed.

Lemma ext_elem_of env Q w w' e :
  ext env Q w w' -> e ∈ new_events w w' -> exists k, Q k e.
Proof.
  intros (new & Ht & _ & Hnew). unfold new_events. rewrite Ht, drop_app_length.
  intros [i Hi]%list_elem_of_lookup. eauto.
Qed.


Lemma clean_plain env k e : writes e = false -> raises env k = false -> clean env k e.
Proof. by intros _ Hr _. Qed.

Lemma clean_popup env k e : popup_event e = true -> clean env k e.
Proof. intros Hp Hs. by rewrite (popup_event_not_stage e Hp) in Hs. Qed.

Lemma clean_screenshot env k path full_page :
  raises env k = false -> clean env k (Screenshot path full_page).
Proof. by intros Hr _. Qed.

(** The events that [capture] may add for an output path and a mode. *)
Lemma run_ok_capture lib env cfg fuel url output_path auto_adjust
    (Qa : nat -> Event -> Prop) :
  let path := default ("screenshot_" +:+ now env +:+ ".png") output_path in
  let use := default (viewport_auto_adjust cfg) auto_adjust in
  (forall k e, writes e = false -> Qa k e) ->
  (forall k, Qa k (Screenshot path (negb use))) ->
  (forall k, Qa k (BlankImage path 800 600)) ->
  run_ok env Qa (fun _ _ => True) (capture lib env cfg fuel url output_path auto_adjust).
Proof.
  intros path use Hplain Hshot Hblank. unfold capture. fold path use.
  assert (run_ok env Qa (fun _ _ => True)
            (_create_blank_image env path 800 600 ;; ret false)) as Hfallback.
  { apply run_ok_bind; [apply run_ok_create_blank_image; auto | intros _; apply run_ok_ret]. }
  destruct (negb (_is_valid_url lib url)); [done|].
  apply run_ok_bind.
  { apply run_ok_attempt, run_ok_setup_page; intros; auto. }
  intros [_|]; [|done]. apply run_ok_bind.
  { apply run_ok_attempt, run_ok_capture_steps; intros; auto. }
  intros [_|].
  - apply run_ok_bind; [apply run_ok_perform; auto | intros _; apply run_ok_ret].
  - apply run_ok_bind.
    { apply run_ok_attempt, run_ok_create_blank_image; auto. }
    intros saved.
    apply run_ok_bind; [apply run_ok_perform; auto | intros _].
    destruct saved; [apply run_ok_ret|apply run_ok_raise].
Qed.

Lemma new_events_app w w' l : trace w' = trace w ++ l -> new_events w w' = l.
Proof. intros Ht. unfold new_events. by rewrite Ht, drop_app_length. Qed.


Lemma ext_true env w w' : ext env (clean env) w w' -> ext env (fun _ _ => True) w w'.
Proof. by apply ext_weaken. Qed.

Lemma ext_log_close env w w1 :
  ext env (clean env) w w1 -> ext env (clean env) w (log PageClose w1).
Proof. intros H. eapply ext_trans; [done|]. by apply ext_log. Qed.

(** ** Runs that write nothing *)

Lemma plain_run_files {A} env (m : M A) w :
  run_ok env (fun _ e => writes e = false) (fun _ _ => True) m ->
  files (m w).2 = files w.
Proof.
  intros Hm. destruct (Hm w) as [(new & _ & -> & Hnew) _].
  apply replay_plain, Forall_lookup. intros i e Hi. by eapply Hnew.
Qed.

Lemma setup_page_files env cfg auto_adjust w :
  files (_setup_page env cfg auto_adjust w).2 = files w.
Proof. apply (plain_run_files env), run_ok_setup_page; auto. Qed.

Lemma prepare_files env cfg fuel (use : bool) w :
  files ((if use then _adjust_viewport_to_page env cfg
          else _scroll_and_load env cfg fuel) w).2 = files w.
Proof.
  apply (plain_run_files env). destruct use;
    [apply run_ok_adjust_viewport_to_page | apply run_ok_scroll_and_load]; auto.
Qed.

(** The steps of a capture that end in an exception have written nothing:
    the capture is their last call. *)
Lemma capture_steps_raise_files env cfg fuel url path use w w' :
  capture_steps env cfg fuel url path use w = (Raise, w') -> files w' = files w.
Proof.
  unfold capture_steps. rewrite bind_call. destruct (raises env _); [by intros [= <-]|].
  rewrite bind_call. destruct (raises env _); [by intros [= <-]|]. cbv beta.
  unfold bind at 1.
  pose proof (prepare_files env cfg fuel use
                (log WaitForLoadState (log (Goto url) w))) as Hfiles.
  destruct ((if use then _adjust_viewport_to_page env cfg
             else _scroll_and_load env cfg fuel)
              (log WaitForLoadState (log (Goto url) w))) as [[[]| |] w1];
    cbn [fst snd] in Hfiles; [|by intros [= <-]|done].
  repeat (rewrite bind_call; destruct (raises env _); [by intros [= <-]|]; cbv beta).
  assert (forall full_page w0,
            files w0 = files w ->
            bind (page_screenshot env path full_page) (fun _ => ret true) w0
              = (Raise, w') -> files w' = files w) as Hshot.
  { intros full_page w0 Hw0. unfold page_screenshot. rewrite bind_assoc, bind_call.
    destruct (raises env _); [by intros [= <-]|done]. }
  destruct use; by apply Hshot.
Qed.

(** ** Failures of a single capture *)




(** ** A stage call that raises ends the stages *)

Section Stopping.

Variable env : Env.

Lemma stops_quiet {A} (m : M A) : (forall w, trace (m w).2 = trace w) -> stops env m.
Proof.
  intros Hm w. rewrite Hm. split; [exists []; by rewrite app_nil_r|].
  intros k e Hk Hle. apply lookup_lt_Some in Hk. lia.
Qed.

Lemma stops_ret {A} (a : A) : stops env (ret a).
Proof. by apply stops_quiet. Qed.

Lemma stops_get_is_open : stops env get_is_open.
Proof. by apply stops_quiet. Qed.

Lemma stops_put_is_open b : stops env (put_is_open b).
Proof. by apply stops_quiet. Qed.

Lemma stops_floordiv a b : stops env (floordiv a b).
Proof. apply stops_quiet. intros w. unfold floordiv. by destruct (Z.eqb b 0). Qed.

Lemma stops_call ev : stops env (call env ev).
Proof.
  intros w. unfold call.
  destruct (raises env (length (trace w))) eqn:Hr; cbn [fst snd];
    (split; [by exists [ev]|]); intros k e Hk Hle Hs Hrk;
    assert (k = length (trace w)) as ->
      by (apply lookup_lt_Some in Hk; simpl in Hk; rewrite length_app in Hk;
          simpl in Hk; lia).
  - split; [done|]. simpl. rewrite length_app. simpl. lia.
  - congruence.
Qed.

Lemma stops_bind {A B} (m : M A) (f : A -> M B) :
  stops env m -> (forall a, stops env (f a)) -> stops env (bind m f).
Proof.
  intros Hm Hf w. unfold bind. destruct (Hm w) as [(n1 & Ht1) Hs1].
  destruct (m w) as [[a| |] w1]; cbn [fst snd] in *;
    [|split; [by exists n1|];
      intros k e Hk Hle Hs Hr; by destruct (Hs1 k e Hk Hle Hs Hr)..].
  destruct (Hf a w1) as [(n2 & Ht2) Hs2]. split.
  - exists (n1 ++ n2). by rewrite Ht2, Ht1, app_assoc.
  - intros k e Hk Hle Hs Hr.
    destruct (decide (k < length (trace w1))%nat) as [Hlt|Hge].
    + rewrite Ht2, lookup_app_l in Hk by done. by destruct (Hs1 k e Hk Hle Hs Hr).
    + apply (Hs2 k e); [done|lia|done..].
Qed.

Lemma stops_when c m : stops env m -> stops env (when c m).
Proof. destruct c; [done|]. intros _. apply stops_ret. Qed.

Lemma stops_for {A} (l : list A) body :
  (forall x, stops env (body x)) -> stops env (for_ l body).
Proof.
  intros Hb. induction l as [|x l IH]; simpl; [apply stops_ret|].
  apply stops_bind; auto.
Qed.

Lemma stops_while {S} fuel cond body (s : S) :
  (forall s, stops env (body s)) -> stops env (while_ fuel cond body s).
Proof.
  intros Hb. revert s. induction fuel as [|fuel IH]; intros s; simpl;
    destruct (cond s); try apply stops_ret.
  - by apply stops_quiet.
  - apply stops_bind; auto.
Qed.

Lemma stops_page_screenshot path full_page :
  stops env (page_screenshot env path full_page).
Proof.
  unfold page_screenshot. apply stops_bind; [apply stops_call|].
  intros k. by apply stops_quiet.
Qed.

(** Popup dismissal makes no stage call. *)
Lemma stops_dismiss_popups : stops env (_dismiss_popups env).
Proof.
  intros w.
  destruct (run_ok_dismiss_popups env (fun _ e => popup_event e = true)
              (fun _ _ => True) ltac:(done) ltac:(done) w)
    as [(new & Ht & _ & Hnew) _].
  split; [by exists new|]. intros k e Hk Hle Hs Hr. exfalso.
  rewrite Ht, lookup_app_r in Hk by done.
  apply Hnew, popup_event_not_stage in Hk. congruence.
Qed.

End Stopping.

Ltac stopping :=
  repeat lazymatch goal with
    | |- stops _ (let _ := _ in _) => cbv zeta
    | |- stops _ (ret _) => apply stops_ret
    | |- stops _ get_is_open => apply stops_get_is_open
    | |- stops _ (put_is_open _) => apply stops_put_is_open
    | |- stops _ (floordiv _ _) => apply stops_floordiv
    | |- stops _ (call _ _) => apply stops_call
    | |- stops _ (page_screenshot _ _ _) => apply stops_page_screenshot
    | |- stops _ (_dismiss_popups _) => apply stops_dismiss_popups
    | |- stops _ (when _ _) => apply stops_when
    | |- stops _ (for_ _ _) => apply stops_for; intros ?
    | |- stops _ (while_ _ _ _ _) => apply stops_while; intros ?
    | |- stops _ (bind _ _) => apply stops_bind; [|intros ?]
    | |- stops _ (if ?c then _ else _) => destruct c
    | |- stops _ (match ?x with _ => _ end) => destruct x
    | |- stops _ (open _ _) => unfold open
    | |- stops _ (_setup_page _ _ _) => unfold _setup_page
    | |- stops _ (_scroll_and_load _ _ _) => unfold _scroll_and_load
    | |- stops _ (scroll_loop _ _ _ _ _) => unfold scroll_loop
    | |- stops _ (scroll_step _ _ _ _) => unfold scroll_step
    | |- stops _ (stabilize _ _ _ _) => unfold stabilize
    | |- stops _ (capture_page _ _ _ _ _) => unfold capture_page
    | |- stops _ (capture_pages _ _ _) => unfold capture_pages
    end.

Lemma stops_setup_page env cfg auto_adjust : stops env (_setup_page env cfg auto_adjust).
Proof. stopping. Qed.



(** ** Failures of a multi-page capture *)






(** ** Runs that return *)

Lemma faulted_later env w w1 w2 :
  (length (trace w) <= length (trace w1))%nat -> faulted env w1 w2 -> faulted env w w2.
Proof. intros Hle (k & e & Hk & Hge & Hs & Hr). exists k, e. repeat split; auto. lia. Qed.

Lemma faulted_ext env Q w w1 w2 :
  ext env Q w1 w2 -> faulted env w w1 -> faulted env w w2.
Proof.
  intros (new & Ht & _) (k & e & Hk & Hge & Hs & Hr). exists k, e. repeat split; auto.
  rewrite Ht. by apply lookup_app_l_Some.
Qed.

Lemma faulted_app env w w1 w2 new :
  trace w2 = trace w1 ++ new -> faulted env w w1 -> faulted env w w2.
Proof.
  intros Ht (k & e & Hk & Hge & Hs & Hr). exists k, e. repeat split; auto.
  rewrite Ht. by apply lookup_app_l_Some.
Qed.

Section Landing.

Variable env : Env.

Lemma settles_ret {A} (a : A) : settles (ret a).
Proof. by intros w. Qed.

Lemma settles_call ev : settles (call env ev).
Proof.
  intros w. unfold call. destruct (raises env (length (trace w))); simpl;
    rewrite length_app; split; (done || lia).
Qed.

Lemma settles_bind {A B} (m : M A) (f : A -> M B) :
  settles m -> (forall a, settles (f a)) -> settles (bind m f).
Proof.
  intros Hm Hf w. unfold bind. specialize (Hm w).
  destruct (m w) as [[a| |] w1]; simpl in *; [|by destruct Hm..].
  destruct Hm as [_ Hle], (Hf a w1) as [Hd Hle']. split; [done|lia].
Qed.

Lemma settles_when c m : settles m -> settles (when c m).
Proof. destruct c; [done|]. intros _. apply settles_ret. Qed.

Lemma settles_for {A} (l : list A) body :
  (forall x, settles (body x)) -> settles (for_ l body).
Proof.
  intros Hb. induction l as [|x l IH]; simpl; [apply settles_ret|].
  apply settles_bind; auto.
Qed.

Lemma settles_try_except {A} (m handler : M A) :
  settles m -> settles handler -> settles (try_except m handler).
Proof.
  intros Hm Hh w. unfold try_except. specialize (Hm w).
  destruct (m w) as [[a| |] w1]; simpl in *; [exact Hm| |exact Hm].
  destruct Hm as [_ Hle], (Hh w1) as [Hd Hle']. split; [done|lia].
Qed.

Lemma settles_dismiss_popups : settles (_dismiss_popups env).
Proof.
  unfold _dismiss_popups, close_matches, click_if_visible.
  repeat first
    [ apply settles_ret | apply settles_call | apply settles_when
    | apply settles_try_except | apply settles_for; intros ?
    | apply settles_bind; [|intros ?] ].
Qed.

Lemma dismiss_popups_returns w : (_dismiss_popups env w).1 = Ret tt.
Proof.
  destruct (settles_dismiss_popups w) as [Hd _]. revert Hd.
  unfold _dismiss_popups, try_except.
  match goal with |- context [match ?x with _ => _ end] =>
    destruct x as [[[]| |] w1] end; simpl; done.
Qed.

Lemma lands_settles {A} (m : M A) :
  settles m -> (forall w, raised (m w).1 = false) -> lands env m.
Proof.
  intros Hm Hr w. destruct (Hm w) as [Hd Hle]. repeat split; auto.
  rewrite Hr. done.
Qed.

Lemma lands_ret {A} (a : A) : lands env (ret a).
Proof. by intros w. Qed.

Lemma lands_call ev : stage_call ev = true -> lands env (call env ev).
Proof.
  intros Hs w. unfold call. destruct (raises env (length (trace w))) eqn:Hr; simpl;
    rewrite length_app; repeat split; try (done || lia).
  intros _. exists (length (trace w)), ev. repeat split; auto.
  simpl. by rewrite lookup_app_r, Nat.sub_diag.
Qed.

Lemma lands_bind_with {A B} (P : A -> Prop) (m : M A) (f : A -> M B) :
  lands env m -> (forall w a w', m w = (Ret a, w') -> P a) ->
  (forall a, P a -> lands env (f a)) -> lands env (bind m f).
Proof.
  intros Hm HP Hf w. unfold bind. specialize (Hm w). specialize (HP w).
  destruct (m w) as [[a| |] w1]; simpl in *; [|by destruct Hm as (? & ? & ?)..].
  destruct Hm as (_ & Hle & _), (Hf a (HP a w1 eq_refl) w1) as (Hd & Hle' & Hr').
  repeat split; [done|lia|]. intros Hr. eapply faulted_later; eauto.
Qed.

Lemma lands_bind {A B} (m : M A) (f : A -> M B) :
  lands env m -> (forall a, lands env (f a)) -> lands env (bind m f).
Proof. intros Hm Hf. apply (lands_bind_with (fun _ => True)); auto. Qed.

Lemma lands_when c m : lands env m -> lands env (when c m).
Proof. destruct c; [done|]. intros _. apply lands_ret. Qed.

Lemma lands_for {A} (l : list A) body :
  (forall x, lands env (body x)) -> lands env (for_ l body).
Proof.
  intros Hb. induction l as [|x l IH]; simpl; [apply lands_ret|].
  apply lands_bind; auto.
Qed.

Lemma lands_floordiv a b : b <> 0 -> lands env (floordiv a b).
Proof.
  intros Hb. unfold floordiv. destruct (Z.eqb_spec b 0); [done|]. apply lands_ret.
Qed.

Lemma lands_get_is_open : lands env get_is_open.
Proof. by intros w. Qed.

Lemma lands_put_is_open b : lands env (put_is_open b).
Proof. by intros w. Qed.

Lemma lands_page_screenshot path full_page :
  lands env (page_screenshot env path full_page).
Proof.
  unfold page_screenshot. apply lands_bind; [by apply lands_call|].
  intros k w. done.
Qed.

Lemma lands_dismiss_popups : lands env (_dismiss_popups env).
Proof.
  apply lands_settles; [apply settles_dismiss_popups|].
  intros w. by rewrite dismiss_popups_returns.
Qed.

End Landing.

Ltac landing :=
  repeat lazymatch goal with
    | |- lands _ (ret _) => apply lands_ret
    | |- lands _ get_is_open => apply lands_get_is_open
    | |- lands _ (put_is_open _) => apply lands_put_is_open
    | |- lands _ (call _ _) => apply lands_call; reflexivity
    | |- lands _ (page_screenshot _ _ _) => apply lands_page_screenshot
    | |- lands _ (_dismiss_popups _) => apply lands_dismiss_popups
    | |- lands _ (when _ _) => apply lands_when
    | |- lands _ (bind _ _) => apply lands_bind; [|intros ?]
    end.

Lemma lands_open env cfg : lands env (open env cfg).
Proof. unfold open. landing. Qed.

Lemma lands_setup_page env cfg auto_adjust : lands env (_setup_page env cfg auto_adjust).
Proof. unfold _setup_page. landing. apply lands_open. Qed.

Lemma lands_adjust_viewport_to_page env cfg : lands env (_adjust_viewport_to_page env cfg).
Proof. unfold _adjust_viewport_to_page. landing. Qed.

Lemma lands_capture_page env cfg output_dir viewport_height page_num :
  lands env (capture_page env cfg output_dir viewport_height page_num).
Proof. unfold capture_page. landing. Qed.

(** ** The scroll loop *)

Lemma scroll_step_run env cfg viewport_height s w :
  scroll_step env cfg viewport_height s w =
  let k := length (trace w) in
  if raises env k then (Raise, log (EvalScrollTo (s.1 + viewport_height)) w)
  else
    let w1 := log (EvalScrollTo (s.1 + viewport_height)) w in
    if raises env (S k) then (Raise, log (Sleep ScrollDelay (scroll_delay cfg)) w1)
    else
      let w2 := log (Sleep ScrollDelay (scroll_delay cfg)) w1 in
      if raises env (S (S k)) then (Raise, log EvalBodyScrollHeight w2)
      else (Ret (s.1 + viewport_height, body_scroll_height env (S (S k))),
            log EvalBodyScrollHeight w2).
Proof.
  unfold scroll_step. rewrite bind_call. cbv zeta.
  destruct (raises env (length (trace w))); [done|].
  rewrite bind_call. simpl. rewrite !length_app. simpl.
  replace (length (trace w) + 1)%nat with (S (length (trace w))) by lia.
  destruct (raises env (S (length (trace w)))); [done|].
  rewrite bind_call. simpl. rewrite !length_app. simpl.
  replace (length (trace w) + 1 + 1)%nat with (S (S (length (trace w)))) by lia.
  by destruct (raises env (S (S (length (trace w))))).
Qed.

Lemma lands_scroll_step env cfg viewport_height s :
  lands env (scroll_step env cfg viewport_height s).
Proof. unfold scroll_step. landing. Qed.

(** With a positive step and heights of at most [bound], the loop ends
    within the rounds that its offset needs to reach [bound]. *)
Lemma lands_scroll_loop env cfg viewport_height bound :
  0 < viewport_height -> (forall k, body_scroll_height env k <= bound) ->
  forall fuel s, s.2 <= bound -> (Z.to_nat (bound - s.1) <= fuel)%nat ->
    lands env (scroll_loop env cfg fuel viewport_height s).
Proof.
  intros Hvh Hbound. unfold scroll_loop.
  induction fuel as [|fuel IH]; intros [position total_height] Hth Hfuel; simpl in *.
  - destruct (Z.ltb_spec position total_height); [lia|]. apply lands_ret.
  - destruct (Z.ltb_spec position total_height); [|apply lands_ret].
    apply (lands_bind_with env
             (fun s' => s'.2 <= bound /\ s'.1 = position + viewport_height)).
    + apply lands_scroll_step.
    + intros w [p h] w'. rewrite scroll_step_run. cbv zeta.
      repeat (destruct (raises env _); [done|]). intros [= <- <- _]. simpl. auto.
    + intros [p h] [Hh Hp]. simpl in *. subst p. apply IH; simpl; [done|lia].
Qed.

(** What a loop that returns has done: [n] rounds, the first offset at which
    the height measured last was reached. *)
Lemma scroll_loop_ret env cfg viewport_height fuel s w s' w' :
  scroll_loop env cfg fuel viewport_height s w = (Ret s', w') ->
  exists n,
    (n <= fuel)%nat /\
    trace w' = trace w ++ scroll_rounds cfg (s.1) viewport_height n /\
    files w' = files w /\
    s' = (offset_after (s.1) viewport_height n, height_after env (length (trace w)) (s.2) n) /\
    s'.2 <= s'.1 /\
    forall i, (i < n)%nat ->
      offset_after (s.1) viewport_height i < height_after env (length (trace w)) (s.2) i.
Proof.
  unfold scroll_loop, offset_after.
  revert s w. induction fuel as [|fuel IH]; intros [position total_height] w; simpl.
  - destruct (Z.ltb_spec position total_height); [done|]. intros [= <- <-].
    exists O. simpl. rewrite app_nil_r, Z.add_0_r. repeat split; auto; lia.
  - destruct (Z.ltb_spec position total_height) as [Hlt|Hge].
    2:{ intros [= <- <-]. exists O. simpl. rewrite app_nil_r, Z.add_0_r.
        repeat split; auto; lia. }
    intros Hrun. apply bind_ret_inv in Hrun as ([p h] & w1 & Hstep & Hrest).
    rewrite scroll_step_run in Hstep. cbv zeta in Hstep.
    repeat (destruct (raises env _); [done|]). injection Hstep as <- <- <-.
    apply IH in Hrest as (n & Hn & Ht & Hf & Hs & Hexit & Hcont). clear IH.
    cbn [fst snd log trace files] in Ht, Hf, Hs, Hcont.
    rewrite !length_app in Hs, Hcont. cbn [length] in Hs, Hcont.
    assert (forall j, height_after env (length (trace w) + 1 + 1 + 1)
                        (body_scroll_height env (S (S (length (trace w))))) j =
                      height_after env (length (trace w)) total_height (S j)) as Hh.
    { intros [|j]; unfold height_after; f_equal; lia. }
    rewrite Hh in Hs. setoid_rewrite Hh in Hcont.
    exists (S n). cbn [fst snd scroll_rounds].
    split; [lia|]. split; [by rewrite Ht, <- !app_assoc|]. split; [done|].
    split; [rewrite Hs; f_equal; lia|]. split; [done|].
    intros [|i] Hi; [simpl; lia|]. specialize (Hcont i ltac:(lia)). lia.
Qed.

Lemma faulted_log env w w' ev :
  (length (trace w) <= length (trace w'))%nat ->
  stage_call ev = true -> raises env (length (trace w')) = true ->
  faulted env w (log ev w').
Proof.
  intros Hle Hs Hr. exists (length (trace w')), ev. repeat split; auto.
  simpl. by rewrite lookup_app_r, Nat.sub_diag.
Qed.

Lemma lands_returns {A} env (m : M A) w :
  lands env m -> ~ faulted env w (m w).2 -> exists a, (m w).1 = Ret a.
Proof.
  intros Hm Hf. destruct (Hm w) as (Hd & _ & Hr).
  destruct (m w) as [[a| |] w']; simpl in *; [eauto| |done]. exfalso. by apply Hf, Hr.
Qed.

(** ** The scroll loop of the stabiliser *)

Lemma scroll_and_load_run env cfg fuel w :
  _scroll_and_load env cfg fuel w =
  let k := length (trace w) in
  let w1 := log EvalEagerImages w in
  let w2 := log EvalInnerHeight w1 in
  let w3 := log EvalBodyScrollHeight w2 in
  if raises env k then (Raise, w1)
  else if raises env (S k) then (Raise, w2)
  else if raises env (S (S k)) then (Raise, w3)
  else
    match scroll_loop env cfg fuel (inner_height env (S k))
            (0, body_scroll_height env (S (S k))) w3 with
    | (Ret _, w4) => (Ret tt, w4)
    | (Raise, w4) => (Raise, w4)
    | (Diverge, w4) => (Diverge, w4)
    end.
Proof.
  unfold _scroll_and_load. rewrite bind_call. cbv zeta.
  destruct (raises env (length (trace w))); [done|].
  rewrite bind_call. simpl. rewrite !length_app. simpl.
  replace (length (trace w) + 1)%nat with (S (length (trace w))) by lia.
  destruct (raises env (S (length (trace w)))); [done|].
  rewrite bind_call. simpl. rewrite !length_app. simpl.
  replace (length (trace w) + 1 + 1)%nat with (S (S (length (trace w)))) by lia.
  destruct (raises env (S (S (length (trace w))))); [done|].
  unfold bind. by destruct (scroll_loop _ _ _ _ _ _) as [[s| |] w4].
Qed.

Lemma lands_scroll_and_load env cfg bound fuel :
  (forall i, 0 < inner_height env i) -> (forall i, body_scroll_height env i <= bound) ->
  (Z.to_nat bound <= fuel)%nat ->
  lands env (_scroll_and_load env cfg fuel).
Proof.
  intros Hvh Hbound Hfuel. unfold _scroll_and_load.
  apply lands_bind; [by apply lands_call|]. intros _.
  apply lands_bind; [by apply lands_call|]. intros k.
  apply lands_bind; [by apply lands_call|]. intros k'.
  apply lands_bind; [|intros; apply lands_ret].
  apply (lands_scroll_loop env cfg _ bound); simpl; auto. lia.
Qed.

(** C9: when the window measures a positive height and no measurement of the
    document exceeds [bound], the scroll loop of [_scroll_and_load] ends
    within a number of rounds fixed by [bound]: with that much fuel the run
    never is cut off, it returns unless a call raised, and when it returns
    after [n] rounds, round [n] is the first at which the offset
    [n * viewport_height] had reached the height measured last. *)
Theorem scroll_and_load_terminates env cfg bound w :
  let k := length (trace w) in
  let viewport_height := inner_height env (S k) in
  0 < viewport_height ->
  (forall i, body_scroll_height env i <= bound) ->
  exists rounds, forall fuel, (rounds <= fuel)%nat ->
    let run := _scroll_and_load env cfg fuel w in
    run.1 <> Diverge /\
    (~ faulted env w run.2 -> run.1 = Ret tt) /\
    (run.1 = Ret tt ->
     exists n, (n <= rounds)%nat /\
       new_events w run.2 =
         [EvalEagerImages; EvalInnerHeight; EvalBodyScrollHeight] ++
         scroll_rounds cfg 0 viewport_height n /\
       body_scroll_height env (k + 3 * n + 2) <= offset_after 0 viewport_height n /\
       forall i, (i < n)%nat ->
         offset_after 0 viewport_height i < body_scroll_height env (k + 3 * i + 2)).
Proof.
  intros k viewport_height Hvh Hbound. exists (Z.to_nat bound). intros fuel Hfuel run.
  subst run. rewrite scroll_and_load_run. cbv zeta. fold k viewport_height.
  set (w1 := log EvalEagerImages w). set (w2 := log EvalInnerHeight w1).
  set (w3 := log EvalBodyScrollHeight w2).
  assert (length (trace w1) = S k /\ length (trace w2) = S (S k) /\
          length (trace w3) = (k + 3)%nat) as (Hw1 & Hw2 & Hw3).
  { subst w1 w2 w3 k. simpl. rewrite !length_app. simpl. lia. }
  destruct (raises env k) eqn:Hr0.
  { repeat split; try done. intros []. apply faulted_log; auto. }
  destruct (raises env (S k)) eqn:Hr1.
  { repeat split; try done. intros []. apply faulted_log; auto; [lia|]. by rewrite Hw1. }
  destruct (raises env (S (S k))) eqn:Hr2.
  { repeat split; try done. intros []. apply faulted_log; auto; [lia|]. by rewrite Hw2. }
  set (s := (0, body_scroll_height env (S (S k)))).
  destruct (lands_scroll_loop env cfg viewport_height bound Hvh Hbound fuel s
              (Hbound _) ltac:(simpl; lia) w3) as (Hd & Hle & Hraise).
  pose proof (scroll_loop_ret env cfg viewport_height fuel s w3) as Hret.
  destruct (scroll_loop env cfg fuel viewport_height s w3) as [[s'| |] w4]; cbn [fst snd raised] in *.
  - split; [done|]. split; [done|]. intros _.
    destruct (Hret s' w4 eq_refl) as (n & _ & Ht & _ & Hs & Hexit & Hcont).
    assert (forall i, height_after env (length (trace w3)) (body_scroll_height env (S (S k))) i =
                      body_scroll_height env (k + 3 * i + 2)) as Hh.
    { intros [|i]; unfold height_after; f_equal; lia. }
    rewrite Hs in Hexit. simpl in Hexit. rewrite Hh in Hexit.
    exists n. split; [|split; [|split]].
    + destruct n as [|n]; [lia|]. specialize (Hcont n ltac:(lia)).
      rewrite Hh in Hcont. specialize (Hbound (k + 3 * n + 2)%nat).
      unfold offset_after in Hcont. subst s. cbn [fst snd] in Hcont.
      assert (Z.of_nat n <= Z.of_nat n * viewport_height) by nia. lia.
    + apply new_events_app. rewrite Ht. subst w3 w2 w1. simpl.
      by rewrite <- !app_assoc.
    + done.
    + intros i Hi. rewrite <- Hh. by apply Hcont.
  - split; [done|]. split; [|done]. intros []. apply (faulted_later env w w3 w4); [lia|auto].
  - done.
Qed.

Lemma scroll_and_load_terminates_witness :
  exists rounds, forall fuel, (rounds <= fuel)%nat ->
    let env := steady_page 1280 2500 1000 0 never in
    let run := _scroll_and_load env ScreenShotConfig_default fuel new_instance in
    run.1 <> Diverge /\
    (~ faulted env new_instance run.2 -> run.1 = Ret tt) /\
    (run.1 = Ret tt ->
     exists n, (n <= rounds)%nat /\
       new_events new_instance run.2 =
         [EvalEagerImages; EvalInnerHeight; EvalBodyScrollHeight] ++
         scroll_rounds ScreenShotConfig_default 0 1000 n /\
       body_scroll_height env (0 + 3 * n + 2) <= offset_after 0 1000 n /\
       forall i, (i < n)%nat ->
         offset_after 0 1000 i < body_scroll_height env (0 + 3 * i + 2)).
Proof.
  apply (scroll_and_load_terminates (steady_page 1280 2500 1000 0 never)
           ScreenShotConfig_default 2500 new_instance).
  - reflexivity.
  - intros i. simpl. lia.
Defined.

(** ** The names of the page files *)

Lemma append_length (s t : string) :
  String.length (s +:+ t) = (String.length s + String.length t)%nat.
Proof. induction s as [|c s IH]; simpl; [done|]. by rewrite IH. Qed.

Lemma append_inj_r (s1 s2 t : string) : s1 +:+ t = s2 +:+ t -> s1 = s2.
Proof.
  revert s2. induction s1 as [|c s1 IH]; intros [|c' s2] H; simpl in *.
  - done.
  - apply (f_equal String.length) in H. simpl in H. rewrite !append_length in H. simpl in H. lia.
  - apply (f_equal String.length) in H. simpl in H. rewrite !append_length in H. simpl in H. lia.
  - injection H as -> H. f_equal. by apply IH.
Qed.

Lemma page_path_inj output_dir i j : page_path output_dir i = page_path output_dir j -> i = j.
Proof.
  intros H. apply (f_equal (PyStr.after_last "/")) in H.
  rewrite !(proj1 (page_path_name _ _)) in H.
  apply String.app_inj, append_inj_r in H.
  apply (inj pretty) in H. lia.
Qed.


(** ** What a run that returns has called *)

Lemma ext_Forall env (P : Event -> Prop) w w' :
  ext env (fun _ e => P e) w w' ->
  exists new, trace w' = trace w ++ new /\ Forall P new /\
              files w' = replay env (length (trace w)) new (files w).
Proof.
  intros (new & Ht & Hf & HP). exists new. repeat split; auto.
  apply Forall_lookup. intros i e Hi. by eapply HP.
Qed.

Lemma dismiss_popups_run env w :
  exists popups w',
    _dismiss_popups env w = (Ret tt, w') /\
    trace w' = trace w ++ popups /\ files w' = files w /\
    Forall (fun e => popup_event e = true) popups.
Proof.
  destruct (run_ok_dismiss_popups env (fun _ e => popup_event e = true)
              (fun _ _ => True) (fun _ _ H => H) (fun _ _ _ => I) w) as [Ha _].
  apply ext_Forall in Ha as (popups & Ht & Hp & Hf).
  exists popups, (_dismiss_popups env w).2. repeat split; auto.
  - rewrite <- (dismiss_popups_returns env w). apply surjective_pairing.
  - rewrite Hf. apply replay_plain. eapply Forall_impl; [done|].
    intros e. apply popup_event_plain.
Qed.

Lemma setup_page_ret env cfg auto_adjust w u w' :
  _setup_page env cfg auto_adjust w = (Ret u, w') ->
  trace w' = trace w ++ setup_events cfg (is_open w) auto_adjust /\
  files w' = files w /\ is_open w' = true.
Proof.
  unfold _setup_page, open, setup_events, bind, call, get_is_open, put_is_open, when, ret.
  destruct auto_adjust, (is_open w) eqn:Hopen, (enable_request_throttling cfg),
    (viewport_width cfg), (viewport_height cfg); simpl; rewrite ?Hopen; simpl;
    repeat (destruct (raises env _); simpl; [done|]);
    intros [= <- <-]; simpl; rewrite <- ?app_assoc; done.
Qed.

Lemma stabilize_ret env cfg fuel url w u w' :
  stabilize env cfg fuel url w = (Ret u, w') ->
  exists rounds,
    trace w' = trace w ++
      stabilize_events cfg url (inner_height env (length (trace w) + 3)) rounds /\
    files w' = files w.
Proof.
  unfold stabilize. rewrite bind_call. destruct (raises env _); [done|].
  rewrite bind_call. destruct (raises env _); [done|].
  rewrite scroll_and_load_run. cbv zeta.
  repeat (destruct (raises env _); [done|]).
  destruct (scroll_loop _ _ _ _ _ _) as [[s| |] w4] eqn:Hloop; [|done..].
  intros [= _ <-]. apply scroll_loop_ret in Hloop as (n & _ & Ht & Hf & _).
  exists n. rewrite Ht, Hf. simpl. rewrite !length_app. simpl.
  replace (S (length (trace w) + 1 + 1)) with (length (trace w) + 3)%nat by lia.
  unfold stabilize_events. by rewrite <- !app_assoc.
Qed.

Lemma capture_page_ret env cfg output_dir viewport_height page_num w u w' :
  capture_page env cfg output_dir viewport_height page_num w = (Ret u, w') ->
  exists popups shot,
    Forall (fun e => popup_event e = true) popups /\
    trace w' = trace w ++ page_events cfg output_dir viewport_height page_num popups /\
    files w' = <[page_path output_dir page_num := PagePNG shot false]> (files w).
Proof.
  unfold capture_page, page_events. intros H.
  apply bind_ret_inv in H as ([] & w1 & Hpace & H).
  assert (trace w1 = trace w ++
            (if (0 <? page_num)%nat then [Sleep PageDelay (page_delay cfg)] else []) /\
          files w1 = files w) as [Ht1 Hf1].
  { destruct (0 <? page_num)%nat; simpl in Hpace.
    - rewrite bind_call in Hpace. destruct (raises env _); [done|].
      by injection Hpace as <-.
    - injection Hpace as <-. by rewrite app_nil_r. }
  rewrite bind_call in H. destruct (raises env _); [done|].
  rewrite bind_call in H. destruct (raises env _); [done|].
  apply bind_ret_inv in H as ([] & w2 & Hpop & H).
  destruct (dismiss_popups_run env
              (log WaitForLoadState
                 (log (EvalScrollTo (Z.of_nat page_num * viewport_height)) w1)))
    as (popups & w2' & Hrun & Ht2 & Hf2 & Hp).
  rewrite Hrun in Hpop. injection Hpop as Heq. subst w2'.
  rewrite bind_call in H. destruct (raises env _); [done|].
  unfold page_screenshot in H. rewrite bind_call in H. destruct (raises env _); [done|].
  injection H as _ <-. exists popups. eexists. split; [done|]. simpl.
  rewrite Ht2, Hf2. simpl. rewrite Ht1, Hf1, <- !app_assoc. split; reflexivity.
Qed.

Lemma capture_loop_ret env cfg output_dir viewport_height n : forall first w u w',
  for_ (seq first n) (capture_page env cfg output_dir viewport_height) w = (Ret u, w') ->
  exists popups,
    length popups = n /\
    Forall (Forall (fun e => popup_event e = true)) popups /\
    trace w' = trace w ++ pages_events cfg output_dir viewport_height first popups /\
    (forall i, (first <= i < first + n)%nat ->
       exists shot, files w' !! page_path output_dir i = Some (PagePNG shot false)) /\
    (forall p, (forall i, (first <= i < first + n)%nat -> p <> page_path output_dir i) ->
       files w' !! p = files w !! p).
Proof.
  induction n as [|n IH]; intros first w u w'; simpl.
  - intros [= _ <-]. exists []. simpl. rewrite app_nil_r.
    split; [done|]. split; [done|]. split; [done|]. split; [intros i Hi; lia | done].
  - intros H. apply bind_ret_inv in H as ([] & w1 & Hpage & H).
    apply capture_page_ret in Hpage as (p & shot & Hp & Ht1 & Hf1).
    apply IH in H as (popups & Hlen & Hps & Ht & Hin & Hout).
    exists (p :: popups). simpl. rewrite Ht, Ht1, <- app_assoc.
    split; [by rewrite Hlen|]. split; [by constructor|]. split; [done|]. split.
    + intros i Hi. destruct (decide (i = first)) as [->|Hne].
      * exists shot. rewrite Hout, Hf1; [apply lookup_insert_eq|].
        intros j Hj Heq. apply page_path_inj in Heq. lia.
      * apply Hin. lia.
    + intros q Hq. rewrite Hout, Hf1.
      * apply lookup_insert_ne. intros Heq. by apply (Hq first); [lia|].
      * intros j Hj. apply Hq. lia.
Qed.

Lemma capture_pages_ret env cfg output_dir w b w' :
  capture_pages env cfg output_dir w = (Ret b, w') ->
  let k := length (trace w) in
  let total_height := body_scroll_height env k in
  let viewport_height := inner_height env (S k) in
  let n := Z.to_nat ((total_height + viewport_height - 1) / viewport_height) in
  b = true /\ viewport_height <> 0 /\
  exists popups,
    length popups = n /\
    Forall (Forall (fun e => popup_event e = true)) popups /\
    trace w' = trace w ++ [EvalBodyScrollHeight; EvalInnerHeight] ++
               pages_events cfg output_dir viewport_height 0 popups /\
    (forall i, (i < n)%nat ->
       exists shot, files w' !! page_path output_dir i = Some (PagePNG shot false)) /\
    (forall p, (forall i, (i < n)%nat -> p <> page_path output_dir i) ->
       files w' !! p = files w !! p).
Proof.
  intros H k total_height viewport_height n. unfold capture_pages in H.
  rewrite bind_call in H. destruct (raises env _); [done|].
  rewrite bind_call in H. destruct (raises env _); [done|].
  simpl in H. rewrite length_app in H. simpl in H.
  replace (length (trace w) + 1)%nat with (S k) in H by (subst k; lia).
  fold k total_height viewport_height in H.
  apply bind_ret_inv in H as (q & w1 & Hdiv & H).
  unfold floordiv in Hdiv. destruct (Z.eqb_spec viewport_height 0) as [|Hvh]; [done|].
  injection Hdiv as <- <-.
  apply bind_ret_inv in H as ([] & w2 & Hloop & H). injection H as <- <-.
  apply capture_loop_ret in Hloop as (popups & Hlen & Hps & Ht & Hin & Hout).
  split; [done|]. split; [done|]. exists popups. simpl in *.
  rewrite Ht, <- !app_assoc. repeat split; auto.
  - intros i Hi. apply Hin. fold n. lia.
  - intros p Hp. apply Hout. intros i Hi. apply Hp. fold n in Hi. lia.
Qed.

(** ** Captures and pacing delays among the calls *)

Lemma screenshots_app l1 l2 : screenshots (l1 ++ l2) = screenshots l1 ++ screenshots l2.
Proof. apply omap_app. Qed.

Lemma pacing_delays_app l1 l2 :
  pacing_delays (l1 ++ l2) = (pacing_delays l1 + pacing_delays l2)%nat.
Proof. unfold pacing_delays. by rewrite List.filter_app, length_app. Qed.



Lemma screenshots_scroll_rounds cfg position viewport_height n :
  screenshots (scroll_rounds cfg position viewport_height n) = [].
Proof. revert position. induction n as [|n IH]; intros position; [done|]. apply IH. Qed.

Lemma pacing_delays_scroll_rounds cfg position viewport_height n :
  pacing_delays (scroll_rounds cfg position viewport_height n) = 0%nat.
Proof. revert position. induction n as [|n IH]; intros position; [done|]. apply IH. Qed.

Lemma screenshots_setup_events cfg opened auto_adjust :
  screenshots (setup_events cfg opened auto_adjust) = [].
Proof. unfold setup_events. by destruct opened, (enable_request_throttling cfg). Qed.

Lemma pacing_delays_setup_events cfg opened auto_adjust :
  pacing_delays (setup_events cfg opened auto_adjust) = 0%nat.
Proof. unfold setup_events. by destruct opened, (enable_request_throttling cfg). Qed.



(** ** Multi-page captures that succeed *)

Lemma lands_stabilize env cfg bound fuel url :
  (forall i, 0 < inner_height env i) -> (forall i, body_scroll_height env i <= bound) ->
  (Z.to_nat bound <= fuel)%nat ->
  lands env (stabilize env cfg fuel url).
Proof.
  intros Hvh Hbound Hfuel. unfold stabilize.
  apply lands_bind; [by apply lands_call|]. intros _.
  apply lands_bind; [by apply lands_call|]. intros _.
  by apply (lands_scroll_and_load env cfg bound).
Qed.

Lemma lands_capture_pages env cfg output_dir :
  (forall i, 0 < inner_height env i) -> lands env (capture_pages env cfg output_dir).
Proof.
  intros Hvh. unfold capture_pages.
  apply lands_bind; [by apply lands_call|]. intros k.
  apply lands_bind; [by apply lands_call|]. intros k'.
  apply lands_bind. { apply lands_floordiv. specialize (Hvh k'). lia. }
  intros num_pages. apply lands_bind; [|intros; apply lands_ret].
  apply lands_for. intros page_num. apply lands_capture_page.
Qed.

(** With a window of positive height, heights of at most [bound] and fuel
    for [bound] rounds, a multi-page capture of a valid URL in which no stage
    call raises returns true. *)
Lemma capture_multiple_pages_returns lib env cfg fuel url output_dir bound w :
  _is_valid_url lib url = true ->
  (forall i, 0 < inner_height env i) -> (forall i, body_scroll_height env i <= bound) ->
  (Z.to_nat bound <= fuel)%nat ->
  let run := capture_multiple_pages lib env cfg fuel url output_dir w in
  ~ faulted env w run.2 -> run.1 = Ret true.
Proof.
  intros Hvalid Hvh Hbound Hfuel run. subst run.
  rewrite capture_multiple_pages_run, Hvalid. cbv zeta. simpl negb. cbv iota.
  set (dir := default ("screenshots_" +:+ now env) output_dir).
  set (w0 := log (Mkdir dir) w).
  assert (length (trace w) <= length (trace w0))%nat as Hw0.
  { subst w0. simpl. rewrite length_app. lia. }
  destruct (raises env (length (trace w))) eqn:Hr.
  { simpl. intros []. by apply faulted_log. }
  destruct (lands_setup_page env cfg false w0) as (Hd1 & Hle1 & Hr1).
  destruct (_setup_page env cfg false w0) as [[[]| |] w1]; cbn [fst snd raised] in Hd1, Hle1, Hr1.
  2:{ simpl. intros []. apply (faulted_later env w w0 w1); auto. }
  2:{ done. }
  assert (lands env (stabilize env cfg fuel url ;; capture_pages env cfg dir)) as Hbody.
  { apply lands_bind; [by apply (lands_stabilize env cfg bound)|].
    intros _. by apply lands_capture_pages. }
  destruct (Hbody w1) as (Hd2 & Hle2 & Hr2).
  destruct ((stabilize env cfg fuel url ;; capture_pages env cfg dir) w1)
    as [[b| |] w2] eqn:Hrun; cbn [fst snd raised] in Hd2, Hle2, Hr2; simpl.
  - intros _. apply bind_ret_inv in Hrun as (u & w1' & _ & Hrun).
    by apply capture_pages_ret in Hrun as [-> _].
  - intros []. apply (faulted_ext env (fun _ _ => True) w w2); [by apply ext_log|].
    apply (faulted_later env w w1 w2); [lia | by apply Hr2].
  - done.
Qed.


(** The calls and the files of a multi-page capture that returned true. *)
Lemma capture_multiple_pages_ret lib env cfg fuel url output_dir w :
  _is_valid_url lib url = true ->
  let dir := default ("screenshots_" +:+ now env) output_dir in
  let run := capture_multiple_pages lib env cfg fuel url output_dir w in
  run.1 = Ret true ->
  exists before popups,
    let k := (length (trace w) + length before)%nat in
    let total_height := body_scroll_height env k in
    let viewport_height := inner_height env (S k) in
    let n := Z.to_nat ((total_height + viewport_height - 1) / viewport_height) in
    viewport_height <> 0 /\
    new_events w run.2 =
      before ++ [EvalBodyScrollHeight; EvalInnerHeight] ++
      pages_events cfg dir viewport_height 0 popups ++ [PageClose] /\
    screenshots before = [] /\ pacing_delays before = 0%nat /\
    length popups = n /\
    Forall (Forall (fun e => popup_event e = true)) popups /\
    (forall i, (i < n)%nat ->
       exists shot, files run.2 !! page_path dir i = Some (PagePNG shot false)) /\
    (forall p, (forall i, (i < n)%nat -> p <> page_path dir i) ->
       files run.2 !! p = files w !! p).
Proof.
  intros Hvalid dir run. subst run.
  rewrite capture_multiple_pages_run, Hvalid. cbv zeta. simpl negb. cbv iota. fold dir.
  set (w0 := log (Mkdir dir) w).
  destruct (raises env (length (trace w))); [done|].
  destruct (_setup_page env cfg false w0) as [[[]| |] w1] eqn:Hsetup; [|done..].
  destruct ((stabilize env cfg fuel url ;; capture_pages env cfg dir) w1)
    as [[b| |] w2] eqn:Hrun; [|done..].
  cbn [fst snd]. intros [= ->].
  apply setup_page_ret in Hsetup as (Ht1 & Hf1 & _).
  apply bind_ret_inv in Hrun as (u & w1' & Hstab & Hpages).
  apply stabilize_ret in Hstab as (rounds & Ht2 & Hf2).
  apply capture_pages_ret in Hpages. cbv zeta in Hpages.
  destruct Hpages as (_ & Hvh & popups & Hlen & Hps & Ht3 & Hin & Hout).
  set (before := [Mkdir dir] ++ setup_events cfg (is_open w) false ++
                 stabilize_events cfg url (inner_height env (length (trace w1) + 3)) rounds).
  assert (trace w1' = trace w ++ before) as Hbefore.
  { rewrite Ht2. rewrite Ht1 at 1. subst w0 before. simpl. by rewrite <- !app_assoc. }
  assert (length (trace w1') = (length (trace w) + length before)%nat) as Hk.
  { by rewrite Hbefore, length_app. }
  rewrite Hk in *. exists before, popups. cbv zeta.
  split; [done|]. split.
  { apply new_events_app. cbn [log trace snd]. rewrite Ht3, Hbefore, <- !app_assoc.
    reflexivity. }
  split.
  { subst before. unfold stabilize_events.
    by rewrite !screenshots_app, screenshots_setup_events, screenshots_scroll_rounds. }
  split.
  { subst before. unfold stabilize_events.
    by rewrite !pacing_delays_app, pacing_delays_setup_events, pacing_delays_scroll_rounds. }
  split; [done|]. split; [done|]. split; [done|].
  intros p Hp. simpl. rewrite (Hout p Hp), Hf2, Hf1. done.
Qed.

(** ** The pages of a multi-page capture *)


Lemma never_faulted width height window popups w w' :
  ~ faulted (steady_page width height window popups never) w w'.
Proof. intros (k & e & _ & _ & _ & Hr). discriminate Hr. Qed.


(** ** A document of height zero *)

(** C10: when a multi-page capture of a valid URL returns true and the
    height it measured for the document is zero, the window being of
    positive height, the page count is zero: after the two measurements the
    run only closes the page, it has captured nothing, and the disk is as it
    was.  And on a document that always measures zero, in a window of
    positive height, the capture does return true, with no capture and the
    disk unchanged, unless a stage call raises. *)
Theorem capture_multiple_pages_empty_document lib env cfg url output_dir w :
  _is_valid_url lib url = true ->
  (forall fuel,
     let run := capture_multiple_pages lib env cfg fuel url output_dir w in
     run.1 = Ret true ->
     exists before,
       let k := (length (trace w) + length before)%nat in
       screenshots before = [] /\
       (body_scroll_height env k = 0 -> 0 < inner_height env (S k) ->
        new_events w run.2 =
          before ++ [EvalBodyScrollHeight; EvalInnerHeight; PageClose] /\
        screenshots (new_events w run.2) = [] /\
        files run.2 = files w)) /\
  ((forall i, body_scroll_height env i = 0) -> (forall i, 0 < inner_height env i) ->
   forall fuel,
     let run := capture_multiple_pages lib env cfg fuel url output_dir w in
     ~ faulted env w run.2 ->
     run.1 = Ret true /\ screenshots (new_events w run.2) = [] /\ files run.2 = files w).
Proof.
  intros Hvalid.
  assert (forall fuel,
     let run := capture_multiple_pages lib env cfg fuel url output_dir w in
     run.1 = Ret true ->
     exists before,
       let k := (length (trace w) + length before)%nat in
       screenshots before = [] /\
       (body_scroll_height env k = 0 -> 0 < inner_height env (S k) ->
        new_events w run.2 =
          before ++ [EvalBodyScrollHeight; EvalInnerHeight; PageClose] /\
        screenshots (new_events w run.2) = [] /\
        files run.2 = files w)) as Hshape.
  { intros fuel run Hret.
    destruct (capture_multiple_pages_ret lib env cfg fuel url output_dir w Hvalid Hret)
      as (before & popups & _ & Hev & Hshots & _ & Hlen & _ & _ & Hout).
    exists before. cbv zeta in *. fold run in Hev, Hout. split; [done|].
    intros Hzero Hpos. rewrite Hzero in Hlen, Hout.
    rewrite Z.add_0_l, Z.div_small in Hlen, Hout by lia.
    destruct popups; [|done]. simpl in Hev.
    split; [done|]. split.
    - rewrite Hev, screenshots_app, Hshots. done.
    - apply map_eq. intros p. apply Hout. simpl. intros i Hi. lia. }
  split; [done|].
  intros Hzero Hpos fuel run Hclean.
  assert (run.1 = Ret true) as Hret.
  { apply (capture_multiple_pages_returns lib env cfg fuel url output_dir 0 w); auto.
    - intros i. rewrite Hzero. lia.
    - simpl. lia. }
  split; [done|].
  destruct (Hshape fuel Hret) as (before & _ & Hempty). by apply Hempty.
Qed.

Lemma capture_multiple_pages_empty_document_witness :
  let lib := lenient_checks in
  let env := steady_page 1280 0 1000 0 never in
  let cfg := ScreenShotConfig_default in
  let url := "https://example.com/" in
  let output_dir := Some "out" in
  let w := new_instance in
  let run := capture_multiple_pages lib env cfg 0 url output_dir w in
  _is_valid_url lib url = true /\
  run.1 = Ret true /\ screenshots (new_events w run.2) = [] /\ files run.2 = files w.
Proof.
  intros lib env cfg url output_dir w run.
  assert (_is_valid_url lib url = true) as Hvalid by reflexivity.
  destruct (capture_multiple_pages_empty_document lib env cfg url output_dir w Hvalid)
    as [_ Hempty].
  split; [exact Hvalid|]. apply Hempty.
  - intros i. reflexivity.
  - intros i. simpl. lia.
  - apply never_faulted.
Defined.

(** ** The capture of a single image *)

Lemma lands_capture_steps_auto env cfg fuel url path :
  lands env (capture_steps env cfg fuel url path true).
Proof. unfold capture_steps. landing. apply lands_adjust_viewport_to_page. Qed.

Lemma lands_capture_steps_scroll env cfg bound fuel url path :
  (forall i, 0 < inner_height env i) -> (forall i, body_scroll_height env i <= bound) ->
  (Z.to_nat bound <= fuel)%nat ->
  lands env (capture_steps env cfg fuel url path false).
Proof.
  intros Hvh Hbound Hfuel. unfold capture_steps. landing.
  by apply (lands_scroll_and_load env cfg bound).
Qed.

(** When the steps of a capture end, it returns true unless a stage call
    raised. *)
Lemma capture_returns lib env cfg fuel url output_path auto_adjust w :
  _is_valid_url lib url = true ->
  let path := default ("screenshot_" +:+ now env +:+ ".png") output_path in
  let use := default (viewport_auto_adjust cfg) auto_adjust in
  let run := capture lib env cfg fuel url output_path auto_adjust w in
  lands env (capture_steps env cfg fuel url path use) ->
  ~ faulted env w run.2 -> run.1 = Ret true.
Proof.
  intros Hvalid path use run Hsteps. subst run.
  rewrite (capture_valid_run lib env cfg fuel url output_path auto_adjust w Hvalid).
  fold path use.
  destruct (lands_setup_page env cfg use w) as (Hd1 & Hle1 & Hr1).
  destruct (_setup_page env cfg use w) as [[[]| |] w1]; cbn [fst snd raised] in *.
  - destruct (Hsteps w1) as (Hd2 & Hle2 & Hr2).
    destruct (capture_steps env cfg fuel url path use w1) as [[b| |] w2];
      cbn [fst snd raised] in *; [done| |done].
    intros []. apply (faulted_app env w w2 _ [BlankImage path 800 600; PageClose]).
    + destruct (raises env (length (trace w2))); simpl; by rewrite <- !app_assoc.
    + apply (faulted_later env w w1 w2); [lia | by apply Hr2].
  - intros []. apply (faulted_app env w w1 _ [BlankImage path 800 600]);
      [|by apply Hr1].
    by destruct (raises env (length (trace w1))).
  - done.
Qed.

(** The steps of a capture that returns: its calls end with the capture, the
    only one. *)
Lemma capture_steps_ret env cfg fuel url path use w b w' :
  capture_steps env cfg fuel url path use w = (Ret b, w') ->
  exists before,
    trace w' = trace w ++ before ++ [Screenshot path (negb use)] /\
    screenshots before = [].
Proof.
  unfold capture_steps. rewrite bind_call. destruct (raises env _); [done|].
  rewrite bind_call. destruct (raises env _); [done|]. cbv beta.
  intros H. apply bind_ret_inv in H as ([] & w1 & Hprep & H).
  assert (exists evs, trace w1 = trace w ++ [Goto url; WaitForLoadState] ++ evs /\
                      screenshots evs = []) as (evs & Ht1 & Hs1).
  { destruct use.
    - unfold _adjust_viewport_to_page in Hprep.
      repeat (rewrite bind_call in Hprep; destruct (raises env _); [done|]; cbv beta in Hprep).
      injection Hprep as <-. eexists. split.
      + simpl. rewrite <- !app_assoc. simpl. reflexivity.
      + reflexivity.
    - rewrite scroll_and_load_run in Hprep. cbv zeta in Hprep.
      repeat (destruct (raises env _); [done|]).
      destruct (scroll_loop _ _ _ _ _ _) as [[s| |] w4] eqn:Hloop; [|done..].
      injection Hprep as <-. apply scroll_loop_ret in Hloop as (n & _ & Ht & _).
      exists ([EvalEagerImages; EvalInnerHeight; EvalBodyScrollHeight] ++
              scroll_rounds cfg 0 (inner_height env (S (length (trace w ++ [Goto url] ++ [WaitForLoadState])))) n).
      split.
      + rewrite Ht. simpl. rewrite <- !app_assoc. simpl. reflexivity.
      + by rewrite screenshots_app, screenshots_scroll_rounds. }
  repeat (rewrite bind_call in H; destruct (raises env _); [done|]; cbv beta in H).
  apply bind_ret_inv in H as ([] & w2 & Hshot & H). injection H as _ Hw2. subst w2.
  assert (trace w' = trace w1 ++ [WaitForLoadState; WaitForTimeout (final_wait cfg);
                                  Screenshot path (negb use)]) as Ht2.
  { destruct use; unfold page_screenshot in Hshot; rewrite bind_call in Hshot;
      (destruct (raises env _); [done|]); injection Hshot as <-; simpl;
      by rewrite <- !app_assoc. }
  exists ([Goto url; WaitForLoadState] ++ evs ++
          [WaitForLoadState; WaitForTimeout (final_wait cfg)]).
  split.
  - rewrite Ht2, Ht1, <- !app_assoc. reflexivity.
  - rewrite !screenshots_app, Hs1. reflexivity.
Qed.

(** The steps of a capture in auto-adjust mode: they fail before the
    capture, or they make the calls of the adjusted capture. *)
Lemma capture_steps_auto_shape env cfg fuel url path w :
  let r := capture_steps env cfg fuel url path true w in
  let k := (length (trace w) + 2)%nat in
  (r.1 = Raise /\
   exists evs, trace r.2 = trace w ++ evs /\ screenshots evs = []) \/
  (trace r.2 = trace w ++ [Goto url; WaitForLoadState] ++
                 adjusted_capture_events env cfg path k /\
   r.1 = (if raises env (k + 7) then Raise else Ret true)).
Proof.
  intros r k. subst r. unfold capture_steps, _adjust_viewport_to_page, page_screenshot.
  do 9 (rewrite ?bind_assoc; rewrite bind_call; cbv beta zeta;
        destruct (raises env _);
        [left; split; [reflexivity|]; eexists; split;
         [simpl; rewrite <- ?app_assoc; reflexivity | reflexivity]|];
        rewrite ?bind_ret).
  right. rewrite bind_assoc, bind_call. cbv beta.
  match goal with |- context [raises env (length (trace ?W))] =>
    replace (length (trace W)) with (k + 7)%nat
      by (subst k; simpl; rewrite !length_app; simpl; lia) end.
  match goal with |- context [doc_scroll_width env (length (trace ?W))] =>
    replace (length (trace W)) with k
      by (subst k; simpl; rewrite !length_app; simpl; lia) end.
  match goal with |- context [doc_scroll_height env (length (trace ?W))] =>
    replace (length (trace W)) with (S k)
      by (subst k; simpl; rewrite !length_app; simpl; lia) end.
  destruct (raises env (k + 7)); simpl; rewrite <- !app_assoc; split; reflexivity.
Qed.

Lemma screenshots_plain evs :
  Forall (fun e => writes e = false) evs -> screenshots evs = [].
Proof.
  induction 1 as [|e l He _ IH]; [done|].
  destruct e; first [exact IH | discriminate He].
Qed.

Lemma setup_page_failed env cfg auto_adjust w :
  exists evs,
    trace (_setup_page env cfg auto_adjust w).2 = trace w ++ evs /\ screenshots evs = [].
Proof.
  destruct (run_ok_setup_page env (fun _ e => writes e = false) (fun _ _ => True)
              (fun _ _ H => H) (fun _ _ _ _ => I) (fun _ _ _ => I) cfg auto_adjust w)
    as [Ha _].
  apply ext_Forall in Ha as (evs & Ht & Hp & _). exists evs. split; [done|].
  by apply screenshots_plain.
Qed.

(** ** The mode of a capture *)

(** C2: in a capture of a valid URL, every capture call is for the requested
    path and takes the viewport only in auto-adjust mode and the full page
    otherwise, and a run that returns true has made exactly one.  In
    auto-adjust mode, a run that reaches the capture has made, after setting
    up the page and loading the URL, exactly these calls: measure the
    document's width and height, set the viewport to the smaller of each and
    its configured maximum, reload, wait for the network twice, wait
    [final_wait], capture the viewport; and such a run returns true unless a
    stage call raises. *)
Theorem capture_viewport_or_full_page lib env cfg fuel url output_path auto_adjust w :
  _is_valid_url lib url = true ->
  let path := default ("screenshot_" +:+ now env +:+ ".png") output_path in
  let use := default (viewport_auto_adjust cfg) auto_adjust in
  let run := capture lib env cfg fuel url output_path auto_adjust w in
  (forall p full_page, Screenshot p full_page ∈ new_events w run.2 ->
     p = path /\ full_page = negb use) /\
  (run.1 = Ret true -> screenshots (new_events w run.2) = [(path, negb use)]) /\
  (use = true ->
   let before := setup_events cfg (is_open w) true ++ [Goto url; WaitForLoadState] in
   let k := (length (trace w) + length before)%nat in
   (screenshots (new_events w run.2) <> [] ->
    exists closing,
      new_events w run.2 = before ++ adjusted_capture_events env cfg path k ++ closing /\
      screenshots closing = []) /\
   (~ faulted env w run.2 -> run.1 = Ret true)).
Proof.
  intros Hvalid path use run. split; [|split].
  - intros p full_page Hin.
    destruct (run_ok_capture lib env cfg fuel url output_path auto_adjust
                (fun _ e => forall p fp, e = Screenshot p fp -> p = path /\ fp = negb use)
                ltac:(by intros ? [] ?) ltac:(by intros ? ? ? [= <- <-])
                ltac:(done) w) as [Ha _].
    destruct (ext_elem_of _ _ _ _ _ Ha Hin) as [k Hk]. by apply Hk.
  - subst run.
    rewrite (capture_valid_run lib env cfg fuel url output_path auto_adjust w Hvalid).
    fold path use.
    destruct (_setup_page env cfg use w) as [[[]| |] w1] eqn:Hsetup;
      [|by destruct (raises env _)|done].
    destruct (capture_steps env cfg fuel url path use w1) as [[b| |] w2] eqn:Hsteps;
      [|by destruct (raises env _)|done].
    intros _. apply setup_page_ret in Hsetup as (Ht1 & _).
    apply capture_steps_ret in Hsteps as (before & Ht2 & Hs2).
    rewrite (new_events_app w _ (setup_events cfg (is_open w) use ++ before ++
                                 [Screenshot path (negb use)] ++ [PageClose])).
    + by rewrite !screenshots_app, screenshots_setup_events, Hs2.
    + simpl. rewrite Ht2, Ht1, <- !app_assoc. reflexivity.
  - intros Huse before k. split.
    2:{ apply (capture_returns lib env cfg fuel url output_path auto_adjust w Hvalid).
        fold use. rewrite Huse. apply lands_capture_steps_auto. }
    subst run.
    rewrite (capture_valid_run lib env cfg fuel url output_path auto_adjust w Hvalid).
    fold path use. rewrite Huse.
    destruct (setup_page_failed env cfg true w) as (evs & Hte & Hse).
    pose proof (setup_page_ret env cfg true w) as Hret.
    destruct (_setup_page env cfg true w) as [[[]| |] w1]; cbn [fst snd] in *.
    + destruct (Hret tt w1 eq_refl) as (Ht1 & _). clear Hret.
      assert (length (trace w1) + 2 = k)%nat as Hk.
      { subst k before. rewrite Ht1, !length_app. simpl. lia. }
      pose proof (capture_steps_auto_shape env cfg fuel url path w1) as Hshape.
      cbv zeta in Hshape. rewrite Hk in Hshape.
      destruct (capture_steps env cfg fuel url path true w1) as [[b| |] w2];
        cbn [fst snd] in *.
      * destruct Hshape as [[[=] _] | [Ht2 _]]. intros _. exists [PageClose].
        split; [|done]. apply new_events_app. simpl. subst before.
        rewrite Ht2, Ht1, <- !app_assoc. reflexivity.
      * match goal with |- context [new_events w ?r] => set (final := r) end.
        assert (trace final = trace w2 ++ [BlankImage path 800 600; PageClose])
          as Hfinal
          by (subst final; destruct (raises env (length (trace w2))); simpl;
              by rewrite <- !app_assoc).
        clearbody final.
        destruct Hshape as [(_ & evs2 & Ht2 & Hs2) | [Ht2 _]].
        -- intros []. rewrite (new_events_app w _
             (setup_events cfg (is_open w) true ++ evs2 ++
              [BlankImage path 800 600; PageClose])).
           ++ by rewrite !screenshots_app, screenshots_setup_events, Hs2.
           ++ rewrite Hfinal, Ht2, Ht1, <- !app_assoc. reflexivity.
        -- intros _. exists [BlankImage path 800 600; PageClose].
           split; [|done]. apply new_events_app. subst before.
           rewrite Hfinal, Ht2, Ht1, <- !app_assoc. reflexivity.
      * destruct Hshape as [[[=] _] | [_ Hr]]. by destruct (raises env (k + 7)).
    + intros []. rewrite (new_events_app w _ (evs ++ [BlankImage path 800 600])).
      * by rewrite screenshots_app, Hse.
      * destruct (raises env (length (trace w1))); simpl;
          rewrite Hte, <- !app_assoc; reflexivity.
    + intros []. by rewrite (new_events_app w _ evs).
Qed.

Lemma capture_viewport_or_full_page_witness :
  let lib := lenient_checks in
  let env := steady_page 1280 2500 1000 0 never in
  let cfg := ScreenShotConfig_default in
  let url := "https://example.com/" in
  let w := new_instance in
  let run := capture lib env cfg 0 url (Some "shot.png") (Some true) w in
  let before := setup_events cfg false true ++ [Goto url; WaitForLoadState] in
  _is_valid_url lib url = true /\
  run.1 = Ret true /\
  screenshots (new_events w run.2) = [("shot.png", false)] /\
  exists closing,
    new_events w run.2 =
      before ++ adjusted_capture_events env cfg "shot.png" (0 + length before) ++ closing /\
    screenshots closing = [].
Proof.
  intros lib env cfg url w run before.
  assert (_is_valid_url lib url = true) as Hvalid by reflexivity.
  destruct (capture_viewport_or_full_page lib env cfg 0 url (Some "shot.png") (Some true)
              w Hvalid) as (_ & Hone & Hauto).
  destruct (Hauto eq_refl) as [Hshape Hreturns].
  assert (run.1 = Ret true) as Hret by (apply Hreturns, never_faulted).
  split; [exact Hvalid|]. split; [exact Hret|]. split; [exact (Hone Hret)|].
  apply Hshape. intros Hnil. generalize (Hone Hret). rewrite Hnil. discriminate.
Defined.

(** ** Popup dismissal *)

Lemma try_except_settles {A} (m : M A) (a : A) w :
  settles m ->
  exists a' w', try_except m (ret a) w = (Ret a', w') /\ w' = (m w).2.
Proof.
  intros Hm. destruct (Hm w) as [Hd _]. unfold try_except.
  destruct (m w) as [[a'| |] w']; simpl in *; [eauto|eauto|done].
Qed.

Lemma settles_close_matches env selector : settles (close_matches env selector).
Proof.
  unfold close_matches, click_if_visible.
  repeat first
    [ apply settles_ret | apply settles_call | apply settles_when
    | apply settles_for; intros ? | apply settles_bind; [|intros ?] ].
Qed.

(** The calls for one selector: the query, then only calls on its elements. *)
Lemma close_matches_events env selector w :
  exists evs,
    trace (close_matches env selector w).2 = trace w ++ QuerySelectorAll selector :: evs /\
    queried evs = [] /\ Forall (fun e => popup_event e = true) evs.
Proof.
  unfold close_matches. rewrite bind_call.
  destruct (raises env (length (trace w))).
  { exists []. by split. }
  set (Q := fun (_ : nat) e => popup_event e = true /\
                               match e with QuerySelectorAll _ => False | _ => True end).
  assert (run_ok env Q (fun _ _ => True)
            (for_ (seq 0 (query_count env (length (trace w))))
               (click_if_visible env selector))) as Hfor.
  { apply run_ok_for. intros element. unfold click_if_visible.
    apply run_ok_bind; [by apply run_ok_call|]. intros k. apply run_ok_when.
    apply run_ok_bind; [by apply run_ok_call|]. intros _.
    apply run_ok_bind; [by apply run_ok_call|]. intros _. apply run_ok_ret. }
  destruct (Hfor (log (QuerySelectorAll selector) w)) as [Ha _].
  apply ext_Forall in Ha as (evs & Ht & Hp & _). exists evs. split; [|split].
  - rewrite Ht. simpl. by rewrite <- app_assoc.
  - clear Ht. induction Hp as [|e l [_ He] _ IH]; [done|]. by destruct e.
  - eapply Forall_impl; [done|]. by intros e [? _].
Qed.

Lemma dismiss_selectors_events env selectors : forall w,
  exists w' evs,
    for_ selectors (fun selector => try_except (close_matches env selector) (ret tt)) w
      = (Ret tt, w') /\
    trace w' = trace w ++ evs /\ queried evs = selectors /\
    Forall (fun e => popup_event e = true) evs.
Proof.
  induction selectors as [|selector selectors IH]; intros w; simpl.
  { exists w, []. by rewrite app_nil_r. }
  destruct (try_except_settles (close_matches env selector) tt w
              (settles_close_matches env selector)) as ([] & w1 & Hrun & ->).
  destruct (close_matches_events env selector w) as (evs1 & Ht1 & Hq1 & Hp1).
  destruct (IH (close_matches env selector w).2) as (w' & evs & Hrest & Ht & Hq & Hp).
  exists w', (QuerySelectorAll selector :: evs1 ++ evs). split; [|split; [|split]].
  - unfold bind. by rewrite Hrun.
  - rewrite Ht, Ht1, <- app_assoc. reflexivity.
  - unfold queried in *. simpl. by rewrite omap_app, Hq1, Hq.
  - constructor; [done|]. by apply Forall_app.
Qed.

(** [_dismiss_popups] never raises: it returns whatever its calls do, makes
    only popup calls and writes no file.  When the registration of the dialog
    handler raises, nothing else is called; otherwise every selector of the
    list is queried, in the order of the list, also after a query or a click
    of an earlier selector raised. *)
Theorem dismiss_popups_queries_every_selector env w :
  let run := _dismiss_popups env w in
  run.1 = Ret tt /\ files run.2 = files w /\
  Forall (fun e => popup_event e = true) (new_events w run.2) /\
  if raises env (length (trace w)) then new_events w run.2 = [OnDialog]
  else exists evs, new_events w run.2 = OnDialog :: evs /\ queried evs = popup_selectors.
Proof.
  intros run. destruct (dismiss_popups_run env w) as (popups & w' & Hrun & Ht & Hf & Hp).
  subst run. rewrite Hrun. cbn [fst snd].
  rewrite (new_events_app w w' popups Ht).
  split; [done|]. split; [done|]. split; [done|].
  revert Hrun. unfold _dismiss_popups. unfold try_except at 1. rewrite bind_call.
  destruct (raises env (length (trace w))).
  - intros [= <-]. apply (app_inv_head (trace w)). by rewrite <- Ht.
  - destruct (dismiss_selectors_events env popup_selectors (log OnDialog w))
      as (w1 & evs & Hfor & Ht1 & Hq & _).
    cbv beta. rewrite Hfor. intros [= <-]. exists evs. split; [|done].
    apply (app_inv_head (trace w)). rewrite <- Ht, Ht1. simpl. by rewrite <- app_assoc.
Qed.

(** ** The calls a computation can make *)

Lemma run_ok_weaken {A} env (Qa Qa' Qn Qn' : nat -> Event -> Prop) (m : M A) :
  (forall k e, Qa k e -> Qa' k e) -> (forall k e, Qn k e -> Qn' k e) ->
  run_ok env Qa Qn m -> run_ok env Qa' Qn' m.
Proof.
  intros Ha Hn Hm w. destruct (Hm w) as [H1 H2]. split.
  - by eapply ext_weaken.
  - intros Hr. eapply ext_weaken; [exact Hn | by apply H2].
Qed.

Section Emits.

Variable env : Env.
Variable Q : Event -> Prop.

Lemma emits_ret {A} (a : A) : emits env Q (ret a).
Proof. apply run_ok_ret. Qed.

Lemma emits_raise {A} : emits env Q (@raise A).
Proof. apply run_ok_raise. Qed.

Lemma emits_bind {A B} (m : M A) (f : A -> M B) :
  emits env Q m -> (forall a, emits env Q (f a)) -> emits env Q (bind m f).
Proof. apply run_ok_bind. Qed.

Lemma emits_call ev : writes ev = false -> Q ev -> emits env Q (call env ev).
Proof. intros Hw HQ. by apply run_ok_call. Qed.

Lemma emits_perform ev : writes ev = false -> Q ev -> emits env Q (perform ev).
Proof. intros Hw HQ. by apply run_ok_perform. Qed.

Lemma emits_get_is_open : emits env Q get_is_open.
Proof. apply run_ok_get_is_open. Qed.

Lemma emits_put_is_open b : emits env Q (put_is_open b).
Proof. apply run_ok_put_is_open. Qed.

Lemma emits_floordiv a b : emits env Q (floordiv a b).
Proof. apply run_ok_floordiv. Qed.

Lemma emits_when c m : emits env Q m -> emits env Q (when c m).
Proof. apply run_ok_when. Qed.

Lemma emits_for {A} (l : list A) body :
  (forall x, emits env Q (body x)) -> emits env Q (for_ l body).
Proof. apply run_ok_for. Qed.

Lemma emits_while {S} fuel cond body (s : S) :
  (forall s, emits env Q (body s)) -> emits env Q (while_ fuel cond body s).
Proof. apply run_ok_while. Qed.

Lemma emits_try_except {A} (m handler : M A) :
  emits env Q m -> emits env Q handler -> emits env Q (try_except m handler).
Proof.
  intros Hm Hh. apply run_ok_try_except; [|done].
  eapply run_ok_weaken; [| |exact Hm]; simpl; auto.
Qed.

Lemma emits_attempt {A} (m : M A) : emits env Q m -> emits env Q (attempt m).
Proof.
  intros Hm. apply run_ok_attempt.
  eapply run_ok_weaken; [| |exact Hm]; simpl; auto.
Qed.

Lemma emits_page_screenshot path full_page :
  Q (Screenshot path full_page) -> emits env Q (page_screenshot env path full_page).
Proof. intros HQ. by apply run_ok_page_screenshot. Qed.

Lemma emits_create_blank_image path width height :
  Q (BlankImage path width height) ->
  emits env Q (_create_blank_image env path width height).
Proof. intros HQ. by apply run_ok_create_blank_image. Qed.

Lemma emits_Forall {A} (m : M A) w :
  emits env Q m -> Forall Q (new_events w (m w).2).
Proof.
  intros Hm. destruct (Hm w) as [Ha _].
  apply ext_Forall in Ha as (evs & Ht & HQ & _). by rewrite (new_events_app _ _ _ Ht).
Qed.

End Emits.

(** Walks through a computation of the capture class, leaving for [event]
    the calls it makes. *)
Ltac crawl event :=
  repeat lazymatch goal with
    | |- emits _ _ (let _ := _ in _) => cbv zeta
    | |- emits _ _ (ret _) => apply emits_ret
    | |- emits _ _ get_is_open => apply emits_get_is_open
    | |- emits _ _ (put_is_open _) => apply emits_put_is_open
    | |- emits _ _ (floordiv _ _) => apply emits_floordiv
    | |- emits _ _ (call _ _) => apply emits_call; [reflexivity | event]
    | |- emits _ _ (perform _) => apply emits_perform; [reflexivity | event]
    | |- emits _ _ (page_screenshot _ _ _) => apply emits_page_screenshot; event
    | |- emits _ _ (_create_blank_image _ _ _ _) => apply emits_create_blank_image; event
    | |- emits _ _ raise => apply emits_raise
    | |- emits _ _ (when _ _) => apply emits_when
    | |- emits _ _ (for_ _ _) => apply emits_for; intros ?
    | |- emits _ _ (while_ _ _ _ _) => apply emits_while; intros ?
    | |- emits _ _ (try_except _ _) => apply emits_try_except
    | |- emits _ _ (attempt _) => apply emits_attempt
    | |- emits _ _ (bind _ _) => apply emits_bind; [|intros ?]
    | |- emits _ _ (if ?c then _ else _) => destruct c
    | |- emits _ _ (match ?x with _ => _ end) => destruct x
    | |- emits _ _ (open _ _) => unfold open
    | |- emits _ _ (_setup_page _ _ _) => unfold _setup_page
    | |- emits _ _ (_dismiss_popups _) => unfold _dismiss_popups
    | |- emits _ _ (close_matches _ _) => unfold close_matches
    | |- emits _ _ (click_if_visible _ _ _) => unfold click_if_visible
    | |- emits _ _ (_adjust_viewport_to_page _ _) => unfold _adjust_viewport_to_page
    | |- emits _ _ (_scroll_and_load _ _ _) => unfold _scroll_and_load
    | |- emits _ _ (scroll_loop _ _ _ _ _) => unfold scroll_loop
    | |- emits _ _ (scroll_step _ _ _ _) => unfold scroll_step
    | |- emits _ _ (stabilize _ _ _ _) => unfold stabilize
    | |- emits _ _ (capture_page _ _ _ _ _) => unfold capture_page
    | |- emits _ _ (capture_pages _ _ _) => unfold capture_pages
    | |- emits _ _ (capture_steps _ _ _ _ _ _) => unfold capture_steps
    | |- emits _ _ (capture _ _ _ _ _ _ _) => unfold capture
    | |- emits _ _ (capture_multiple_pages _ _ _ _ _ _) => unfold capture_multiple_pages
    end.

(** ** What each capture mode calls *)

(** A single capture never dismisses popups, whatever its mode.  In
    auto-adjust mode it never scrolls through the page, and it creates the
    page without a viewport; otherwise it never measures the document's
    extent, resizes the viewport or reloads.  This holds for every run,
    also those that fail. *)
Theorem capture_calls_by_mode lib env cfg fuel url output_path auto_adjust w :
  let use := default (viewport_auto_adjust cfg) auto_adjust in
  let run := capture lib env cfg fuel url output_path auto_adjust w in
  Forall (fun e =>
            popup_event e = false /\
            (if use then scroll_call e = false /\ forall viewport, e = NewPage viewport -> viewport = None
             else adjust_call e = false))
         (new_events w run.2).
Proof.
  intros use run. apply (emits_Forall env). unfold capture. cbv zeta. fold use.
  destruct use; crawl ltac:(by (repeat split; try done; intros ? [= <-])).
Qed.

(** A multi-page capture never measures the document's extent, resizes the
    viewport or reloads, whatever [viewport_auto_adjust] is; every capture it
    makes is of the viewport, and every page it creates gets the configured
    viewport. *)
Theorem capture_multiple_pages_never_adjusts lib env cfg fuel url output_dir w :
  let run := capture_multiple_pages lib env cfg fuel url output_dir w in
  Forall (fun e =>
            adjust_call e = false /\
            (forall path full_page, e = Screenshot path full_page -> full_page = false) /\
            (forall viewport, e = NewPage viewport ->
               viewport = match viewport_width cfg, viewport_height cfg with
                          | None, None => None
                          | width, height => Some (width, height)
                          end))
         (new_events w run.2).
Proof.
  intros run. apply (emits_Forall env).
  crawl ltac:(first
    [ by (repeat split; try done; intros; simplify_eq)
    | by (destruct (viewport_width cfg), (viewport_height cfg);
          repeat split; try done; intros; simplify_eq) ]).
Qed.

(** ** The bound on the viewport *)

(** Whatever the page measures, a capture never sets a viewport wider than
    [max_viewport_width] or higher than [max_viewport_height]. *)
Theorem capture_viewport_bounded lib env cfg fuel url output_path auto_adjust w :
  let run := capture lib env cfg fuel url output_path auto_adjust w in
  Forall (fun e => match e with
                   | SetViewportSize width height =>
                       width <= max_viewport_width cfg /\ height <= max_viewport_height cfg
                   | _ => True
                   end)
         (new_events w run.2).
Proof.
  intros run. apply (emits_Forall env). crawl ltac:(simpl; first [exact I | lia]).
Qed.

(** ** Page setup *)

Lemma emits_trace {A} env (Q : Event -> Prop) (m : M A) w :
  emits env Q m -> exists new, trace (m w).2 = trace w ++ new /\ Forall Q new.
Proof.
  intros Hm. destruct (Hm w) as [Ha _].
  apply ext_Forall in Ha as (new & Ht & HQ & _). eauto.
Qed.

Lemma bind_get_is_open {B} (f : bool -> M B) w : bind get_is_open f w = f (is_open w) w.
Proof. reflexivity. Qed.

Lemma bind_put_is_open {B} b (f : unit -> M B) w :
  bind (put_is_open b) f w = f tt (set_is_open b w).
Proof. reflexivity. Qed.

Lemma and_regroup (A B C : Prop) : A /\ B -> C -> A /\ B /\ C.
Proof. tauto. Qed.

Lemma setup_viewport cfg auto_adjust :
  match (if negb auto_adjust then (viewport_width cfg, viewport_height cfg)
         else (None, None)) with
  | (None, None) => None
  | _ => Some (if negb auto_adjust then (viewport_width cfg, viewport_height cfg)
               else (None, None))
  end
  = if auto_adjust then None
    else match viewport_width cfg, viewport_height cfg with
         | None, None => None
         | width, height => Some (width, height)
         end.
Proof. by destruct auto_adjust, (viewport_width cfg), (viewport_height cfg). Qed.

Lemma setup_page_stage_calls env cfg auto_adjust :
  emits env (fun e => stage_call e = true) (_setup_page env cfg auto_adjust).
Proof. crawl ltac:(done). Qed.

(** [_setup_page] makes the calls of [setup_events] in their order and stops
    at the first that raises: the browser is started only on an instance
    that is not open, with the configured [headless]; the page is created
    with the configured viewport, or without one in auto-adjust mode or when
    neither dimension is configured; both default timeouts are set; the
    request route is installed exactly when throttling is enabled.  A call
    that raises is the last call of the run, which ends in its exception;
    and the run ends in an exception only when its last call raised, so a
    run in which no call raises makes all the calls and returns.  It writes
    no file.  Afterwards the instance is open when it was open before or both
    calls that start the browser returned. *)
Theorem setup_page_calls env cfg auto_adjust w :
  let run := _setup_page env cfg auto_adjust w in
  let k := length (trace w) in
  run.1 <> Diverge /\
  files run.2 = files w /\
  (exists calls, new_events w run.2 = take calls (setup_events cfg (is_open w) auto_adjust)) /\
  (run.1 = Ret tt -> new_events w run.2 = setup_events cfg (is_open w) auto_adjust) /\
  is_open run.2 = is_open w || (negb (raises env k) && negb (raises env (S k))) /\
  (forall j e, trace run.2 !! j = Some e -> (k <= j)%nat -> raises env j = true ->
     run.1 = Raise /\ length (trace run.2) = S j) /\
  (run.1 = Raise ->
   exists j, length (trace run.2) = S j /\ (k <= j)%nat /\ raises env j = true).
Proof.
  intros run k.
  assert (forall j e, trace run.2 !! j = Some e -> (k <= j)%nat -> stage_call e = true)
    as Hstage.
  { intros j e Hj Hle.
    destruct (emits_trace env _ _ w (setup_page_stage_calls env cfg auto_adjust))
      as (new & Ht & Hnew).
    fold run in Ht. rewrite Ht, lookup_app_r in Hj by done.
    by eapply Forall_lookup_1 in Hj; [|exact Hnew]. }
  assert (forall j e, trace run.2 !! j = Some e -> (k <= j)%nat -> raises env j = true ->
            run.1 = Raise /\ length (trace run.2) = S j) as Hstops.
  { intros j e Hj Hle Hr.
    destruct (stops_setup_page env cfg auto_adjust w) as [_ Hs].
    apply (Hs j e Hj Hle); [by apply (Hstage j)|done]. }
  assert (run.1 = Raise ->
          exists j, length (trace run.2) = S j /\ (k <= j)%nat /\ raises env j = true)
    as Hraised.
  { intros Hraise.
    destruct (lands_setup_page env cfg auto_adjust w) as (_ & _ & Hf).
    fold run in Hf. rewrite Hraise in Hf.
    destruct (Hf eq_refl) as (j & e & Hj & Hle & _ & Hr).
    exists j. split; [|done]. by destruct (Hstops j e Hj Hle Hr). }
  cut (run.1 <> Diverge /\
       files run.2 = files w /\
       (exists calls, new_events w run.2 =
                      take calls (setup_events cfg (is_open w) auto_adjust)) /\
       (run.1 = Ret tt -> new_events w run.2 = setup_events cfg (is_open w) auto_adjust) /\
       is_open run.2 = is_open w || (negb (raises env k) && negb (raises env (S k)))).
  { intros (H1 & H2 & H3 & H4 & H5). by repeat (split; [done|]). }
  clear Hstage Hstops Hraised. subst run k.
  assert (forall w' evs (r : outcome unit),
            trace w' = trace w ++ evs ->
            (exists calls, evs = take calls (setup_events cfg (is_open w) auto_adjust)) ->
            (r = Ret tt -> evs = setup_events cfg (is_open w) auto_adjust) ->
            (exists calls, new_events w w' =
                           take calls (setup_events cfg (is_open w) auto_adjust)) /\
            (r = Ret tt -> new_events w w' = setup_events cfg (is_open w) auto_adjust))
    as Hshape.
  { intros w' evs r Ht Hpre Hret. by rewrite (new_events_app w w' evs Ht). }
  assert (length (trace (log PlaywrightStart w)) = S (length (trace w))) as Hk1.
  { simpl. rewrite length_app. simpl. lia. }
  unfold _setup_page, open. cbv zeta. rewrite setup_viewport, bind_get_is_open.
  unfold setup_events in Hshape |- *.
  destruct (is_open w) eqn:Hopen; cbn [negb when orb].
  - rewrite bind_ret.
    do 3 (rewrite bind_call; destruct (raises env _);
          [cbn [fst snd]; split; [done|]; split; [done|]; apply and_regroup; [|by (simpl; rewrite ?Hopen)];
           eapply Hshape;
           [simpl; rewrite <- ?app_assoc; reflexivity
           |first [by exists 1%nat | by exists 2%nat | by exists 3%nat] | done]|]).
    destruct (enable_request_throttling cfg) eqn:Hroute; cbn [when].
    + rewrite bind_call. destruct (raises env _); cbn [fst snd ret];
        (split; [done|]); (split; [done|]); (apply and_regroup; [|by (simpl; rewrite ?Hopen)]);
        (eapply Hshape;
         [simpl; rewrite <- ?app_assoc; reflexivity | by exists 4%nat | done]).
    + cbn [fst snd ret]. split; [done|]. split; [done|]. apply and_regroup; [|by (simpl; rewrite ?Hopen)].
      eapply Hshape;
        [simpl; rewrite <- ?app_assoc; reflexivity | by exists 3%nat | done].
  - rewrite bind_assoc, bind_get_is_open, Hopen. cbn [negb when].
    rewrite !bind_assoc, bind_call. destruct (raises env (length (trace w))).
    { cbn [fst snd]. split; [done|]. split; [done|]. apply and_regroup; [|done].
      eapply Hshape; [simpl; reflexivity | by exists 1%nat | done]. }
    rewrite !bind_assoc, bind_call, Hk1. destruct (raises env (S (length (trace w)))).
    { cbn [fst snd]. split; [done|]. split; [done|]. apply and_regroup; [|done].
      eapply Hshape;
        [simpl; rewrite <- ?app_assoc; reflexivity | by exists 2%nat | done]. }
    rewrite bind_put_is_open. cbn [negb andb].
    do 3 (rewrite bind_call; destruct (raises env _);
          [cbn [fst snd]; split; [done|]; split; [done|]; apply and_regroup; [|done];
           eapply Hshape;
           [simpl; rewrite <- ?app_assoc; reflexivity
           |first [by exists 3%nat | by exists 4%nat | by exists 5%nat] | done]|]).
    destruct (enable_request_throttling cfg) eqn:Hroute; cbn [when].
    + rewrite bind_call. destruct (raises env _); cbn [fst snd ret];
        (split; [done|]); (split; [done|]); (apply and_regroup; [|done]);
        (eapply Hshape;
         [simpl; rewrite <- ?app_assoc; reflexivity | by exists 6%nat | done]).
    + cbn [fst snd ret]. split; [done|]. split; [done|]. apply and_regroup; [|done].
      eapply Hshape;
        [simpl; rewrite <- ?app_assoc; reflexivity | by exists 5%nat | done].
Qed.

(** ** Closing the page *)

Lemma setup_page_keeps_page env cfg auto_adjust :
  emits env (fun e => e <> PageClose) (_setup_page env cfg auto_adjust).
Proof. crawl ltac:(done). Qed.

Lemma capture_steps_keeps_page env cfg fuel url path use :
  emits env (fun e => e <> PageClose) (capture_steps env cfg fuel url path use).
Proof. crawl ltac:(done). Qed.

Lemma capture_pages_keeps_page env cfg fuel url dir :
  emits env (fun e => e <> PageClose)
    (stabilize env cfg fuel url ;; capture_pages env cfg dir).
Proof. crawl ltac:(done). Qed.

(** For a valid URL, [capture] closes the page exactly when [_setup_page]
    returned it, and then once, as the last call of the run, also after a
    failure and its blank image, whether saving that image raised or not.
    When [_setup_page] raised, the run ends with the call that saves the
    blank image and closes nothing: a page that [new_page] had returned
    before a later call of the setup raised stays open.  That run returns
    false when the image was saved and ends in the exception of the save
    otherwise. *)
Theorem capture_closes_page lib env cfg fuel url output_path auto_adjust w :
  _is_valid_url lib url = true ->
  let path := default ("screenshot_" +:+ now env +:+ ".png") output_path in
  let use := default (viewport_auto_adjust cfg) auto_adjust in
  let run := capture lib env cfg fuel url output_path auto_adjust w in
  let setup := _setup_page env cfg use w in
  match setup.1 with
  | Ret _ =>
      run.1 = Diverge \/
      exists evs, new_events w run.2 = evs ++ [PageClose] /\
                  Forall (fun e => e <> PageClose) evs
  | Raise =>
      new_events w run.2 = new_events w setup.2 ++ [BlankImage path 800 600] /\
      Forall (fun e => e <> PageClose) (new_events w run.2) /\
      run.1 = (if raises env (length (trace setup.2)) then Raise else Ret false)
  | Diverge => False
  end.
Proof.
  intros Hvalid path use run setup. subst run setup.
  rewrite (capture_valid_run lib env cfg fuel url output_path auto_adjust w Hvalid).
  cbv zeta. fold path use.
  destruct (emits_trace env _ _ w (setup_page_keeps_page env cfg use)) as (n1 & Ht1 & H1).
  destruct (lands_setup_page env cfg use w) as [Hd _].
  destruct (_setup_page env cfg use w) as [[[]| |] w1]; cbn [fst snd] in *; [| |done].
  - destruct (emits_trace env _ _ w1 (capture_steps_keeps_page env cfg fuel url path use))
      as (n2 & Ht2 & H2).
    destruct (capture_steps env cfg fuel url path use w1) as [[b| |] w2];
      cbn [fst snd] in *; [right|right|by left].
    + exists (n1 ++ n2). split; [|by apply Forall_app].
      apply new_events_app. simpl. by rewrite Ht2, Ht1, <- !app_assoc.
    + exists (n1 ++ n2 ++ [BlankImage path 800 600]). split.
      * apply new_events_app.
        destruct (raises env (length (trace w2))); simpl;
          by rewrite Ht2, Ht1, <- !app_assoc.
      * rewrite !Forall_app. repeat split; [done..|]. by constructor.
  - rewrite (new_events_app w w1 n1 Ht1).
    rewrite (new_events_app w _ (n1 ++ [BlankImage path 800 600])).
    + split; [done|]. split; [|by destruct (raises env (length (trace w1)))].
      apply Forall_app. split; [done|]. by constructor.
    + destruct (raises env (length (trace w1))); simpl; by rewrite Ht1, <- app_assoc.
Qed.

Lemma capture_closes_page_witness :
  let lib := lenient_checks in
  let env := steady_page 1280 2500 1000 0 (only 3) in
  let run := capture lib env ScreenShotConfig_default 10 "https://example.com/"
               (Some "shot.png") None new_instance in
  _is_valid_url lib "https://example.com/" = true /\
  run.1 = Ret false /\
  new_events new_instance run.2 =
    [PlaywrightStart; ChromiumLaunch true; NewPage None;
     SetDefaultNavigationTimeout 60000; BlankImage "shot.png" 800 600].
Proof.
  intros lib env run.
  assert (_is_valid_url lib "https://example.com/" = true) as Hvalid by reflexivity.
  pose proof (capture_closes_page lib env ScreenShotConfig_default 10
                "https://example.com/" (Some "shot.png") None new_instance Hvalid)
    as Hclose.
  cbv zeta in Hclose.
  change (_setup_page env ScreenShotConfig_default
            (default (viewport_auto_adjust ScreenShotConfig_default) None) new_instance).1
    with (@Raise unit) in Hclose.
  destruct Hclose as (Hevents & _ & Hret).
  split; [exact Hvalid|]. split; [exact Hret|]. subst run. rewrite Hevents. reflexivity.
Defined.

(** [capture_multiple_pages] follows the same discipline once the output
    directory exists and the URL is valid: the page is closed exactly when
    [_setup_page] returned it, once, as the last call of the run; when
    [_setup_page] raised the result is false and nothing is closed. *)
Theorem capture_multiple_pages_closes_page lib env cfg fuel url output_dir w :
  raises env (length (trace w)) = false ->
  _is_valid_url lib url = true ->
  let dir := default ("screenshots_" +:+ now env) output_dir in
  let run := capture_multiple_pages lib env cfg fuel url output_dir w in
  let setup := _setup_page env cfg false (log (Mkdir dir) w) in
  match setup.1 with
  | Ret _ =>
      run.1 = Diverge \/
      exists evs, new_events w run.2 = evs ++ [PageClose] /\
                  Forall (fun e => e <> PageClose) evs
  | Raise =>
      run.1 = Ret false /\
      run.2 = setup.2 /\
      Forall (fun e => e <> PageClose) (new_events w run.2)
  | Diverge => False
  end.
Proof.
  intros Hmkdir Hvalid dir run setup. subst run setup.
  rewrite (capture_multiple_pages_run lib env cfg fuel url output_dir w).
  cbv zeta. fold dir. rewrite Hmkdir, Hvalid. cbn [negb].
  destruct (emits_trace env _ _ (log (Mkdir dir) w) (setup_page_keeps_page env cfg false))
    as (n1 & Ht1 & H1).
  destruct (lands_setup_page env cfg false (log (Mkdir dir) w)) as [Hd _].
  destruct (_setup_page env cfg false (log (Mkdir dir) w)) as [[[]| |] w1];
    cbn [fst snd] in *; [| |done].
  - destruct (emits_trace env _ _ w1 (capture_pages_keeps_page env cfg fuel url dir))
      as (n2 & Ht2 & H2).
    destruct ((stabilize env cfg fuel url ;; capture_pages env cfg dir) w1)
      as [[b| |] w2]; cbn [fst snd] in *; [right|right|by left].
    + exists (Mkdir dir :: n1 ++ n2). split.
      * apply new_events_app. simpl. rewrite Ht2, Ht1. simpl.
        by rewrite <- !app_assoc.
      * constructor; [done|]. by apply Forall_app.
    + exists (Mkdir dir :: n1 ++ n2). split.
      * apply new_events_app. simpl. rewrite Ht2, Ht1. simpl.
        by rewrite <- !app_assoc.
      * constructor; [done|]. by apply Forall_app.
  - split; [done|]. split; [done|].
    rewrite (new_events_app w w1 (Mkdir dir :: n1)).
    + by constructor.
    + rewrite Ht1. simpl. by rewrite <- app_assoc.
Qed.

Lemma capture_multiple_pages_closes_page_witness :
  let lib := lenient_checks in
  let env := steady_page 1280 2500 1000 0 never in
  let run := capture_multiple_pages lib env ScreenShotConfig_default 10
               "https://example.com/" (Some "out") new_instance in
  raises env (length (trace new_instance)) = false /\
  _is_valid_url lib "https://example.com/" = true /\
  run.1 = Ret true /\
  exists evs, new_events new_instance run.2 = evs ++ [PageClose] /\
              Forall (fun e => e <> PageClose) evs.
Proof.
  intros lib env run.
  assert (raises env (length (trace new_instance)) = false) as Hmkdir by reflexivity.
  assert (_is_valid_url lib "https://example.com/" = true) as Hvalid by reflexivity.
  pose proof (capture_multiple_pages_closes_page lib env ScreenShotConfig_default 10
                "https://example.com/" (Some "out") new_instance Hmkdir Hvalid)
    as Hclose.
  cbv zeta in Hclose.
  change (_setup_page env ScreenShotConfig_default false
            (log (Mkdir (default ("screenshots_" +:+ now env) (Some "out")))
               new_instance)).1
    with (Ret tt) in Hclose.
  assert (run.1 = Ret true) as Hret by (vm_compute; reflexivity).
  split; [exact Hmkdir|]. split; [exact Hvalid|]. split; [exact Hret|].
  destruct Hclose as [Hdiv|Hlast]; [|exact Hlast].
  exfalso. subst run. rewrite Hret in Hdiv. discriminate Hdiv.
Defined.

(** ** Reusing the browser *)

Section Reuse.

Variable env : Env.

Lemma reuses_ret {A} (a : A) : reuses (ret a).
Proof. intros w Hw. split; [done|]. exists []. by rewrite app_nil_r. Qed.

Lemma reuses_raise {A} : reuses (@raise A).
Proof. intros w Hw. split; [done|]. exists []. by rewrite app_nil_r. Qed.

Lemma reuses_bind {A B} (m : M A) (f : A -> M B) :
  reuses m -> (forall a, reuses (f a)) -> reuses (bind m f).
Proof.
  intros Hm Hf w Hw. destruct (Hm w Hw) as (Ho & n1 & Ht1 & H1). unfold bind.
  destruct (m w) as [[a| |] w1]; cbn [fst snd] in *; [|by eauto..].
  destruct (Hf a w1 Ho) as (Ho2 & n2 & Ht2 & H2). split; [done|].
  exists (n1 ++ n2). split; [by rewrite Ht2, Ht1, <- app_assoc|by apply Forall_app].
Qed.

Lemma reuses_call ev : launch_call ev = false -> reuses (call env ev).
Proof.
  intros Hev w Hw. unfold call.
  destruct (raises env (length (trace w))); (split; [done|]);
    exists [ev]; (split; [done|]); by constructor.
Qed.

Lemma reuses_perform ev : launch_call ev = false -> reuses (perform ev).
Proof. intros Hev w Hw. split; [done|]. exists [ev]. split; [done|]. by constructor. Qed.

Lemma reuses_save path img : reuses (save path img).
Proof. intros w Hw. split; [done|]. exists []. by rewrite app_nil_r. Qed.

Lemma reuses_floordiv a b : reuses (floordiv a b).
Proof.
  intros w Hw. unfold floordiv.
  destruct (Z.eqb b 0); (split; [done|]); exists []; by rewrite app_nil_r.
Qed.

Lemma reuses_when c m : reuses m -> reuses (when c m).
Proof. intros Hm. destruct c; [done|]. apply reuses_ret. Qed.

Lemma reuses_for {A} (l : list A) body :
  (forall x, reuses (body x)) -> reuses (for_ l body).
Proof.
  intros Hbody. induction l as [|x l IH]; simpl; [apply reuses_ret|].
  apply reuses_bind; [done|]. by intros _.
Qed.

Lemma reuses_while {S} fuel cond body (s : S) :
  (forall s, reuses (body s)) -> reuses (while_ fuel cond body s).
Proof.
  intros Hbody. revert s. induction fuel as [|fuel IH]; intros s; simpl.
  - destruct (cond s); [|apply reuses_ret].
    intros w Hw. split; [done|]. exists []. by rewrite app_nil_r.
  - destruct (cond s); [|apply reuses_ret]. by apply reuses_bind.
Qed.

Lemma reuses_try_except {A} (m handler : M A) :
  reuses m -> reuses handler -> reuses (try_except m handler).
Proof.
  intros Hm Hh w Hw. destruct (Hm w Hw) as (Ho & n1 & Ht1 & H1). unfold try_except.
  destruct (m w) as [[a| |] w1]; cbn [fst snd] in *; [by eauto| |by eauto].
  destruct (Hh w1 Ho) as (Ho2 & n2 & Ht2 & H2). split; [done|].
  exists (n1 ++ n2). split; [by rewrite Ht2, Ht1, <- app_assoc|by apply Forall_app].
Qed.

Lemma reuses_attempt {A} (m : M A) : reuses m -> reuses (attempt m).
Proof.
  intros Hm. apply reuses_try_except; [|apply reuses_ret].
  apply reuses_bind; [done|]. intros a. apply reuses_ret.
Qed.

(** An open instance does not start the browser again. *)
Lemma reuses_if_closed (f : bool -> M unit) :
  reuses (f true) -> reuses (bind get_is_open f).
Proof. intros Hf w Hw. rewrite bind_get_is_open, Hw. by apply Hf. Qed.

Lemma reuses_open cfg : reuses (open env cfg).
Proof. apply reuses_if_closed. apply reuses_ret. Qed.

End Reuse.

(** Walks through a computation of the capture class on an open instance. *)
Ltac reusing :=
  repeat lazymatch goal with
    | |- reuses (let _ := _ in _) => cbv zeta
    | |- reuses (ret _) => apply reuses_ret
    | |- reuses (bind get_is_open _) => apply reuses_if_closed; cbn [negb]
    | |- reuses (floordiv _ _) => apply reuses_floordiv
    | |- reuses (save _ _) => apply reuses_save
    | |- reuses (call _ _) => apply reuses_call; reflexivity
    | |- reuses (perform _) => apply reuses_perform; reflexivity
    | |- reuses (page_screenshot _ _ _) => unfold page_screenshot
    | |- reuses (_create_blank_image _ _ _ _) => unfold _create_blank_image
    | |- reuses raise => apply reuses_raise
    | |- reuses (when false _) => apply reuses_ret
    | |- reuses (when _ _) => apply reuses_when
    | |- reuses (for_ _ _) => apply reuses_for; intros ?
    | |- reuses (while_ _ _ _ _) => apply reuses_while; intros ?
    | |- reuses (try_except _ _) => apply reuses_try_except
    | |- reuses (attempt _) => apply reuses_attempt
    | |- reuses (bind _ _) => apply reuses_bind; [|intros ?]
    | |- reuses (if ?c then _ else _) => destruct c
    | |- reuses (match ?x with _ => _ end) => destruct x
    | |- reuses (_setup_page _ _ _) => unfold _setup_page
    | |- reuses (_dismiss_popups _) => unfold _dismiss_popups
    | |- reuses (close_matches _ _) => unfold close_matches
    | |- reuses (click_if_visible _ _ _) => unfold click_if_visible
    | |- reuses (_adjust_viewport_to_page _ _) => unfold _adjust_viewport_to_page
    | |- reuses (_scroll_and_load _ _ _) => unfold _scroll_and_load
    | |- reuses (scroll_loop _ _ _ _ _) => unfold scroll_loop
    | |- reuses (scroll_step _ _ _ _) => unfold scroll_step
    | |- reuses (stabilize _ _ _ _) => unfold stabilize
    | |- reuses (capture_page _ _ _ _ _) => unfold capture_page
    | |- reuses (capture_pages _ _ _) => unfold capture_pages
    | |- reuses (capture_steps _ _ _ _ _ _) => unfold capture_steps
    | |- reuses (capture _ _ _ _ _ _ _) => unfold capture
    | |- reuses (capture_multiple_pages _ _ _ _ _ _) => unfold capture_multiple_pages
    end.

Lemma reuses_capture lib env cfg fuel url output_path auto_adjust :
  reuses (capture lib env cfg fuel url output_path auto_adjust).
Proof. reusing. Qed.

Lemma reuses_capture_multiple_pages lib env cfg fuel url output_dir :
  reuses (capture_multiple_pages lib env cfg fuel url output_dir).
Proof. reusing. Qed.

(** A capture that returned true leaves the browser open. *)
Lemma capture_true_open lib env cfg fuel url output_path auto_adjust w :
  (capture lib env cfg fuel url output_path auto_adjust w).1 = Ret true ->
  is_open (capture lib env cfg fuel url output_path auto_adjust w).2 = true.
Proof.
  destruct (_is_valid_url lib url) eqn:Hvalid.
  - rewrite (capture_valid_run lib env cfg fuel url output_path auto_adjust w Hvalid).
    cbv zeta.
    set (use := default (viewport_auto_adjust cfg) auto_adjust).
    set (path := default ("screenshot_" +:+ now env +:+ ".png") output_path).
    destruct (_setup_page env cfg use w) as [[[]| |] w1] eqn:Hsetup;
      [|by destruct (raises env _)|done].
    apply setup_page_ret in Hsetup as (_ & _ & Hopen).
    assert (reuses (capture_steps env cfg fuel url path use)) as Hsteps by reusing.
    destruct (Hsteps w1 Hopen) as [Hopen2 _].
    destruct (capture_steps env cfg fuel url path use w1) as [[b| |] w2];
      [done|by destruct (raises env _)|done].
  - unfold capture. rewrite Hvalid. cbn [negb]. unfold bind.
    rewrite create_blank_image_run. by destruct (raises env _).
Qed.

(** The browser is started once for an instance: on an instance whose browser
    is open, [capture] and [capture_multiple_pages] make no call that starts
    it and leave it open, whatever the URL and however the run ends; and a
    capture that returned true has left the browser open.  So after one
    successful capture every further capture of the instance uses the
    browser that is there. *)
Theorem captures_reuse_browser lib env cfg fuel url output_path auto_adjust
    url' output' auto_adjust' output_dir w :
  let first := capture lib env cfg fuel url output_path auto_adjust w in
  let second := capture lib env cfg fuel url' output' auto_adjust' first.2 in
  let pages := capture_multiple_pages lib env cfg fuel url' output_dir first.2 in
  (is_open w = true ->
   is_open first.2 = true /\
   Forall (fun e => launch_call e = false) (new_events w first.2)) /\
  (first.1 = Ret true ->
   is_open second.2 = true /\
   Forall (fun e => launch_call e = false) (new_events first.2 second.2) /\
   is_open pages.2 = true /\
   Forall (fun e => launch_call e = false) (new_events first.2 pages.2)).
Proof.
  intros first second pages. subst pages second first. split.
  - intros Hopen.
    destruct (reuses_capture lib env cfg fuel url output_path auto_adjust w Hopen)
      as (Ho & evs & Ht & Hevs).
    split; [done|]. by rewrite (new_events_app _ _ _ Ht).
  - intros Hret. apply capture_true_open in Hret.
    destruct (reuses_capture lib env cfg fuel url' output' auto_adjust' _ Hret)
      as (Ho & evs & Ht & Hevs).
    destruct (reuses_capture_multiple_pages lib env cfg fuel url' output_dir _ Hret)
      as (Ho' & evs' & Ht' & Hevs').
    split; [done|]. split; [by rewrite (new_events_app _ _ _ Ht)|].
    split; [done|]. by rewrite (new_events_app _ _ _ Ht').
Qed.

Lemma captures_reuse_browser_witness :
  let lib := lenient_checks in
  let env := steady_page 1280 2500 1000 0 never in
  let first := capture lib env ScreenShotConfig_default 10 "https://example.com/"
                 (Some "one.png") None new_instance in
  let second := capture lib env ScreenShotConfig_default 10 "https://example.org/"
                  (Some "two.png") (Some true) first.2 in
  first.1 = Ret true /\
  PlaywrightStart ∈ new_events new_instance first.2 /\
  second.1 = Ret true /\
  is_open second.2 = true /\
  Forall (fun e => launch_call e = false) (new_events first.2 second.2).
Proof.
  intros lib env first second.
  assert (first.1 = Ret true) as Hfirst by (vm_compute; reflexivity).
  destruct (captures_reuse_browser lib env ScreenShotConfig_default 10
              "https://example.com/" (Some "one.png") None
              "https://example.org/" (Some "two.png") (Some true) None new_instance)
    as [_ Hnext].
  destruct (Hnext Hfirst) as (Hopen & Hevents & _).
  split; [exact Hfirst|]. split; [|split; [|split; [exact Hopen|exact Hevents]]].
  - vm_compute. apply list_elem_of_here.
  - vm_compute. reflexivity.
Defined.

(** ** The output directory *)

Lemma setup_page_no_mkdir env cfg auto_adjust :
  emits env (fun e => forall path, e <> Mkdir path) (_setup_page env cfg auto_adjust).
Proof. crawl ltac:(done). Qed.

Lemma capture_pages_no_mkdir env cfg fuel url dir :
  emits env (fun e => forall path, e <> Mkdir path)
    (stabilize env cfg fuel url ;; capture_pages env cfg dir).
Proof. crawl ltac:(done). Qed.

(** [capture_multiple_pages] creates the output directory first, before it
    looks at the URL, and only once.  When that call raises, the run returns
    false and has done nothing else: no page, no capture, and no blank image
    even for an invalid URL. *)
Theorem capture_multiple_pages_makes_directory_first lib env cfg fuel url output_dir w :
  let dir := default ("screenshots_" +:+ now env) output_dir in
  let run := capture_multiple_pages lib env cfg fuel url output_dir w in
  exists evs,
    new_events w run.2 = Mkdir dir :: evs /\
    Forall (fun e => forall path, e <> Mkdir path) evs /\
    (raises env (length (trace w)) = true ->
     run.1 = Ret false /\ evs = [] /\ files run.2 = files w).
Proof.
  intros dir run. subst run.
  rewrite (capture_multiple_pages_run lib env cfg fuel url output_dir w).
  cbv zeta. fold dir.
  assert (forall w' evs, trace w' = trace (log (Mkdir dir) w) ++ evs ->
            new_events w w' = Mkdir dir :: evs) as Hnew.
  { intros w' evs Ht. apply new_events_app. rewrite Ht. simpl.
    by rewrite <- app_assoc. }
  destruct (raises env (length (trace w))).
  { exists []. split; [by apply new_events_app|]. by split. }
  remember (log (Mkdir dir) w) as w0 eqn:Hw0. clear Hw0.
  destruct (_is_valid_url lib url); cbn [negb].
  2:{ exists [BlankImage (path_join dir "page_1.png") 800 600].
      split; [by destruct (raises env (length (trace w0))); apply Hnew|].
      split; [|intros [=]]. by constructor. }
  destruct (emits_trace env _ _ w0 (setup_page_no_mkdir env cfg false))
    as (n1 & Ht1 & H1).
  destruct (_setup_page env cfg false w0) as [[[]| |] w1];
    cbn [fst snd] in *;
    [|exists n1; (split; [by apply Hnew|]); (split; [done|intros [=]])..].
  destruct (emits_trace env _ _ w1 (capture_pages_no_mkdir env cfg fuel url dir))
    as (n2 & Ht2 & H2).
  destruct ((stabilize env cfg fuel url ;; capture_pages env cfg dir) w1)
    as [[b| |] w2]; cbn [fst snd] in *.
  - exists (n1 ++ n2 ++ [PageClose]). split; [|split; [|intros [=]]].
    + apply Hnew. simpl. by rewrite Ht2, Ht1, <- !app_assoc.
    + rewrite !Forall_app. repeat split; [done..|]. by constructor.
  - exists (n1 ++ n2 ++ [PageClose]). split; [|split; [|intros [=]]].
    + apply Hnew. simpl. by rewrite Ht2, Ht1, <- !app_assoc.
    + rewrite !Forall_app. repeat split; [done..|]. by constructor.
  - exists (n1 ++ n2). split; [|split; [|intros [=]]].
    + apply Hnew. by rewrite Ht2, Ht1, <- !app_assoc.
    + by apply Forall_app.
Qed.

(** ** What a capture leaves on the disk *)

Lemma emits_files {A} env (m : M A) w :
  emits env (fun e => writes e = false) m -> files (m w).2 = files w.
Proof.
  intros Hm. destruct (Hm w) as [Ha _].
  apply ext_Forall in Ha as (new & _ & Hnew & ->). by apply replay_plain.
Qed.

(** The steps of a capture that returns end with the capture, which did not
    raise and is what the requested path holds. *)
Lemma capture_steps_ret_files env cfg fuel url path use w b w' :
  capture_steps env cfg fuel url path use w = (Ret b, w') ->
  b = true /\
  exists shot,
    S shot = length (trace w') /\
    trace w' !! shot = Some (Screenshot path (negb use)) /\
    raises env shot = false /\
    files w' = <[path := PagePNG shot (negb use)]> (files w).
Proof.
  unfold capture_steps. rewrite bind_call. destruct (raises env _); [done|].
  rewrite bind_call. destruct (raises env _); [done|]. cbv beta.
  intros H. apply bind_ret_inv in H as ([] & w1 & Hprep & H).
  pose proof (prepare_files env cfg fuel use
                (log WaitForLoadState (log (Goto url) w))) as Hfiles.
  rewrite Hprep in Hfiles. cbn [fst snd] in Hfiles.
  repeat (rewrite bind_call in H; destruct (raises env _); [done|]; cbv beta in H).
  apply bind_ret_inv in H as ([] & w2 & Hshot & H). injection H as <- <-.
  split; [done|].
  assert (page_screenshot env path (negb use)
            (log (WaitForTimeout (final_wait cfg)) (log WaitForLoadState w1))
          = (Ret tt, w2)) as Hshot' by by destruct use.
  clear Hshot. unfold page_screenshot in Hshot'. rewrite bind_call in Hshot'.
  destruct (raises env _) eqn:Hraise; [done|]. injection Hshot' as <-.
  eexists. split; [|split; [|split; [exact Hraise|]]].
  - simpl. rewrite !length_app. simpl. lia.
  - simpl. rewrite lookup_app_r; [|simpl; lia].
    by rewrite Nat.sub_diag.
  - simpl. by rewrite Hfiles.
Qed.

(** A sequence of calls of which only captures of [path] write: the disk
    is as before or differs at [path]. *)
Lemma replay_one_path env path k evs (fs : gmap string Image) :
  Forall (fun e => writes e = false \/ exists full_page, e = Screenshot path full_page) evs ->
  replay env k evs fs = fs \/ exists img, replay env k evs fs = <[path := img]> fs.
Proof.
  intros Hevs. revert k fs. induction Hevs as [|e evs He _ IH]; intros k fs; [by left|].
  simpl. destruct He as [He|[full_page ->]].
  - replace (replay1 env k e fs) with fs by by destruct e. apply IH.
  - simpl. destruct (raises env k); [apply IH|].
    right. destruct (IH (S k) (<[path := PagePNG k full_page]> fs)) as [->|[img ->]].
    + eauto.
    + exists img. by rewrite insert_insert_eq.
Qed.

Lemma capture_steps_one_path env cfg fuel url path use w :
  let w' := (capture_steps env cfg fuel url path use w).2 in
  files w' = files w \/ exists img, files w' = <[path := img]> (files w).
Proof.
  intros w'. subst w'.
  destruct (run_ok_capture_steps env
              (fun _ e => writes e = false \/
                          exists full_page, e = Screenshot path full_page)
              (fun _ _ => True)
              ltac:(by left) ltac:(done) ltac:(done) cfg fuel url path use
              ltac:(by right; eauto) ltac:(done) w) as [Ha _].
  apply ext_Forall in Ha as (new & _ & Hnew & ->). by apply replay_one_path.
Qed.

(** The disk after a capture that returned false. *)
Lemma capture_false_disk lib env cfg fuel url output_path auto_adjust w :
  let path := default ("screenshot_" +:+ now env +:+ ".png") output_path in
  let run := capture lib env cfg fuel url output_path auto_adjust w in
  run.1 = Ret false ->
  files run.2 = <[path := SolidImage 800 600 "white"]> (files w).
Proof.
  intros path run. subst run.
  destruct (_is_valid_url lib url) eqn:Hvalid.
  2:{ unfold capture. rewrite Hvalid. cbn [negb]. unfold bind. fold path.
      rewrite create_blank_image_run. by destruct (raises env _). }
  rewrite (capture_valid_run lib env cfg fuel url output_path auto_adjust w Hvalid).
  cbv zeta. fold path. set (use := default (viewport_auto_adjust cfg) auto_adjust).
  pose proof (setup_page_files env cfg use w) as Hf1.
  destruct (_setup_page env cfg use w) as [[[]| |] w1]; cbn [fst snd] in *; [| |done].
  - pose proof (capture_steps_one_path env cfg fuel url path use w1) as Hone.
    destruct (capture_steps env cfg fuel url path use w1) as [[b| |] w2];
      cbn [fst snd] in *; [done| |done].
    destruct (raises env (length (trace w2))); [done|].
    intros _. simpl. destruct Hone as [->| [img ->]].
    + by rewrite Hf1.
    + by rewrite insert_insert_eq, Hf1.
  - destruct (raises env (length (trace w1))); [done|].
    intros _. simpl. by rewrite Hf1.
Qed.

(** [capture] changes the disk at the requested path only.  After a run that
    returned true the file is the capture taken by the last browser call
    before the page was closed, a call that did not raise, of the viewport in
    auto-adjust mode and of the full page otherwise; after a run that
    returned false it is the solid white 800 by 600 image, whatever the run
    had written before.  A run ends in an exception only when the call that
    saves the blank image raised, and then the disk is as it was before the
    run. *)
Theorem capture_output_file lib env cfg fuel url output_path auto_adjust w :
  let path := default ("screenshot_" +:+ now env +:+ ".png") output_path in
  let use := default (viewport_auto_adjust cfg) auto_adjust in
  let run := capture lib env cfg fuel url output_path auto_adjust w in
  match run.1 with
  | Ret true =>
      exists shot,
        files run.2 = <[path := PagePNG shot (negb use)]> (files w) /\
        trace run.2 !! shot = Some (Screenshot path (negb use)) /\
        trace run.2 !! S shot = Some PageClose /\
        raises env shot = false
  | Ret false => files run.2 = <[path := SolidImage 800 600 "white"]> (files w)
  | Raise =>
      files run.2 = files w /\
      exists k, (length (trace w) <= k)%nat /\
                trace run.2 !! k = Some (BlankImage path 800 600) /\
                raises env k = true
  | Diverge => True
  end.
Proof.
  intros path use run. subst run.
  destruct (_is_valid_url lib url) eqn:Hvalid.
  2:{ unfold capture. rewrite Hvalid. cbn [negb]. unfold bind. fold path.
      rewrite create_blank_image_run.
      destruct (raises env (length (trace w))) eqn:Hsave; cbn [fst snd]; [|done].
      split; [done|]. exists (length (trace w)). split; [done|]. split; [|done].
      simpl. by rewrite lookup_app_r, Nat.sub_diag. }
  rewrite (capture_valid_run lib env cfg fuel url output_path auto_adjust w Hvalid).
  cbv zeta. fold path use.
  pose proof (setup_page_files env cfg use w) as Hf1.
  destruct (lands_setup_page env cfg use w) as (_ & Hle1 & _).
  destruct (_setup_page env cfg use w) as [[[]| |] w1]; cbn [fst snd] in *.
  - pose proof (capture_steps_one_path env cfg fuel url path use w1) as Hone.
    pose proof (capture_steps_raise_files env cfg fuel url path use w1) as Hnone.
    destruct (emits_trace env _ _ w1 (capture_steps_keeps_page env cfg fuel url path use))
      as (n2 & Ht2 & _).
    destruct (capture_steps env cfg fuel url path use w1) as [[b| |] w2] eqn:Hsteps;
      cbn [fst snd] in *; [| |done].
    + apply capture_steps_ret_files in Hsteps as (_ & shot & Hlen & Hshot & Hraise & Hf2).
      exists shot. split; [simpl; by rewrite Hf2, Hf1|]. split; [|split; [|done]].
      * simpl. apply lookup_app_l_Some. exact Hshot.
      * simpl. rewrite Hlen. by rewrite lookup_app_r, Nat.sub_diag.
    + destruct (raises env (length (trace w2))) eqn:Hsave; cbn [fst snd].
      * split; [simpl; by rewrite (Hnone w2 eq_refl), Hf1|].
        exists (length (trace w2)).
        split; [rewrite Ht2, length_app; lia|]. split; [|done].
        simpl. apply lookup_app_l_Some. by rewrite lookup_app_r, Nat.sub_diag.
      * simpl. destruct Hone as [->| [img ->]].
        -- by rewrite Hf1.
        -- by rewrite insert_insert_eq, Hf1.
  - destruct (raises env (length (trace w1))) eqn:Hsave; cbn [fst snd].
    + split; [simpl; by rewrite Hf1|].
      exists (length (trace w1)). split; [lia|]. split; [|done].
      simpl. by rewrite lookup_app_r, Nat.sub_diag.
    + simpl. by rewrite Hf1.
  - done.
Qed.

(** ** A capture that scrolls *)

Lemma scroll_rounds_length cfg position viewport_height n :
  length (scroll_rounds cfg position viewport_height n) = (3 * n)%nat.
Proof.
  revert position. induction n as [|n IH]; intros position; simpl; [done|].
  rewrite IH. lia.
Qed.

Lemma capture_steps_scroll env cfg fuel url path w :
  capture_steps env cfg fuel url path false w =
  bind (stabilize env cfg fuel url) (fun _ =>
    call env WaitForLoadState ;;
    call env (WaitForTimeout (final_wait cfg)) ;;
    page_screenshot env path true ;;
    ret true) w.
Proof.
  unfold capture_steps, stabilize. rewrite bind_assoc, !bind_call.
  destruct (raises env _); [done|]. rewrite bind_assoc, !bind_call.
  by destruct (raises env _).
Qed.

(** In scroll mode, a capture of a valid URL that returns true has made these
    calls and no other: those of the page setup; navigation and the first
    wait; the three calls that open the scroll through the page and the
    rounds of that scroll; the second wait and the pause of [final_wait];
    the capture of the full page to the requested path; the closing of the
    page.  The disk differs from the one before at the requested path only,
    which holds that capture. *)
Theorem capture_scroll_mode_calls lib env cfg fuel url output_path auto_adjust w :
  _is_valid_url lib url = true ->
  default (viewport_auto_adjust cfg) auto_adjust = false ->
  let path := default ("screenshot_" +:+ now env +:+ ".png") output_path in
  let run := capture lib env cfg fuel url output_path auto_adjust w in
  let k := (length (trace w) + length (setup_events cfg (is_open w) false))%nat in
  run.1 = Ret true ->
  exists rounds,
    (rounds <= fuel)%nat /\
    new_events w run.2 =
      setup_events cfg (is_open w) false ++
      stabilize_events cfg url (inner_height env (k + 3)) rounds ++
      [WaitForLoadState; WaitForTimeout (final_wait cfg); Screenshot path true;
       PageClose] /\
    files run.2 = <[path := PagePNG (k + 5 + 3 * rounds + 2) true]> (files w).
Proof.
  intros Hvalid Hmode path run k. subst run.
  rewrite (capture_valid_run lib env cfg fuel url output_path auto_adjust w Hvalid).
  cbv zeta. fold path. rewrite Hmode.
  destruct (_setup_page env cfg false w) as [[[]| |] w1] eqn:Hsetup;
    [|by destruct (raises env _)|done].
  apply setup_page_ret in Hsetup as (Ht1 & Hf1 & _).
  assert (length (trace w1) = k) as Hk by (subst k; by rewrite Ht1, length_app).
  rewrite capture_steps_scroll.
  destruct (bind (stabilize env cfg fuel url) _ w1) as [[b| |] w'] eqn:Hsteps;
    [|by destruct (raises env _)|done].
  cbn [fst snd]. intros _.
  apply bind_ret_inv in Hsteps as ([] & w2 & Hstab & Hrest).
  pose proof Hstab as Hstab'.
  apply stabilize_ret in Hstab as (rounds & Ht2 & Hf2).
  assert (length (trace w2) = (k + 5 + 3 * rounds)%nat) as Hk2.
  { rewrite Ht2, length_app, Hk. unfold stabilize_events.
    rewrite length_app, scroll_rounds_length. simpl. lia. }
  assert (rounds <= fuel)%nat as Hfuel.
  { revert Hstab'. unfold stabilize. rewrite !bind_call.
    do 2 (destruct (raises env _); [done|]).
    rewrite scroll_and_load_run. cbv zeta.
    do 3 (destruct (raises env _); [done|]).
    destruct (scroll_loop _ _ _ _ _ _) as [[s| |] w4] eqn:Hloop; [|done..].
    intros [= Hw4]. apply scroll_loop_ret in Hloop as (n & Hn & Ht & _).
    apply (f_equal length) in Ht. rewrite Hw4, Hk2 in Ht.
    rewrite length_app, scroll_rounds_length in Ht. simpl in Ht.
    rewrite !length_app, Hk in Ht. simpl in Ht. lia. }
  revert Hrest. rewrite !bind_call. do 2 (destruct (raises env _); [done|]).
  unfold page_screenshot. rewrite bind_assoc, bind_call.
  destruct (raises env _); [done|]. intros [= _ <-].
  exists rounds. split; [done|]. split.
  - apply new_events_app. simpl. rewrite Ht2, Hk, Ht1, <- !app_assoc. reflexivity.
  - simpl. rewrite !length_app, Hk2, Hf2, Hf1. simpl.
    match goal with |- <[_ := PagePNG ?a _]> _ = <[_ := PagePNG ?b _]> _ =>
      replace a with b by lia end.
    reflexivity.
Qed.

Lemma capture_scroll_mode_calls_witness :
  let lib := lenient_checks in
  let env := steady_page 1280 2500 1000 0 never in
  let run := capture lib env ScreenShotConfig_default 10 "https://example.com/"
               (Some "shot.png") None new_instance in
  _is_valid_url lib "https://example.com/" = true /\
  default (viewport_auto_adjust ScreenShotConfig_default) None = false /\
  run.1 = Ret true /\
  exists rounds,
    new_events new_instance run.2 =
      setup_events ScreenShotConfig_default false false ++
      stabilize_events ScreenShotConfig_default "https://example.com/" 1000 rounds ++
      [WaitForLoadState; WaitForTimeout 5000; Screenshot "shot.png" true; PageClose] /\
    files run.2 = {[ "shot.png" := PagePNG (5 + 5 + 3 * rounds + 2) true ]}.
Proof.
  intros lib env run.
  assert (_is_valid_url lib "https://example.com/" = true) as Hvalid by reflexivity.
  assert (default (viewport_auto_adjust ScreenShotConfig_default) None = false)
    as Hmode by reflexivity.
  assert (run.1 = Ret true) as Hret by (vm_compute; reflexivity).
  destruct (capture_scroll_mode_calls lib env ScreenShotConfig_default 10
              "https://example.com/" (Some "shot.png") None new_instance
              Hvalid Hmode Hret) as (rounds & _ & Hevents & Hfiles).
  split; [exact Hvalid|]. split; [exact Hmode|]. split; [exact Hret|].
  exists rounds. split; [exact Hevents|]. exact Hfiles.
Defined.

(** ** The configuration resolver *)

Lemma config_dict_of d :
  (if Py.truthy (PyDict d) then PyDict d else PyDict ∅) = PyDict d.
Proof.
  simpl. case_bool_decide as Hd; [|done]. simpl.
  apply dom_empty_inv_L in Hd. by subst.
Qed.

Lemma flatten_section_dict d name fill fl :
  flatten_section (PyDict d) name fill fl =
  match d !! name with Some sec => fill sec fl | None => Some fl end.
Proof.
  unfold flatten_section. simpl. by destruct (d !! name) as [sec|].
Qed.

Lemma flatten_key_frame sec field key fallback a b g :
  flatten_key sec field key fallback a = Some b -> g <> field -> b !! g = a !! g.
Proof.
  unfold flatten_key. destruct sec; simpl; try done.
  intros [= <-] Hg. by rewrite lookup_insert_ne.
Qed.

Lemma flatten_section_frame d name fill fl fl' g :
  flatten_section (PyDict d) name fill fl = Some fl' ->
  (forall sec a b, fill sec a = Some b -> b !! g = a !! g) ->
  fl' !! g = fl !! g.
Proof.
  rewrite flatten_section_dict. destruct (d !! name) as [sec|].
  - intros H Hfill. by eapply Hfill.
  - by intros [= <-].
Qed.

(** The body of a section leaves alone every field that is not its own. *)
Ltac frame_fill :=
  let sec := fresh "sec" in
  let Hfill := fresh "Hfill" in
  intros sec ? ? Hfill; destruct sec; simpl in Hfill; try discriminate Hfill;
  injection Hfill as <-; rewrite ?lookup_insert_ne by done; reflexivity.

(** One step back through [_flatten_config], for the lookup of a field. *)
Ltac back H :=
  first
    [ rewrite (flatten_section_frame _ _ _ _ _ _ H) by frame_fill
    | rewrite flatten_section_dict in H;
      let sec := fresh "sec" in
      let Hsec := fresh "Hsec" in
      destruct (_ !! _) as [sec|] eqn:Hsec in H;
      [ destruct sec; simpl in H; try discriminate H; injection H as <-;
        rewrite Hsec; rewrite ?lookup_insert_ne by done; rewrite lookup_insert_eq;
        match goal with |- context [?s !! ?key] =>
          lazymatch s with PyDict _ => fail | _ => by destruct (s !! key) end end
      | injection H as <-; rewrite Hsec ] ].

Lemma flatten_config_lookup d fl field section key :
  _flatten_config (PyDict d) = Some fl ->
  document_key field = Some (section, key) ->
  fl !! field =
    match d !! section with
    | Some (PyDict s) =>
        match s !! key with Some v => Some v | None => get_fallbacks !! field end
    | _ => None
    end.
Proof.
  intros Hfl Hkey. unfold _flatten_config in Hfl. simpl in Hfl.
  apply bind_Some in Hfl as (fl1 & H1 & Hfl).
  apply bind_Some in Hfl as (fl2 & H2 & Hfl).
  apply bind_Some in Hfl as (fl3 & H3 & Hfl).
  apply bind_Some in Hfl as (fl4 & H4 & Hfl).
  apply bind_Some in Hfl as (fl5 & H5 & H6).
  unfold document_key in Hkey.
  repeat (destruct (String.eqb field _) eqn:E in Hkey;
          [apply String.eqb_eq in E; subst field; injection Hkey as <- <-;
           back H6; back H5; back H4; back H3; back H2; back H1; reflexivity
          |clear E]).
  discriminate Hkey.
Qed.

Lemma from_yaml_dict d :
  from_yaml (PyDict d) =
  fl ← _flatten_config (PyDict d);
  Some (dataclass_init (filter (fun kv => kv.1 ∈ dataclass_fields) fl)).
Proof. unfold from_yaml. by rewrite config_dict_of. Qed.

Lemma document_key_field field section key :
  document_key field = Some (section, key) -> field ∈ dataclass_fields.
Proof.
  unfold document_key.
  repeat (destruct (String.eqb field _) eqn:E;
          [apply String.eqb_eq in E; subst field; intros _;
           apply elem_of_dom; eexists; reflexivity
          |clear E]).
  discriminate.
Qed.

Lemma flatten_section_None d name fill fl :
  (forall s a, is_Some (fill (PyDict s) a)) ->
  flatten_section (PyDict d) name fill fl = None ->
  exists v, d !! name = Some v /\ is_dict v = false.
Proof.
  rewrite flatten_section_dict. intros Hfill H.
  destruct (d !! name) as [v|]; [|done]. exists v. split; [done|].
  destruct v; try done. destruct (Hfill d0 fl) as [? Hsome]. congruence.
Qed.

Lemma flatten_config_None d :
  _flatten_config (PyDict d) = None <->
  exists name v, name ∈ config_sections /\ d !! name = Some v /\ is_dict v = false.
Proof.
  split.
  - unfold _flatten_config. simpl.
    repeat match goal with
      | |- context [flatten_section (PyDict d) ?n ?f ?a] =>
          let H := fresh "H" in
          destruct (flatten_section (PyDict d) n f a) eqn:H; simpl;
          [|intros _; apply flatten_section_None in H as (v & Hv & Hd);
            [exists n, v; split; [unfold config_sections; set_solver|done]
            |intros; simpl; eauto]]
      end.
    done.
  - intros (name & v & Hin & Hv & Hd). unfold config_sections in Hin.
    unfold _flatten_config. simpl.
    repeat (apply elem_of_cons in Hin as [->|Hin]);
      [..|by apply elem_of_nil in Hin];
      repeat match goal with
        | |- context [flatten_section (PyDict d) ?n ?f ?a] =>
            first
              [ rewrite (flatten_section_dict d n), Hv; destruct v;
                first [discriminate Hd | reflexivity]
              | destruct (flatten_section (PyDict d) n f a); simpl; [|reflexivity] ]
        end.
Qed.

Lemma from_yaml_total d :
  (forall name v, name ∈ config_sections -> d !! name = Some v -> is_dict v = true) ->
  is_Some (from_yaml (PyDict d)).
Proof.
  intros Hdicts. rewrite from_yaml_dict.
  destruct (_flatten_config (PyDict d)) as [fl|] eqn:Hfl; [by eexists|].
  apply flatten_config_None in Hfl as (name & v & Hin & Hv & Hd).
  rewrite (Hdicts name v Hin Hv) in Hd. discriminate Hd.
Qed.

(** When [from_yaml] raises.  For a document that is a mapping: exactly when
    one of the six sections is present with a value that is not a mapping
    (the [.get] on it fails).  A document that is a number or [true] raises
    at the first test for a section.  The other keys and values of the
    document never make it raise. *)
Theorem from_yaml_raises :
  (forall d,
     from_yaml (PyDict d) = None <->
     exists name v, name ∈ config_sections /\ d !! name = Some v /\ is_dict v = false) /\
  (forall loaded,
     Py.truthy loaded = true -> Py.contains "browser" loaded = None ->
     from_yaml loaded = None).
Proof.
  split.
  - intros d. rewrite from_yaml_dict, <- flatten_config_None.
    by destruct (_flatten_config (PyDict d)).
  - intros loaded Htruthy Hcontains. unfold from_yaml. rewrite Htruthy. cbv zeta.
    unfold _flatten_config, flatten_section. simpl. by rewrite Hcontains.
Qed.

(** What [from_yaml] makes of a document that is a mapping, field by field.
    A field whose section is in the document takes the value under its key
    there, unchanged and whatever its type; when the key is missing it takes
    the fallback of the [.get] that reads it; when the whole section is
    missing it takes the default that the class declares. *)
Theorem from_yaml_field d r field section key :
  from_yaml (PyDict d) = Some r ->
  document_key field = Some (section, key) ->
  r !! field =
    match d !! section with
    | Some (PyDict s) =>
        match s !! key with Some v => Some v | None => get_fallbacks !! field end
    | _ => declared_defaults !! field
    end.
Proof.
  intros Hr Hkey. rewrite from_yaml_dict in Hr.
  apply bind_Some in Hr as (fl & Hfl & [= <-]).
  pose proof (flatten_config_lookup d fl field section key Hfl Hkey) as Hlookup.
  pose proof (document_key_field field section key Hkey) as Hfield.
  unfold dataclass_init.
  destruct (fl !! field) as [v|] eqn:Hv.
  - assert (filter (fun kv => kv.1 ∈ dataclass_fields) fl !! field = Some v) as Hin
      by by apply map_lookup_filter_Some.
    rewrite (lookup_union_Some_l _ _ _ _ Hin).
    by destruct (d !! section) as [[]|].
  - rewrite lookup_union_r by (apply map_lookup_filter_None; by left).
    destruct (d !! section) as [[]|]; try done.
    destruct (_ !! key); [done|].
    exfalso. revert Hlookup. clear -Hkey. unfold document_key in Hkey.
    repeat (destruct (String.eqb field _) eqn:E in Hkey;
            [apply String.eqb_eq in E; subst field; intros H; vm_compute in H;
             discriminate H|clear E]).
    discriminate Hkey.
Qed.

Lemma from_yaml_field_witness :
  let d : gmap string pyval :=
    {[ "timeouts" := PyDict {[ "final_wait" := PyStr "soon" ]};
       "viewport" := PyDict ∅ ]} in
  exists r,
    from_yaml (PyDict d) = Some r /\
    r !! "final_wait" = Some (PyStr "soon") /\
    r !! "navigation_timeout" = Some (PyInt 60000) /\
    r !! "viewport_width" = Some PyNone /\
    r !! "page_delay" = Some (PyFloat 2).
Proof.
  intros d.
  assert (is_Some (from_yaml (PyDict d))) as [r Hr].
  { apply from_yaml_total. intros name v Hin Hv. unfold config_sections in Hin.
    repeat (apply elem_of_cons in Hin as [->|Hin]);
      [..|by apply elem_of_nil in Hin];
      vm_compute in Hv; first [discriminate Hv | by injection Hv as <-]. }
  exists r. split; [exact Hr|].
  pose proof (from_yaml_field d r "final_wait" "timeouts" "final_wait" Hr eq_refl) as H1.
  pose proof (from_yaml_field d r "navigation_timeout" "timeouts" "navigation_timeout"
                Hr eq_refl) as H2.
  pose proof (from_yaml_field d r "viewport_width" "viewport" "width" Hr eq_refl) as H3.
  pose proof (from_yaml_field d r "page_delay" "throttling" "page_delay" Hr eq_refl) as H4.
  split; [exact H1|]. split; [exact H2|]. split; [exact H3|exact H4].
Defined.

(** A document that is empty or otherwise falsy, and any document that names
    none of the six sections, gives the declared default of every field. *)
Theorem from_yaml_defaults loaded :
  Py.truthy loaded = false \/
  Forall (fun name => Py.contains name loaded = Some false) config_sections ->
  from_yaml loaded = Some declared_defaults.
Proof.
  assert (_flatten_config (PyDict ∅) = Some ∅) as Hempty by reflexivity.
  assert (Some (dataclass_init (filter (fun kv => kv.1 ∈ dataclass_fields) ∅))
          = Some declared_defaults) as Hinit.
  { unfold dataclass_init. by rewrite map_filter_empty, (left_id_L ∅ (∪)). }
  intros [Hfalsy|Hnone]; unfold from_yaml.
  - rewrite Hfalsy. cbv zeta. rewrite Hempty. exact Hinit.
  - destruct (Py.truthy loaded); cbv zeta; [|rewrite Hempty; exact Hinit].
    assert (_flatten_config loaded = Some ∅) as ->; [|exact Hinit].
    unfold config_sections in Hnone.
    repeat (apply Forall_cons in Hnone as [? Hnone]).
    unfold _flatten_config, flatten_section.
    repeat match goal with H : Py.contains _ _ = _ |- _ => rewrite H; clear H end.
    reflexivity.
Qed.

Lemma from_yaml_defaults_witness :
  from_yaml PyNone = Some declared_defaults /\
  from_yaml (PyStr "just a line of text") = Some declared_defaults /\
  from_yaml (PyDict {[ "colour" := PyStr "blue" ]}) = Some declared_defaults.
Proof.
  split; [|split].
  - apply from_yaml_defaults. left. reflexivity.
  - apply from_yaml_defaults. right. repeat constructor.
  - apply from_yaml_defaults. right. repeat constructor.
Defined.

(** A key that [_flatten_config] does not read changes nothing: neither a
    top-level key other than the six sections, nor a key inside a section
    that is no field's key there.  The result is the same configuration, or
    the same failure, as without the key; a misspelt key is dropped without
    a word. *)
Theorem from_yaml_ignores_unknown_keys :
  (forall d key v,
     key ∉ config_sections ->
     from_yaml (PyDict (<[key := v]> d)) = from_yaml (PyDict d)) /\
  (forall d section s key v,
     d !! section = Some (PyDict s) ->
     (forall field, document_key field <> Some (section, key)) ->
     from_yaml (PyDict (<[section := PyDict (<[key := v]> s)]> d)) = from_yaml (PyDict d)).
Proof.
  split.
  - intros d key v Hkey. rewrite !from_yaml_dict.
    assert (_flatten_config (PyDict (<[key := v]> d)) = _flatten_config (PyDict d))
      as ->; [|done].
    unfold _flatten_config. simpl.
    repeat match goal with
      | |- context [flatten_section (PyDict (<[key := v]> d)) ?n ?f ?a] =>
          replace (flatten_section (PyDict (<[key := v]> d)) n f a)
            with (flatten_section (PyDict d) n f a)
            by (rewrite !flatten_section_dict, lookup_insert_ne; [done|];
                intros ->; apply Hkey; unfold config_sections; set_solver);
          destruct (flatten_section (PyDict d) n f a); simpl; [|reflexivity]
      end.
    reflexivity.
  - intros d section s key v Hsec Hno. rewrite !from_yaml_dict.
    assert (_flatten_config (PyDict (<[section := PyDict (<[key := v]> s)]> d))
            = _flatten_config (PyDict d)) as ->; [|done].
    assert (forall field name k,
              document_key field = Some (name, k) -> section = name ->
              <[key := v]> s !! k = s !! k) as Hread.
    { intros field name k Hfield <-. apply lookup_insert_ne. intros ->.
      by apply (Hno field). }
    unfold _flatten_config. simpl.
    repeat match goal with
      | |- context [flatten_section
                      (PyDict (<[section := PyDict (<[key := v]> s)]> d)) ?n ?f ?a] =>
          replace (flatten_section
                     (PyDict (<[section := PyDict (<[key := v]> s)]> d)) n f a)
            with (flatten_section (PyDict d) n f a);
          [destruct (flatten_section (PyDict d) n f a); simpl; [|reflexivity]
          |rewrite !flatten_section_dict;
           destruct (decide (section = n)) as [Heq|Hne];
           [subst section; rewrite lookup_insert_eq, Hsec; unfold flatten_key; simpl;
            rewrite ?(Hread "headless" _ _ eq_refl eq_refl),
                    ?(Hread "navigation_timeout" _ _ eq_refl eq_refl),
                    ?(Hread "action_timeout" _ _ eq_refl eq_refl),
                    ?(Hread "final_wait" _ _ eq_refl eq_refl),
                    ?(Hread "scroll_delay" _ _ eq_refl eq_refl),
                    ?(Hread "page_delay" _ _ eq_refl eq_refl),
                    ?(Hread "request_delay" _ _ eq_refl eq_refl),
                    ?(Hread "enable_request_throttling" _ _ eq_refl eq_refl),
                    ?(Hread "viewport_width" _ _ eq_refl eq_refl),
                    ?(Hread "viewport_height" _ _ eq_refl eq_refl),
                    ?(Hread "viewport_auto_adjust" _ _ eq_refl eq_refl),
                    ?(Hread "max_viewport_width" _ _ eq_refl eq_refl),
                    ?(Hread "max_viewport_height" _ _ eq_refl eq_refl),
                    ?(Hread "verbose" _ _ eq_refl eq_refl);
            reflexivity
           |by rewrite lookup_insert_ne]]
      end.
    reflexivity.
Qed.

(** ** The command line *)

(** A capture that fails, because the URL is invalid or because a stage
    call raised, tries to save the blank image; what it answers and what is
    on the disk depends on whether that save raised. *)
Lemma capture_faulted lib env cfg fuel url output_path auto_adjust w :
  let path := default ("screenshot_" +:+ now env +:+ ".png") output_path in
  let run := capture lib env cfg fuel url output_path auto_adjust w in
  _is_valid_url lib url = false \/ faulted env w run.2 ->
  exists k,
    (length (trace w) <= k)%nat /\
    trace run.2 !! k = Some (BlankImage path 800 600) /\
    if raises env k
    then run.1 = Raise /\ files run.2 = files w
    else run.1 = Ret false /\
         files run.2 = <[path := SolidImage 800 600 "white"]> (files w).
Proof.
  intros path run. subst run.
  destruct (_is_valid_url lib url) eqn:Hvalid.
  2:{ intros _. exists (length (trace w)). split; [done|].
      unfold capture. rewrite Hvalid. cbn [negb]. fold path. unfold bind.
      rewrite create_blank_image_run.
      destruct (raises env (length (trace w))); cbn [fst snd];
        (split; [|done]); simpl; by rewrite lookup_app_r, Nat.sub_diag. }
  intros [[=]|Hf]. revert Hf.
  rewrite (capture_valid_run lib env cfg fuel url output_path auto_adjust w Hvalid).
  cbv zeta. fold path.
  set (use := default (viewport_auto_adjust cfg) auto_adjust).
  destruct (run_ok_setup_page env (fun _ _ => True) (clean env)
              ltac:(done) (clean_plain env) (clean_popup env) cfg use w) as [Ha1 Hn1].
  pose proof (setup_page_files env cfg use w) as Hf1.
  destruct (_setup_page env cfg use w) as [[[]| |] w1]; cbn [fst snd] in *.
  - specialize (Hn1 eq_refl).
    destruct (run_ok_capture_steps env (fun _ _ => True) (clean env)
                ltac:(done) (clean_plain env) (clean_popup env) cfg fuel url path use
                ltac:(done) ltac:(intros; by apply clean_screenshot) w1) as [Ha2 Hn2].
    destruct (capture_steps env cfg fuel url path use w1) as [[b| |] w2] eqn:Hsteps;
      cbn [fst snd] in *.
    + intros Hf. exfalso. eapply clean_not_faulted; [|exact Hf].
      apply ext_log_close. eapply ext_trans; [done|]. by apply Hn2.
    + intros _. apply capture_steps_raise_files in Hsteps.
      apply ext_length in Ha1, Ha2.
      exists (length (trace w2)). split; [lia|].
      destruct (raises env (length (trace w2))); cbn [fst snd]; simpl;
        (split; [apply lookup_app_l_Some; by rewrite lookup_app_r, Nat.sub_diag|]);
        by rewrite Hsteps, Hf1.
    + intros Hf. exfalso.
      eapply clean_not_faulted; [|exact Hf]. eapply ext_trans; [done|]. by apply Hn2.
  - intros _. apply ext_length in Ha1.
    exists (length (trace w1)). split; [lia|].
    destruct (raises env (length (trace w1))); cbn [fst snd]; simpl;
      (split; [by rewrite lookup_app_r, Nat.sub_diag|]); by rewrite Hf1.
  - intros Hf. exfalso. eapply clean_not_faulted; [|exact Hf]. by apply Hn1.
Qed.

Lemma main_single_run lib env fuel args w :
  args_multi_page args = false ->
  let cfg := if args_full_page args then with_auto_adjust true ScreenShotConfig_default
             else ScreenShotConfig_default in
  main lib env fuel args w =
  match capture lib env cfg fuel (args_url args) (args_output args) None
          (set_is_open false w) with
  | (Ret true, w1) =>
      (Ret ([Printed ("Screenshot saved to " +:+
                      output_or args "screenshot_<timestamp>.png")], 0), w1)
  | (Ret false, w1) =>
      (Ret (if args_full_page args then ([ErrorLine], 1)
            else ([Printed ("Invalid URL. Blank image saved to " +:+
                            output_or args "screenshot_<timestamp>.png")], 0)), w1)
  | (Raise, w1) => (Ret ([ErrorLine], 1), w1)
  | (Diverge, w1) => (Diverge, w1)
  end.
Proof.
  intros Hmulti cfg. subst cfg. unfold main, main_try, try_except, bind, put_is_open.
  rewrite Hmulti, andb_false_r.
  destruct (args_full_page args); cbv zeta;
    by destruct (capture _ _ _ _ _ _ _ _) as [[[]| |] w1].
Qed.

(** When a single capture fails, because the URL is invalid or because a call
    of a stage raised, the capture tries to save the white image at the
    output path, and what the command line reports depends on that save and
    on the flag.  When the save raises, there is no new file: the handler
    prints the error line and the status is 1, with either flag.  When the
    save returns, the image is at the path; without [--full-page] the
    program prints that the URL is invalid, also when the URL was valid and
    the browser failed, and ends with status 0; with [--full-page] the
    message refers to a variable that is not bound on this path, so the
    handler prints the error line and the status is 1. *)
Theorem main_single_capture_failure lib env fuel args w :
  args_multi_page args = false ->
  let path := default ("screenshot_" +:+ now env +:+ ".png") (args_output args) in
  let run := main lib env fuel args w in
  _is_valid_url lib (args_url args) = false \/
  (_is_valid_url lib (args_url args) = true /\ faulted env w run.2) ->
  exists k,
    (length (trace w) <= k)%nat /\
    trace run.2 !! k = Some (BlankImage path 800 600) /\
    if raises env k
    then files run.2 = files w /\ run.1 = Ret ([ErrorLine], 1)
    else files run.2 = <[path := SolidImage 800 600 "white"]> (files w) /\
         run.1 =
           Ret (if args_full_page args then ([ErrorLine], 1)
                else ([Printed ("Invalid URL. Blank image saved to " +:+
                                output_or args "screenshot_<timestamp>.png")], 0)).
Proof.
  intros Hmulti path run. subst run.
  rewrite (main_single_run lib env fuel args w Hmulti). cbv zeta.
  set (cfg := if args_full_page args then with_auto_adjust true ScreenShotConfig_default
              else ScreenShotConfig_default).
  set (w0 := set_is_open false w).
  pose proof (capture_faulted lib env cfg fuel (args_url args) (args_output args)
                None w0) as Hfaulted.
  cbv zeta in Hfaulted. fold path in Hfaulted.
  intros Hfail.
  assert (_is_valid_url lib (args_url args) = false \/
          faulted env w0
            (capture lib env cfg fuel (args_url args) (args_output args) None w0).2)
    as Hfail'.
  { destruct Hfail as [Hno|[_ Hf]]; [by left|right].
    by destruct (capture lib env cfg fuel (args_url args) (args_output args) None w0)
      as [[[]| |] w1]. }
  destruct (Hfaulted Hfail') as (k & Hk & Hlookup & Hcase). clear Hfaulted Hfail Hfail'.
  exists k. split; [exact Hk|].
  destruct (capture lib env cfg fuel (args_url args) (args_output args) None w0)
    as [[[]| |] w1]; cbn [fst snd] in *;
    (split; [exact Hlookup|]);
    destruct (raises env k); destruct Hcase as [Hret Hfiles]; by try discriminate Hret.
Qed.

Lemma main_single_capture_failure_witness :
  let lib := lenient_checks in
  let quiet := steady_page 1280 2500 1000 0 never in
  let failing := steady_page 1280 2500 1000 0 (only 0) in
  let full := {| args_url := "example.com"; args_output := Some "shot.png";
                 args_full_page := true; args_multi_page := false |} in
  let plain := {| args_url := "example.com"; args_output := Some "shot.png";
                  args_full_page := false; args_multi_page := false |} in
  let bare := {| args_url := "example.com"; args_output := Some "shot";
                 args_full_page := false; args_multi_page := false |} in
  _is_valid_url lib "example.com" = false /\
  (main lib quiet 10 full new_instance).1 = Ret ([ErrorLine], 1) /\
  files (main lib quiet 10 full new_instance).2
    = {[ "shot.png" := SolidImage 800 600 "white" ]} /\
  (main lib quiet 10 plain new_instance).1
    = Ret ([Printed "Invalid URL. Blank image saved to shot.png"], 0) /\
  (main lib failing 10 bare new_instance).1 = Ret ([ErrorLine], 1) /\
  files (main lib failing 10 bare new_instance).2 = ∅.
Proof.
  intros lib quiet failing full plain bare.
  assert (_is_valid_url lib "example.com" = false) as Hinvalid by reflexivity.
  destruct (main_single_capture_failure lib quiet 10 full new_instance eq_refl
              (or_introl Hinvalid)) as (k1 & _ & _ & Hfile & Hfull).
  destruct (main_single_capture_failure lib quiet 10 plain new_instance eq_refl
              (or_introl Hinvalid)) as (k2 & _ & _ & _ & Hplain).
  destruct (main_single_capture_failure lib failing 10 bare new_instance eq_refl
              (or_introl Hinvalid)) as (k3 & _ & Hsave & Hbare).
  assert (k3 = 0%nat) as -> by (by destruct k3 as [|[|k3]]).
  destruct Hbare as [Hnone Hbare].
  split; [exact Hinvalid|]. split; [exact Hfull|]. split; [exact Hfile|].
  split; [exact Hplain|]. split; [exact Hbare|exact Hnone].
Defined.

(** ** Texts without a scheme *)

Lemma contains_lstrip c p s :
  PyStr.contains c s = false -> PyStr.contains c (PyStr.lstrip p s) = false.
Proof.
  induction s as [|a s IH]; simpl; [done|].
  intros [Ha Hs]%orb_false_iff. destruct (p a); [by apply IH|].
  simpl. by rewrite Ha, Hs.
Qed.

Lemma contains_filter c p s :
  PyStr.contains c s = false -> PyStr.contains c (PyStr.filter p s) = false.
Proof.
  induction s as [|a s IH]; simpl; [done|].
  intros [Ha Hs]%orb_false_iff. destruct (p a); [|by apply IH].
  simpl. by rewrite Ha, IH.
Qed.

Lemma partition_found c s :
  PyStr.contains c s = false -> (PyStr.partition c s).1.2 = false.
Proof.
  induction s as [|a s IH]; simpl; [done|].
  intros [Ha Hs]%orb_false_iff. rewrite Ha.
  specialize (IH Hs). by destruct (PyStr.partition c s) as [[before found] after].
Qed.

Lemma split_scheme_none url :
  PyStr.contains ":" url = false -> urllib.split_scheme url = ("", url).
Proof.
  intros Hcolon. unfold urllib.split_scheme. destruct url as [|c0 url]; [done|].
  pose proof (partition_found ":" (String c0 url) Hcolon) as Hfound.
  destruct (PyStr.partition ":" (String c0 url)) as [[before found] after].
  simpl in Hfound. by subst found.
Qed.

(** A text in which no colon occurs has no scheme for [urlparse]: the
    validator rejects it, whatever else it holds.  A bare host name such as
    [example.com] is not a valid URL for a capture. *)
Theorem is_valid_url_needs_scheme lib url :
  PyStr.contains ":" url = false -> _is_valid_url lib url = false.
Proof.
  intros Hcolon. unfold _is_valid_url, urllib.urlparse.
  rewrite split_scheme_none by by apply contains_filter, contains_lstrip.
  destruct (urllib.split_netloc _) as [nl rest].
  by destruct (_ && _).
Qed.

Lemma is_valid_url_needs_scheme_witness :
  PyStr.contains ":" "www.example.com/index.html" = false /\
  _is_valid_url lenient_checks "www.example.com/index.html" = false.
Proof.
  split; [reflexivity|]. by apply is_valid_url_needs_scheme.
Defined.

(** ** A window without height *)

Lemma scroll_loop_hangs env cfg viewport_height :
  viewport_height <= 0 ->
  (forall i, raises env i = false) ->
  (forall i, 0 < body_scroll_height env i) ->
  forall fuel s w, s.1 <= 0 -> 0 < s.2 ->
    (scroll_loop env cfg fuel viewport_height s w).1 = Diverge.
Proof.
  intros Hvh Hraises Hheight. unfold scroll_loop.
  induction fuel as [|fuel IH]; intros [position total_height] w Hp Ht; simpl in *.
  - by destruct (Z.ltb_spec position total_height); [|lia].
  - destruct (Z.ltb_spec position total_height); [|lia].
    unfold bind. rewrite scroll_step_run. cbv zeta. rewrite !Hraises.
    apply IH; simpl; [lia|apply Hheight].
Qed.

(** When the window measures no height (zero or less) while the document
    keeps measuring a positive one, the scroll of [_scroll_and_load] never
    reaches the end of the page: the run does not return, whatever the number
    of rounds it is given, and when no call raises it is still scrolling
    after any number of rounds. *)
Theorem scroll_and_load_hangs env cfg w :
  let k := length (trace w) in
  inner_height env (S k) <= 0 ->
  (forall i, 0 < body_scroll_height env i) ->
  forall fuel,
    let run := _scroll_and_load env cfg fuel w in
    run.1 <> Ret tt /\
    ((forall i, raises env i = false) -> run.1 = Diverge).
Proof.
  intros k Hvh Hheight fuel run. subst run.
  rewrite scroll_and_load_run. cbv zeta. fold k. split.
  - repeat (destruct (raises env _); [done|]).
    destruct (scroll_loop _ _ _ _ _ _) as [[s| |] w4] eqn:Hloop; [|done..].
    exfalso. apply scroll_loop_ret in Hloop as (n & _ & _ & _ & -> & Hend & _).
    unfold offset_after, height_after in Hend. cbn [fst snd] in Hend.
    assert (Z.of_nat n * inner_height env (S k) <= 0) by nia.
    destruct n as [|n].
    + pose proof (Hheight (S (S k))). lia.
    + match type of Hend with body_scroll_height env ?i <= _ =>
        pose proof (Hheight i) end. lia.
  - intros Hraises. rewrite !Hraises.
    pose proof (scroll_loop_hangs env cfg (inner_height env (S k)) Hvh Hraises Hheight
                  fuel (0, body_scroll_height env (S (S k)))
                  (log EvalBodyScrollHeight (log EvalInnerHeight (log EvalEagerImages w)))
                  ltac:(done) (Hheight _)) as Hhang.
    by destruct (scroll_loop _ _ _ _ _ _) as [[s| |] w4].
Qed.

Lemma scroll_and_load_hangs_witness :
  let env := steady_page 1280 2500 0 0 never in
  inner_height env 1 <= 0 /\
  (forall i, 0 < body_scroll_height env i) /\
  forall fuel,
    (_scroll_and_load env ScreenShotConfig_default fuel new_instance).1 = Diverge.
Proof.
  intros env.
  assert (inner_height env 1 <= 0) as Hvh by (simpl; lia).
  assert (forall i, 0 < body_scroll_height env i) as Hheight by (intros i; simpl; lia).
  split; [exact Hvh|]. split; [exact Hheight|]. intros fuel.
  destruct (scroll_and_load_hangs env ScreenShotConfig_default new_instance
              Hvh Hheight fuel) as [_ Hhang].
  apply Hhang. reflexivity.
Defined.

Lemma stabilize_files env cfg fuel url w :
  files (stabilize env cfg fuel url w).2 = files w /\
  exists evs, trace (stabilize env cfg fuel url w).2 = trace w ++ evs /\
              screenshots evs = [].
Proof.
  assert (emits env (fun e => writes e = false) (stabilize env cfg fuel url)) as Hm
    by crawl ltac:(done).
  split; [by apply (emits_files env)|].
  destruct (emits_trace env _ _ w Hm) as (evs & Ht & Hevs).
  exists evs. split; [done|]. by apply screenshots_plain.
Qed.

(** The page count divides by the height of the window.  In a window that
    measures height zero, [capture_multiple_pages] of a valid URL never
    returns true: it takes no capture and writes no file. *)
Theorem capture_multiple_pages_zero_window lib env cfg fuel url output_dir w :
  _is_valid_url lib url = true ->
  (forall i, inner_height env i = 0) ->
  let run := capture_multiple_pages lib env cfg fuel url output_dir w in
  run.1 <> Ret true /\
  screenshots (new_events w run.2) = [] /\
  files run.2 = files w.
Proof.
  intros Hvalid Hwindow run. subst run.
  rewrite (capture_multiple_pages_run lib env cfg fuel url output_dir w). cbv zeta.
  set (dir := default ("screenshots_" +:+ now env) output_dir).
  destruct (raises env (length (trace w))).
  { split; [done|]. split; [|done]. by rewrite (new_events_app w _ [Mkdir dir]). }
  rewrite Hvalid. cbn [negb].
  remember (log (Mkdir dir) w) as w0 eqn:Hw0.
  assert (trace w0 = trace w ++ [Mkdir dir] /\ files w0 = files w) as [Ht0 Hf0]
    by by subst w0.
  clear Hw0.
  destruct (setup_page_failed env cfg false w0) as (n1 & Ht1 & Hs1).
  pose proof (setup_page_files env cfg false w0) as Hf1.
  destruct (_setup_page env cfg false w0) as [[[]| |] w1]; cbn [fst snd] in *.
  2,3: split; [done|]; split; [|by rewrite Hf1];
       rewrite (new_events_app w w1 ([Mkdir dir] ++ n1))
         by (by rewrite Ht1, Ht0, <- app_assoc);
       by rewrite screenshots_app, Hs1.
  destruct (stabilize_files env cfg fuel url w1) as (Hf2 & n2 & Ht2 & Hs2).
  unfold bind.
  destruct (stabilize env cfg fuel url w1) as [[[]| |] w2]; cbn [fst snd] in *.
  2,3: split; [done|]; split; [|simpl; by rewrite Hf2, Hf1];
       first [ rewrite (new_events_app w _ ([Mkdir dir] ++ n1 ++ n2 ++ [PageClose]))
                 by (simpl; by rewrite Ht2, Ht1, Ht0, <- !app_assoc)
             | rewrite (new_events_app w _ ([Mkdir dir] ++ n1 ++ n2))
                 by (by rewrite Ht2, Ht1, Ht0, <- !app_assoc) ];
       by rewrite !screenshots_app, Hs1, Hs2.
  unfold capture_pages. rewrite bind_call.
  destruct (raises env _).
  { split; [done|]. split; [|simpl; by rewrite Hf2, Hf1].
    rewrite (new_events_app w _ ([Mkdir dir] ++ n1 ++ n2 ++
                                 [EvalBodyScrollHeight; PageClose]))
      by (simpl; by rewrite Ht2, Ht1, Ht0, <- !app_assoc).
    by rewrite !screenshots_app, Hs1, Hs2. }
  rewrite bind_call. destruct (raises env _).
  { split; [done|]. split; [|simpl; by rewrite Hf2, Hf1].
    rewrite (new_events_app w _ ([Mkdir dir] ++ n1 ++ n2 ++
                                 [EvalBodyScrollHeight; EvalInnerHeight; PageClose]))
      by (simpl; by rewrite Ht2, Ht1, Ht0, <- !app_assoc).
    by rewrite !screenshots_app, Hs1, Hs2. }
  rewrite Hwindow. unfold floordiv, bind. simpl.
  split; [done|]. split; [|by rewrite Hf2, Hf1].
  rewrite (new_events_app w _ ([Mkdir dir] ++ n1 ++ n2 ++
                               [EvalBodyScrollHeight; EvalInnerHeight; PageClose]))
    by (simpl; by rewrite Ht2, Ht1, Ht0, <- !app_assoc).
  by rewrite !screenshots_app, Hs1, Hs2.
Qed.

Lemma capture_multiple_pages_zero_window_witness :
  let lib := lenient_checks in
  let env := steady_page 1280 0 0 0 never in
  let run := capture_multiple_pages lib env ScreenShotConfig_default 10
               "https://example.com/" (Some "out") new_instance in
  _is_valid_url lib "https://example.com/" = true /\
  (forall i, inner_height env i = 0) /\
  run.1 = Ret false /\
  files run.2 = ∅.
Proof.
  intros lib env run.
  assert (_is_valid_url lib "https://example.com/" = true) as Hvalid by reflexivity.
  assert (forall i, inner_height env i = 0) as Hwindow by done.
  destruct (capture_multiple_pages_zero_window lib env ScreenShotConfig_default 10
              "https://example.com/" (Some "out") new_instance Hvalid Hwindow)
    as (_ & _ & Hfiles).
  split; [exact Hvalid|]. split; [exact Hwindow|]. split; [|exact Hfiles].
  vm_compute. reflexivity.
Defined.
